(** * NovelPolisher: from the PDF to the chunks and their outputs

    A shallow embedding of the backend: the core pipeline ([preprocess.py],
    [chapter_split.py], [chunking.py]) and what stands around it
    ([pdf_extract.py], [prompts.py], [checkpoint.py], [exporters.py],
    [utils.py] and the loop over the chunks of [main.py]), together with
    the properties of it that the specification states and further ones
    that the code shows.

    Python strings are sequences of Unicode code points, so a string is a
    list of code points ([N]); Python integers are unbounded, so they are
    [Z]; Python floats are IEEE 754 doubles, so they are the floats of
    [SpecFloat] with 53 bits of precision.  Regular expressions are kept as syntax trees, transcribed from the
    patterns of the source, and run by a small backtracking matcher that
    follows the search order of Python's [re] module on the constructs the
    source uses.  Files are maps from names to contents, and what lies
    outside the repository (the PDF reader, the clock, the model service)
    comes in as data or as a parameter. *)

From Stdlib Require Import ZArith NArith QArith List Bool Lia String Ascii.
From Stdlib Require Floats.SpecFloat.
From stdpp Require Import base option list sorting gmap.

Local Open Scope Z_scope.

(* ================================================================== *)
(** * Strings *)
(* ================================================================== *)

Abbreviation char := N.
Abbreviation str := (list N).

(** [len(s)] *)
Definition len (s : str) : Z := Z.of_nat (length s).

(** Code points of a UTF-8 encoded literal, so that the Vietnamese texts of
    the source can be written down as they are. *)
Fixpoint utf8_go (need : nat) (acc : N) (bs : list N) : str :=
  match bs with
  | [] => []
  | b :: bs' =>
      match need with
      | O =>
          if (b <? 128)%N then b :: utf8_go 0 0%N bs'
          else if (b <? 224)%N then utf8_go 1 (b - 192)%N bs'
          else if (b <? 240)%N then utf8_go 2 (b - 224)%N bs'
          else utf8_go 3 (b - 240)%N bs'
      | S k =>
          let acc' := (acc * 64 + (b - 128))%N in
          match k with
          | O => acc' :: utf8_go 0 0%N bs'
          | S _ => utf8_go k acc' bs'
          end
      end
  end.

Definition utf8 (s : string) : str :=
  utf8_go 0 0%N (map N_of_ascii (list_ascii_of_string s)).

Notation "'u8' s" := (utf8 s%string) (at level 1, s at level 0, only parsing).

Definition LF : char := 10%N.
Definition CR : char := 13%N.
Definition SP : char := 32%N.

(** The characters for which [str.isspace()] holds; the same set is what
    [str.strip()] removes and what [\s] matches in a [str] pattern. *)
Definition is_space (c : char) : bool :=
  ((9 <=? c) && (c <=? 13) || (28 <=? c) && (c <=? 32) ||
   (c =? 133) || (c =? 160) || (c =? 5760) ||
   (8192 <=? c) && (c <=? 8202) || (c =? 8232) || (c =? 8233) ||
   (c =? 8239) || (c =? 8287) || (c =? 12288))%N.

Fixpoint lstrip (s : str) : str :=
  match s with
  | c :: s' => if is_space c then lstrip s' else s
  | [] => []
  end.

Definition rstrip (s : str) : str := rev (lstrip (rev s)).

(** [s.strip()] *)
Definition strip (s : str) : str := rstrip (lstrip s).

Definition is_empty (s : str) : bool :=
  match s with [] => true | _ => false end.

(** [sep] is a prefix of [s] *)
Fixpoint starts_with (sep s : str) : bool :=
  match sep, s with
  | [], _ => true
  | a :: sep', b :: s' => (a =? b)%N && starts_with sep' s'
  | _ :: _, [] => false
  end.

(** [s.split(sep)] for a non-empty [sep]: [skip] counts the characters of an
    occurrence of [sep] that are still to be passed over. *)
Fixpoint split_go (sep : str) (skip : nat) (acc : str) (s : str) : list str :=
  match s with
  | [] => [rev acc]
  | c :: s' =>
      match skip with
      | S k => split_go sep k acc s'
      | O =>
          if starts_with sep s
          then rev acc :: split_go sep (Nat.pred (length sep)) [] s'
          else split_go sep 0 (c :: acc) s'
      end
  end.

Definition split (sep s : str) : list str := split_go sep 0 [] s.

(** [sep.join(parts)] *)
Fixpoint join (sep : str) (parts : list str) : str :=
  match parts with
  | [] => []
  | [p] => p
  | p :: ps => p ++ sep ++ join sep ps
  end.

(** [s.replace(old, new)] for a non-empty [old] *)
Fixpoint replace_go (old new : str) (skip : nat) (s : str) : str :=
  match s with
  | [] => []
  | c :: s' =>
      match skip with
      | S k => replace_go old new k s'
      | O =>
          if starts_with old s
          then new ++ replace_go old new (Nat.pred (length old)) s'
          else c :: replace_go old new 0 s'
      end
  end.

Definition replace (old new s : str) : str := replace_go old new 0 s.

(** Text files, [open(path, 'w', encoding='utf-8')] and [open(path, 'r',
    encoding='utf-8')].  Writing puts [os.linesep] in the place of every
    newline; reading gives a newline for every carriage return with a
    newline behind it and for every other carriage return. *)
Inductive platform := Posix | Windows.

Definition linesep (os : platform) : str :=
  match os with Posix => [LF] | Windows => [CR; LF] end.

Definition write_text (os : platform) (s : str) : str := replace [LF] (linesep os) s.

Definition read_text (content : str) : str :=
  replace [CR] [LF] (replace [CR; LF] [LF] content).

(** [s[i:j]] for [0 <= i <= j] *)
Definition slice (i j : nat) (s : str) : str := take (j - i) (drop i s).

(** Decimal digits of a natural number, most significant first. *)
Fixpoint digits_go (fuel : nat) (n : N) (acc : str) : str :=
  match fuel with
  | O => acc
  | S f =>
      let acc' := (48 + n mod 10)%N :: acc in
      if (n <? 10)%N then acc' else digits_go f (n / 10)%N acc'
  end.

Definition str_of_N (n : N) : str := digits_go (S (N.to_nat (N.log2 n))) n [].

(** [format(z, "0{width}d")]: the sign, then zeros up to [width], then the
    digits. *)
Definition format_0d (width : nat) (z : Z) : str :=
  let ds := str_of_N (Z.abs_N z) in
  let sign := if z <? 0 then [45%N] else [] in
  sign ++ repeat 48%N (width - length sign - length ds) ++ ds.

(* ================================================================== *)
(** * Regular expressions *)
(* ================================================================== *)

(** The constructs of Python's [re] syntax that the patterns of the source
    use.  Repetition is only ever applied to a single-character class
    ([\s+], [\d{1,5}], [.+?], [\n{3,}]), and look-behind to one class. *)
Inductive regex : Type :=
| Eps : regex
| Lit : char -> regex
| Class : (char -> bool) -> regex
| Cat : regex -> regex -> regex
| Alt : regex -> regex -> regex
| Rep : bool -> (char -> bool) -> nat -> option nat -> regex
| Opt : regex -> regex
| Grp : nat -> regex -> regex
| Bol : regex
| Eol : regex
| Ahead : regex -> regex
| Behind : (char -> bool) -> regex.

Record flags := Flags { ignorecase : bool; multiline : bool }.

(** A position in the subject: the characters already passed (latest
    first), the characters to come, and the groups captured so far. *)
Record mstate := MState { seen : str; rest : str; groups : gmap nat str }.

(** [re.Match]: [m.start()], [m.end()] and [m.group(i)] ([None] for a group
    that took no part in the match). *)
Record Match := MkMatch { m_start : nat; m_end : nat; m_groups : gmap nat str }.

Definition group (m : Match) (i : nat) : option str := m_groups m !! i.

(** The other-case form of a pattern literal.  Under [re.IGNORECASE] a
    literal [c] matches [x] when both have the same lower-case form; for the
    letters that occur in the case-insensitive patterns of the source
    (ASCII letters, U+01A1 and U+01B0) these are the letter and its
    capital. *)
Definition other_case (c : char) : char :=
  (if (65 <=? c) && (c <=? 90) then c + 32
   else if (97 <=? c) && (c <=? 122) then c - 32
   else if (c =? 416) || (c =? 431) then c + 1
   else if (c =? 417) || (c =? 432) then c - 1
   else c)%N.

Definition hi_pos (hi : option nat) : bool :=
  match hi with Some O => false | _ => true end.

Definition hi_pred (hi : option nat) : option nat :=
  match hi with Some n => Some (Nat.pred n) | None => None end.

(** Greedy repetition [p{lo,hi}]: as many characters as possible first,
    then one fewer each time the rest of the pattern fails. *)
Fixpoint rep_greedy (p : char -> bool) (lo : nat) (hi : option nat)
    (k : mstate -> option mstate) (sn rs : str) (g : gmap nat str)
    : option mstate :=
  let stop := match lo with O => k (MState sn rs g) | S _ => None end in
  match rs with
  | c :: rs' =>
      if p c && hi_pos hi then
        match rep_greedy p (Nat.pred lo) (hi_pred hi) k (c :: sn) rs' g with
        | Some m => Some m
        | None => stop
        end
      else stop
  | [] => stop
  end.

(** Lazy repetition [p{lo,hi}?]: as few characters as possible first. *)
Fixpoint rep_lazy (p : char -> bool) (lo : nat) (hi : option nat)
    (k : mstate -> option mstate) (sn rs : str) (g : gmap nat str)
    : option mstate :=
  let more :=
    match rs with
    | c :: rs' =>
        if p c && hi_pos hi
        then rep_lazy p (Nat.pred lo) (hi_pred hi) k (c :: sn) rs' g
        else None
    | [] => None
    end in
  match lo with
  | O => match k (MState sn rs g) with Some m => Some m | None => more end
  | S _ => more
  end.

Section Matcher.
Variable fl : flags.

Definition lit_ok (c x : char) : bool :=
  (x =? c)%N || (ignorecase fl && (x =? other_case c)%N).

(** [^]: the start of the subject, and with [re.MULTILINE] also after
    each newline. *)
Definition at_bol (s : mstate) : bool :=
  match seen s with
  | [] => true
  | c :: _ => multiline fl && (c =? LF)%N
  end.

(** [$]: the end of the subject or before a final newline, and with
    [re.MULTILINE] before each newline. *)
Definition at_eol (s : mstate) : bool :=
  match rest s with
  | [] => true
  | c :: tl => (c =? LF)%N && (multiline fl || is_empty tl)
  end.

Definition step (s : mstate) (x : char) (tl : str) : mstate :=
  MState (x :: seen s) tl (groups s).

(** [rmatch r k s]: match [r] at [s] and hand each way of matching it,
    in the order in which [re] tries them, to the continuation [k] until
    one succeeds. *)
Fixpoint rmatch (r : regex) (k : mstate -> option mstate) (s : mstate)
    : option mstate :=
  match r with
  | Eps => k s
  | Lit c =>
      match rest s with
      | x :: tl => if lit_ok c x then k (step s x tl) else None
      | [] => None
      end
  | Class p =>
      match rest s with
      | x :: tl => if p x then k (step s x tl) else None
      | [] => None
      end
  | Cat r1 r2 => rmatch r1 (rmatch r2 k) s
  | Alt r1 r2 =>
      match rmatch r1 k s with
      | Some m => Some m
      | None => rmatch r2 k s
      end
  | Rep greedy p lo hi =>
      (if greedy then rep_greedy else rep_lazy)
        p lo hi k (seen s) (rest s) (groups s)
  | Opt r1 =>
      match rmatch r1 k s with
      | Some m => Some m
      | None => k s
      end
  | Grp i r1 =>
      rmatch r1
        (fun s' =>
           let captured := take (length (seen s') - length (seen s)) (rest s) in
           k (MState (seen s') (rest s') (<[i := captured]> (groups s'))))
        s
  | Bol => if at_bol s then k s else None
  | Eol => if at_eol s then k s else None
  | Ahead r1 =>
      match rmatch r1 Some s with
      | Some _ => k s
      | None => None
      end
  | Behind p =>
      match seen s with
      | c :: _ => if p c then k s else None
      | [] => None
      end
  end.

(** One attempt at one position. *)
Definition match_at (r : regex) (sn rs : str) : option Match :=
  match rmatch r Some (MState sn rs ∅) with
  | Some s' => Some (MkMatch (length sn) (length (seen s')) (groups s'))
  | None => None
  end.

(** [re.match(r, text)] *)
Definition re_match (r : regex) (text : str) : option Match :=
  match_at r [] text.

(** The non-overlapping matches from left to right.  [skip] counts the
    characters of the last match still to be passed over; after an empty
    match the scan moves on by one character (no pattern of the source
    matches the empty string). *)
Fixpoint scan (r : regex) (skip : nat) (sn rs : str) : list Match :=
  match rs with
  | [] =>
      match skip with
      | O => match match_at r sn [] with Some m => [m] | None => [] end
      | S _ => []
      end
  | c :: rs' =>
      match skip with
      | S k => scan r k (c :: sn) rs'
      | O =>
          match match_at r sn rs with
          | Some m => m :: scan r (Nat.pred (m_end m - m_start m)) (c :: sn) rs'
          | None => scan r 0 (c :: sn) rs'
          end
      end
  end.

(** [list(r.finditer(text))] *)
Definition finditer (r : regex) (text : str) : list Match := scan r 0 [] text.

(** The pieces of [text] between the matches, for a pattern without
    groups. *)
Fixpoint pieces (pos : nat) (ms : list Match) (text : str) : list str :=
  match ms with
  | [] => [drop pos text]
  | m :: ms' => slice pos (m_start m) text :: pieces (m_end m) ms' text
  end.

(** [re.split(r, text)] *)
Definition re_split (r : regex) (text : str) : list str :=
  pieces 0 (finditer r text) text.

Fixpoint subst (repl : Match -> str) (pos : nat) (ms : list Match) (text : str)
    : str :=
  match ms with
  | [] => drop pos text
  | m :: ms' =>
      slice pos (m_start m) text ++ repl m ++ subst repl (m_end m) ms' text
  end.

(** [re.sub(r, repl, text)] with a function [repl] *)
Definition re_sub (r : regex) (repl : Match -> str) (text : str) : str :=
  subst repl 0 (finditer r text) text.
End Matcher.

(** A word, character by character. *)
Fixpoint word (w : str) : regex :=
  match w with
  | [] => Eps
  | [c] => Lit c
  | c :: w' => Cat (Lit c) (word w')
  end.

Definition one_of (cs : str) (c : char) : bool := bool_decide (c ∈ cs).

(** [\s], [.] *)
Definition ws : char -> bool := is_space.
Definition dot (c : char) : bool := negb (c =? LF)%N.

Definition no_flags : flags := Flags false false.

Fixpoint cat_all (rs : list regex) : regex :=
  match rs with
  | [] => Eps
  | [r] => r
  | r :: rs' => Cat r (cat_all rs')
  end.

(** [str(z)] for an integer *)
Definition str_of_Z (z : Z) : str :=
  (if z <? 0 then [45%N] else []) ++ str_of_N (Z.abs_N z).

(** [list(range(a, b))] *)
Definition range (a b : Z) : list Z :=
  map (fun i => a + Z.of_nat i) (seq 0 (Z.to_nat (b - a))).

(** [min(x :: l)] and [max(x :: l)] *)
Definition min_of (x : Z) (l : list Z) : Z := fold_left Z.min l x.
Definition max_of (x : Z) (l : list Z) : Z := fold_left Z.max l x.

(** [str(l)] for a list of integers, as in [[2, 3]] *)
Definition str_of_list (l : list Z) : str :=
  u8 "[" ++ join (u8 ", ") (map str_of_Z l) ++ u8 "]".

(** [s[:n]] for any integer [n]: a negative [n] counts from the end. *)
Definition prefix (n : Z) (s : str) : str :=
  if n <? 0 then take (Z.to_nat (len s + n)) s else take (Z.to_nat n) s.

(* ================================================================== *)
(** * The Unicode tables of the Python runtime *)
(* ================================================================== *)

(** The source relies on three tables of Python's Unicode database, which
    are not part of the repository: the decimal digits with their values
    ([\d] in a pattern, [int(...)] on a string of digits), [str.isupper()]
    and [str.isdigit()] on one character. *)
Class UCD := {
  decimal : char -> option Z;
  isupper : char -> bool;
  isdigit : char -> bool
}.

(** [\d] *)
Definition is_decimal `{UCD} (c : char) : bool :=
  match decimal c with Some _ => true | None => false end.

(** [int(s)] on a string of decimal digits *)
Definition int_of `{UCD} (s : str) : Z :=
  fold_left (fun acc c => 10 * acc + default 0 (decimal c)) s 0.

(** The tables restricted to the Latin blocks (U+0000 to U+024F and U+1E00
    to U+1EFF), which hold the Vietnamese alphabet: [(lo, hi, step)] stands
    for the code points [lo, lo + step, ..., hi]. *)
Definition latin_upper : list (N * N * N) :=
  [(65, 90, 1); (192, 214, 1); (216, 222, 1); (256, 310, 2); (313, 327, 2);
   (330, 376, 2); (377, 381, 2); (385, 386, 1); (388, 390, 2); (391, 393, 2);
   (394, 395, 1); (398, 401, 1); (403, 404, 1); (406, 408, 1); (412, 413, 1);
   (415, 416, 1); (418, 422, 2); (423, 425, 2); (428, 430, 2); (431, 433, 2);
   (434, 435, 1); (437, 439, 2); (440, 440, 1); (444, 444, 1); (452, 452, 1);
   (455, 455, 1); (458, 458, 1); (461, 475, 2); (478, 494, 2); (497, 497, 1);
   (500, 502, 2); (503, 504, 1); (506, 562, 2); (570, 571, 1); (573, 574, 1);
   (577, 579, 2); (580, 582, 1); (584, 590, 2); (7680, 7828, 2);
   (7838, 7934, 2)]%N.

Definition in_progression (c : char) (t : N * N * N) : bool :=
  let '(lo, hi, st) := t in
  ((lo <=? c) && (c <=? hi) && ((c - lo) mod st =? 0))%N.

Definition latin_ucd : UCD := {|
  decimal c := if ((48 <=? c) && (c <=? 57))%N then Some (Z.of_N c - 48) else None;
  isupper c := existsb (in_progression c) latin_upper;
  isdigit c := ((48 <=? c) && (c <=? 57) || (178 <=? c) && (c <=? 179) || (c =? 185))%N
|}.

(* ================================================================== *)
(** * chapter_split.py *)
(* ================================================================== *)

Module chapter_split.

Record Chapter := MkChapter { number : Z; title : str; text : str }.

Section WithUCD.
Context `{UCD}.

(** [r'^\s*chương\s+(\d{1,5})\s*(?:[:：.\-–—]\s*(.+?))?\s*$'] *)
Definition CHAPTER_PATTERN : regex :=
  cat_all
    [ Bol; Rep true ws 0 None; word (u8 "chương"); Rep true ws 1 None;
      Grp 1 (Rep true is_decimal 1 (Some 5%nat)); Rep true ws 0 None;
      Opt (cat_all [ Class (one_of (u8 ":：.-–—")); Rep true ws 0 None;
                     Grp 2 (Rep false dot 1 None) ]);
      Rep true ws 0 None; Eol ].

(** [re.IGNORECASE | re.MULTILINE] *)
Definition CHAPTER_FLAGS : flags := Flags true true.

(** One turn of the loop over [enumerate(matches)]: [rest] holds
    [matches[i+1:]]. *)
Definition chapter_at (text : str) (m : Match) (rest : list Match) : Chapter :=
  let chapter_num := int_of (default [] (group m 1)) in
  let chapter_title :=
    strip (match group m 2 with
           | Some (c :: t) => c :: t
           | _ => u8 "Chương " ++ str_of_Z chapter_num
           end) in
  let start_pos := m_end m in
  let end_pos :=
    match rest with
    | next :: _ => m_start next
    | [] => length text
    end in
  MkChapter chapter_num chapter_title (strip (slice start_pos end_pos text)).

Fixpoint chapters_from (text : str) (matches : list Match) : list Chapter :=
  match matches with
  | [] => []
  | m :: rest => chapter_at text m rest :: chapters_from text rest
  end.

Definition split_into_chapters (text : str) : list Chapter :=
  let matches := finditer CHAPTER_FLAGS CHAPTER_PATTERN text in
  match matches with
  | [] => [ MkChapter 1 (u8 "Toàn bộ nội dung") (strip text) ]
  | first_match :: _ =>
      let chapters := chapters_from text matches in
      let prologue_text := strip (slice 0 (m_start first_match) text) in
      if negb (is_empty prologue_text) && (len prologue_text >? 100)
      then MkChapter 0 (u8 "Mở đầu") prologue_text :: chapters
      else chapters
  end.
End WithUCD.

(** The loop over the chapters that looks for very short ones. *)
Definition check_short (warnings : list str) (chapter : Chapter) : list str :=
  if len (text chapter) <? 100
  then warnings ++ [ u8 "Chapter " ++ str_of_Z (number chapter)
                     ++ u8 " is very short (" ++ str_of_Z (len (text chapter))
                     ++ u8 " chars)" ]
  else warnings.

Definition validate_chapters (chapters : list Chapter) : list str :=
  match chapters with
  | [] => [ u8 "No chapters found" ]
  | _ :: _ =>
      let numbers := filter (fun n => 0 < n) (map number chapters) in
      let warnings :=
        match numbers with
        | [] => []
        | n :: ns =>
            let expected : gset Z := list_to_set (range (min_of n ns) (max_of n ns + 1)) in
            let actual : gset Z := list_to_set numbers in
            let missing := expected ∖ actual in
            if bool_decide (missing = ∅) then []
            else [ u8 "Missing chapter numbers: "
                   ++ str_of_list (merge_sort Z.le (elements missing)) ]
        end in
      fold_left check_short chapters warnings
  end.

End chapter_split.

(* ================================================================== *)
(** * chunking.py *)
(* ================================================================== *)

Module chunking.
Import chapter_split.

Record Chunk := MkChunk {
  chapter_number : Z;
  chapter_title : str;
  part_number : Z;
  total_parts : Z;
  text : str;
  chunk_id : str
}.

Inductive exn := ValueError (msg : str).

Inductive result (A : Type) :=
| Ok (a : A)
| Raise (e : exn).
Arguments Ok {A} a.
Arguments Raise {A} e.

(** The paragraph separator ["\n\n"]. *)
Definition NLNL : str := [LF; LF].

(** [r'(?<=[.!?…。！？])\s+'] *)
Definition SENTENCE_BREAK : regex :=
  Cat (Behind (one_of (u8 ".!?…。！？"))) (Rep true ws 1 None).

Definition split_by_sentences (text : str) : list str :=
  let sentences := re_split no_flags SENTENCE_BREAK text in
  map strip (filter (fun s => is_empty (strip s) = false) sentences).

(** The three variables the loops of [split_by_paragraphs] update. *)
Record packer := Packer {
  chunks : list str;
  current_chunk : list str;
  current_length : Z
}.

(** [chunks.append('\n\n'.join(current_chunk)); current_chunk = [];
    current_length = 0] *)
Definition flush (st : packer) : packer :=
  Packer (chunks st ++ [join NLNL (current_chunk st)]) [] 0.

Definition nonempty {A} (l : list A) : bool :=
  match l with [] => false | _ => true end.

(** [current_chunk.append(piece); current_length += len(piece) + 2] *)
Definition push (st : packer) (piece : str) : packer :=
  Packer (chunks st) (current_chunk st ++ [piece])
         (current_length st + len piece + 2).

(** Body of the loop over the sentences of a long paragraph. *)
Definition add_sentence (max_chars : Z) (st : packer) (sentence : str) : packer :=
  let sent_len := len sentence in
  let st :=
    if (current_length st + sent_len + 1 >? max_chars) && nonempty (current_chunk st)
    then flush st else st in
  push st sentence.

(** Body of the loop over the paragraphs. *)
Definition add_paragraph (max_chars : Z) (st : packer) (para : str) : packer :=
  let para := strip para in
  if is_empty para then st
  else
    let para_len := len para in
    if para_len >? max_chars then
      let st := if nonempty (current_chunk st) then flush st else st in
      fold_left (add_sentence max_chars) (split_by_sentences para) st
    else
      let st :=
        if (current_length st + para_len + 2 >? max_chars) && nonempty (current_chunk st)
        then flush st else st in
      push st para.

Definition split_by_paragraphs (text : str) (max_chars : Z) : list str :=
  let paragraphs := split NLNL text in
  let st := fold_left (add_paragraph max_chars) paragraphs (Packer [] [] 0) in
  if nonempty (current_chunk st)
  then chunks st ++ [join NLNL (current_chunk st)]
  else chunks st.

(** [f"chap_{number:04d}_part_{i:03d}"] *)
Definition make_chunk_id (number i : Z) : str :=
  u8 "chap_" ++ format_0d 4 number ++ u8 "_part_" ++ format_0d 3 i.

(** [enumerate(text_parts, start=i)] turned into chunks. *)
Fixpoint number_parts (chapter : Chapter) (total_parts : Z) (i : Z)
    (text_parts : list str) : list Chunk :=
  match text_parts with
  | [] => []
  | part_text :: tl =>
      MkChunk (number chapter) (title chapter) i total_parts part_text
              (make_chunk_id (number chapter) i)
      :: number_parts chapter total_parts (i + 1) tl
  end.

(** Body of the loop over the chapters: the chunks appended to
    [all_chunks]. *)
Definition chunks_of_chapter (max_chars : Z) (chapter : Chapter) : list Chunk :=
  let chapter_text := strip (chapter_split.text chapter) in
  if len chapter_text <=? max_chars then
    [ MkChunk (number chapter) (title chapter) 1 1 chapter_text
              (make_chunk_id (number chapter) 1) ]
  else
    let text_parts := split_by_paragraphs chapter_text max_chars in
    number_parts chapter (Z.of_nat (length text_parts)) 1 text_parts.

Definition create_chunks (chapters : list Chapter) (max_chars : Z)
    : result (list Chunk) :=
  if max_chars <=? 0 then
    Raise (ValueError (u8 "max_chars must be positive, got " ++ str_of_Z max_chars))
  else
    Ok (fold_left (fun all_chunks chapter =>
                     all_chunks ++ chunks_of_chapter max_chars chapter)
                  chapters []).

(** [f"Chương {n}: {title}"], with [f" — Phần {p}/{t}"] after it for a
    chapter in more than one part. *)
Definition get_chunk_context (chunk : Chunk) : str :=
  if total_parts chunk =? 1
  then u8 "Chương " ++ str_of_Z (chapter_number chunk) ++ u8 ": " ++ chapter_title chunk
  else u8 "Chương " ++ str_of_Z (chapter_number chunk) ++ u8 ": " ++ chapter_title chunk
       ++ u8 " — Phần " ++ str_of_Z (part_number chunk) ++ u8 "/"
       ++ str_of_Z (total_parts chunk).

End chunking.

(* ================================================================== *)
(** * preprocess.py *)
(* ================================================================== *)

Module preprocess.

(** [set('.!?…:;"\'"」』】）)]\u201d\u201c')] *)
Definition SENTENCE_ENDINGS : gset N :=
  list_to_set (u8 ".!?…:;" ++ [34; 39; 34]%N ++ u8 "」』】）)]" ++ [8221; 8220]%N).

(** [set('•·●○◆◇■□▪▫–—-')] *)
Definition LINE_START_BLOCK : gset N :=
  list_to_set (u8 "•·●○◆◇■□▪▫–—-").

Definition normalize_newlines (text : str) : str :=
  replace [CR] [LF] (replace [CR; LF] [LF] text).

(** Floats.  A Python float is an IEEE 754 double: a [spec_float] with
    53 bits of precision, rounded to the nearest, ties to even.
    [float_of_Z] is [float(n)], as [*] makes of an [int] operand.  A
    threshold is given by a fraction, and is the float that the quotient
    of the two parts is, as [0.3] is [3 / 10].  [float_mul] is [*], and
    [int_of_float] is [int(x)]: it cuts off towards zero, and raises for
    an infinity and for a nan. *)
Definition float : Set := SpecFloat.spec_float.

Definition float_of_Z (z : Z) : float := SpecFloat.binary_normalize 53 1024 z 0 false.

Definition float_of_Q (q : Q) : float :=
  SpecFloat.SFdiv 53 1024 (float_of_Z (Qnum q)) (float_of_Z (Z.pos (Qden q))).

Definition float_mul (x y : float) : float := SpecFloat.SFmul 53 1024 x y.

Definition int_of_float (x : float) : option Z :=
  match x with
  | SpecFloat.S754_zero _ => Some 0
  | SpecFloat.S754_finite s m e =>
      let magnitude := if 0 <=? e then Z.pos m * 2 ^ e else Z.pos m / 2 ^ (- e) in
      Some (if s then - magnitude else magnitude)
  | _ => None
  end.

Section WithUCD.
Context `{UCD}.

Definition star (p : char -> bool) : regex := Rep true p 0 None.
Definition plus (p : char -> bool) : regex := Rep true p 1 None.

Definition DASHES : char -> bool := one_of (u8 "-—–").

(** [r'^\s*\d+\s*$'], [r'^\s*[-—–]\s*\d+\s*[-—–]\s*$'] and
    [r'^\s*(Page|Trang|p\.?)\s*\d+\s*$'] *)
Definition PAGE_NUMBER_PATTERNS : list regex :=
  [ cat_all [ Bol; star ws; plus is_decimal; star ws; Eol ];
    cat_all [ Bol; star ws; Class DASHES; star ws; plus is_decimal; star ws;
              Class DASHES; star ws; Eol ];
    cat_all [ Bol; star ws;
              Grp 1 (Alt (word (u8 "Page"))
                    (Alt (word (u8 "Trang"))
                         (Cat (Lit 112%N) (Opt (Lit 46%N)))));
              star ws; plus is_decimal; star ws; Eol ] ].

Definition IGNORECASE : flags := Flags true false.

Definition is_page_number_line (line : str) : bool :=
  let stripped := strip line in
  existsb (fun pattern => bool_decide (is_Some (re_match IGNORECASE pattern stripped)))
          PAGE_NUMBER_PATTERNS.

(** [r'^\s*chương\s+\d{1,5}\s*(?:[:：.\-–—]|$)'] *)
Definition HEADING_PATTERN : regex :=
  cat_all [ Bol; star ws; word (u8 "chương"); plus ws;
            Rep true is_decimal 1 (Some 5%nat); star ws;
            Alt (Class (one_of (u8 ":：.-–—"))) Eol ].

Definition is_chapter_heading (line : str) : bool :=
  let stripped := strip line in
  bool_decide (is_Some (re_match IGNORECASE HEADING_PATTERN stripped)).

Definition should_join_lines (current_line next_line : str) : bool :=
  let current := rstrip current_line in
  let next_stripped := strip next_line in
  if is_empty current || is_empty next_stripped then false
  else if is_chapter_heading current || is_chapter_heading next_stripped then false
  else
    match last current, head next_stripped with
    | Some last_char, Some first_char =>
        if bool_decide (last_char ∈ SENTENCE_ENDINGS) then false
        else if bool_decide (first_char ∈ LINE_START_BLOCK) then false
        else if isupper first_char && negb (isdigit first_char) then false
        else true
    | _, _ => false
    end.

(** [random.sample(population, k)] as drawn in this run. *)
Variable random_sample : list nat -> nat -> list nat.

(** The pages looked at when there are more than 200 of them.  The
    indices are in range whenever the sample is drawn from the
    population it is given. *)
Definition sample_pages (page_texts : list str) : list str :=
  let total_pages := length page_texts in
  let sample_indices := (seq 0 50 ++ seq (total_pages - 50) 50)%nat in
  let middle_range := seq 50 (total_pages - 50 - 50) in
  let sample_indices :=
    if (100 <? length middle_range)%nat
    then sample_indices ++ random_sample middle_range 100
    else sample_indices ++ middle_range in
  let sample_indices :=
    merge_sort Nat.le (elements (list_to_set sample_indices : gset nat)) in
  map (fun i => default [] (page_texts !! i)) sample_indices.

(** The inner loop: the lines of one page, each counted once. *)
Definition count_line (st : gmap str Z * gset str) (line : str)
    : gmap str Z * gset str :=
  let '(line_counts, seen_on_page) := st in
  let stripped := strip line in
  if (3 <=? len stripped) && (len stripped <=? 40) then
    if bool_decide (stripped ∈ seen_on_page) then st
    else (<[stripped := default 0 (line_counts !! stripped) + 1]> line_counts,
          {[stripped]} ∪ seen_on_page)
  else st.

Definition count_page (line_counts : gmap str Z) (page_text : str) : gmap str Z :=
  fst (fold_left count_line (split [LF] page_text) (line_counts, ∅)).

(** Where [int] raises, for a product that is no number, as with a
    threshold beyond the range of the floats, no set is returned; the
    empty one stands for that.  With the default threshold [int] does not
    raise. *)
Definition find_repeating_headers_footers (page_texts : list str) (threshold : Q)
    : gset str :=
  let total_pages := length page_texts in
  if (total_pages <? 3)%nat then ∅
  else
    let sampled_pages :=
      if (200 <? total_pages)%nat then sample_pages page_texts else page_texts in
    let effective_total := length sampled_pages in
    let line_counts := fold_left count_page sampled_pages ∅ in
    let min_count :=
      int_of_float (float_mul (float_of_Z (Z.of_nat effective_total))
                              (float_of_Q threshold)) in
    match min_count with
    | Some min_count => dom (filter (fun kv => min_count <= kv.2) line_counts)
    | None => ∅
    end.

(** [r'(Chương|CHƯƠNG|chương)\s+(\d{1,5})\s*[:：\-–]\s*(.+?)(?=\n|$)'] *)
Definition TITLE_PATTERN : regex :=
  cat_all [ Grp 1 (Alt (word (u8 "Chương")) (Alt (word (u8 "CHƯƠNG")) (word (u8 "chương"))));
            plus ws; Grp 2 (Rep true is_decimal 1 (Some 5%nat)); star ws;
            Class (one_of (u8 ":：-–")); star ws;
            Grp 3 (Rep false dot 1 None);
            Ahead (Alt (Lit LF) Eol) ].

Definition MULTILINE : flags := Flags false true.

Definition normalize_heading (m : Match) : str :=
  let chap_word := default [] (group m 1) in
  let number := default [] (group m 2) in
  let title := strip (default [] (group m 3)) in
  chap_word ++ [SP] ++ number ++ u8 ": " ++ title.

Definition normalize_chapter_title (text : str) : str :=
  re_sub MULTILINE TITLE_PATTERN normalize_heading text.

(** What the loop of [preprocess_text] does with the blank line at hand:
    one empty entry, unless the last entry kept is blank already. *)
Definition keep_blank (processed_lines : list str) : list str :=
  match last processed_lines with
  | Some l => if is_empty (strip l) then processed_lines else processed_lines ++ [[]]
  | None => processed_lines
  end.

(** The [while] loop of [preprocess_text]: [line] is [lines[i]] (which the
    loop may have overwritten with a joined line) and [rest] is
    [lines[i+1:]]. *)
Fixpoint process_lines (repeating_lines : gset str) (line : str)
    (rest : list str) (processed_lines : list str) : list str :=
  let stripped := strip line in
  let continue processed :=
    match rest with
    | [] => processed
    | next_line :: rest' => process_lines repeating_lines next_line rest' processed
    end in
  if is_page_number_line stripped then continue processed_lines
  else if bool_decide (stripped ∈ repeating_lines) then continue processed_lines
  else if is_empty stripped then continue (keep_blank processed_lines)
  else
    match rest with
    | next_line :: rest' =>
        if should_join_lines line next_line
           && negb (is_page_number_line (strip next_line))
        then process_lines repeating_lines
               (stripped ++ [SP] ++ strip next_line) rest' processed_lines
        else process_lines repeating_lines next_line rest' (processed_lines ++ [stripped])
    | [] => processed_lines ++ [stripped]
    end.

Definition preprocess_text (text : str) (page_texts : option (list str)) : str :=
  let text := normalize_newlines text in
  let repeating_lines :=
    match page_texts with
    | Some (p :: ps) => find_repeating_headers_footers (p :: ps) (3 # 10)
    | _ => ∅
    end in
  let processed_lines :=
    match split [LF] text with
    | line :: rest => process_lines repeating_lines line rest []
    | [] => []
    end in
  let result := join [LF] processed_lines in
  let result := normalize_chapter_title result in
  let result := re_sub no_flags (Rep true (N.eqb LF) 3 None) (fun _ => [LF; LF]) result in
  strip result.
End WithUCD.

End preprocess.

(* ================================================================== *)
(** * utils.py *)
(* ================================================================== *)

Module utils.

(** The characters that [safe_filename] replaces: [<], [>], [:], the
    double quote, [/], the backslash, [|], [?] and [*]. *)
Definition UNSAFE_CHARS : str := u8 "<>:" ++ [34%N] ++ u8 "/\|?*".

Definition safe_filename (name : str) (max_length : Z) : str :=
  let name :=
    fold_left (fun name char => replace [char] (u8 "_") name) UNSAFE_CHARS name in
  let name := if len name >? max_length then prefix max_length name else name in
  strip name.

End utils.

(* ================================================================== *)
(** * pdf_extract.py *)
(* ================================================================== *)

Module pdf_extract.

Inductive exn := PDFExtractionError | ScanBasedPDFError.

(** What [pypdf] makes of one page: [extract_text()] returns a string
    or [None], or something raises. *)
Inductive page := Extracted (text : option str) | Broken.

(** The file at [pdf_path]: not there, not readable as a PDF, or a
    document with its pages. *)
Inductive pdf := Missing | Unreadable | Document (pages : list page).

(** One turn of the loop over the page numbers: [page_texts] and
    [empty_pages] after it. *)
Definition extract_page (pages : list page) (st : list str * Z) (page_num : Z)
    : list str * Z :=
  let '(page_texts, empty_pages) := st in
  match pages !! Z.to_nat page_num with
  | Some (Extracted t) =>
      let text := strip (default [] t) in
      (page_texts ++ [text],
       if len text <? 10 then empty_pages + 1 else empty_pages)
  | _ => (page_texts ++ [[]], empty_pages + 1)
  end.

Definition extract_text_from_pdf (file : pdf) (start_page end_page : Z)
    : exn + (str * list str) :=
  match file with
  | Missing | Unreadable => inl PDFExtractionError
  | Document pages =>
      let total_pages := Z.of_nat (length pages) in
      let start_page := if start_page <? 1 then 1 else start_page in
      let end_page :=
        if (end_page <=? 0) || (end_page >? total_pages) then total_pages
        else end_page in
      if start_page >? end_page then inl PDFExtractionError
      else
        let '(page_texts, empty_pages) :=
          fold_left (extract_page pages) (range (start_page - 1) end_page) ([], 0) in
        let total_extracted := Z.of_nat (length page_texts) in
        let empty_ratio :=
          if total_extracted >? 0
          then (inject_Z empty_pages / inject_Z total_extracted)%Q
          else 1%Q in
        if negb (Qle_bool empty_ratio (1 # 2)) then inl ScanBasedPDFError
        else inr (join [LF; LF] page_texts, page_texts)
  end.

End pdf_extract.

(* ================================================================== *)
(** * prompts.py *)
(* ================================================================== *)

Module prompts.
Import chunking.

Definition build_user_prompt (chunk : Chunk) (style_content glossary_content : str)
    : str :=
  let context := get_chunk_context chunk in
  let parts := [ u8 "## " ++ context ++ [LF] ] in
  let parts :=
    if nonempty style_content
    then parts ++ [ u8 "### STYLE GUIDE:"; u8 "```yaml"; strip style_content;
                    u8 "```" ++ [LF] ]
    else parts in
  let parts :=
    if nonempty glossary_content && negb (bool_decide (glossary_content = u8 "{}"))
    then parts ++ [ u8 "### GLOSSARY:"; u8 "```json"; strip glossary_content;
                    u8 "```" ++ [LF] ]
    else parts in
  let parts := parts ++ [ u8 "### TEXT TO EDIT:"; text chunk ] in
  join [LF] parts.

End prompts.

(* ================================================================== *)
(** * checkpoint.py *)
(* ================================================================== *)

Module checkpoint.

Record CheckpointData := MkCheckpointData {
  input_file : str;
  input_hash : str;
  input_size : Z;
  mode : str;
  model : str;
  max_chars : Z;
  provider : str;
  created_at : str;
  updated_at : str;
  chunks_done : list str;
  total_chunks : Z
}.

(** What is on disk.  The checkpoint file is there or not; if it is
    there, [json.load] and [from_dict] make a [CheckpointData] of it, as
    [_save] wrote it, or raise.  The directory of the chunk outputs holds
    files, by name, with what was written into them.  (Directories are
    taken to exist once asked for, and writing a file to succeed.) *)
Inductive checkpoint_file := Unreadable | Saved (data : CheckpointData).

Record disk := Disk {
  checkpoint_json : option checkpoint_file;
  chunk_files : gmap str str
}.

(** The fields of a [CheckpointManager] that change. *)
Record CheckpointManager := Manager {
  _data : option CheckpointData;
  _chunks_done : gset str;
  _dirs_ensured : bool
}.

(** [__init__] *)
Definition init : CheckpointManager := Manager None ∅ false.

(** [self.chunks_dir / f"{chunk_id}.md"] *)
Definition chunk_file (chunk_id : str) : str := chunk_id ++ u8 ".md".

Definition _save (self : CheckpointManager) (d : disk) : disk :=
  match _data self with
  | Some data => Disk (Some (Saved data)) (chunk_files d)
  | None => d
  end.

(** [initialize]: [hash] and [size] are what [calculate_file_hash] and
    [get_file_size] give for the input file, [now] is
    [datetime.now().isoformat()]. *)
Definition initialize (self : CheckpointManager) (d : disk)
    (file hash : str) (size : Z) (mode0 model0 : str) (max_chars0 : Z)
    (provider0 : str) (total : Z) (now : str)
    : bool * CheckpointManager * disk :=
  let resumed :=
    match checkpoint_json d with
    | Some (Saved existing) =>
        if bool_decide (input_hash existing = hash)
           && bool_decide (mode existing = mode0)
           && bool_decide (model existing = model0)
           && bool_decide (max_chars existing = max_chars0)
           && bool_decide (provider existing = provider0)
        then Some (Manager (Some existing) (list_to_set (chunks_done existing))
                           (_dirs_ensured self))
        else None
    | _ => None
    end in
  match resumed with
  | Some self => (true, self, d)
  | None =>
      let data :=
        MkCheckpointData file hash size mode0 model0 max_chars0 provider0
                         now now [] total in
      let self := Manager (Some data) ∅ (_dirs_ensured self) in
      (false, self, _save self d)
  end.

Definition is_chunk_done (self : CheckpointManager) (d : disk) (chunk_id : str)
    : bool :=
  bool_decide (chunk_id ∈ _chunks_done self)
  && bool_decide (is_Some (chunk_files d !! chunk_file chunk_id)).

Definition mark_chunk_done (os : platform) (self : CheckpointManager) (d : disk)
    (chunk_id output_text now : str) : CheckpointManager * disk :=
  let d := Disk (checkpoint_json d)
                (<[chunk_file chunk_id := write_text os output_text]> (chunk_files d)) in
  let done := {[chunk_id]} ∪ _chunks_done self in
  let data :=
    match _data self with
    | Some data =>
        Some (MkCheckpointData (input_file data) (input_hash data) (input_size data)
                (mode data) (model data) (max_chars data) (provider data)
                (created_at data) now (elements done) (total_chunks data))
    | None => None
    end in
  let self := Manager data done true in
  (self, _save self d).

Definition get_chunk_output (d : disk) (chunk_id : str) : option str :=
  match chunk_files d !! chunk_file chunk_id with
  | Some content => Some (read_text content)
  | None => None
  end.

Definition get_progress (self : CheckpointManager) : Z * Z :=
  match _data self with
  | Some data => (Z.of_nat (size (_chunks_done self)), total_chunks data)
  | None => (0, 0)
  end.

End checkpoint.

(* ================================================================== *)
(** * exporters.py *)
(* ================================================================== *)

Module exporters.
Import chunking.

(** [chunks_dir] is the directory of the chunk outputs: its files, by
    name. *)
Definition collect_chunk_outputs (chunks : list Chunk) (chunks_dir : gmap str str)
    : gmap str str :=
  fold_left
    (fun outputs chunk =>
       match chunks_dir !! (chunk_id chunk ++ u8 ".md") with
       | Some content => <[chunk_id chunk := read_text content]> outputs
       | None => <[chunk_id chunk := text chunk]> outputs
       end)
    chunks ∅.

End exporters.

(* ================================================================== *)
(** * main.py: the loop over the chunks *)
(* ================================================================== *)

Module main.
Import chunking checkpoint prompts.

Section ProcessChunks.

(** [client.generate(user_prompt)]: the answer, or nothing when it
    raises [GeminiClientError]; what the service answers may depend on
    the requests it has had before.  [now i] is the time when chunk [i]
    is marked, [os] the platform of the run. *)
Variable os : platform.
Variable generate : list str -> str -> option str.
Variable now : nat -> str.
Variables style_content glossary_content : str.

(** The state of the loop: the checkpoint manager and the disk, the
    prompts sent to the service so far, and [processed_count]. *)
Record run := Run {
  manager : CheckpointManager;
  files : disk;
  requests : list str;
  processed_count : Z
}.

(** One turn of the loop for [chunks[i]]; nothing when the run ends with
    [sys.exit(2)]. *)
Definition process_chunk (st : run) (i : nat) (chunk : Chunk) : option run :=
  if is_chunk_done (manager st) (files st) (chunk_id chunk)
  then Some (Run (manager st) (files st) (requests st) (processed_count st + 1))
  else
    let user_prompt := build_user_prompt chunk style_content glossary_content in
    match generate (requests st) user_prompt with
    | Some output_text =>
        let '(self, d) :=
          mark_chunk_done os (manager st) (files st) (chunk_id chunk) output_text
                          (now i) in
        Some (Run self d (requests st ++ [user_prompt]) (processed_count st + 1))
    | None => None
    end.

Fixpoint process_chunks (st : run) (i : nat) (chunks : list Chunk) : option run :=
  match chunks with
  | [] => Some st
  | chunk :: rest =>
      match process_chunk st i chunk with
      | Some st => process_chunks st (S i) rest
      | None => None
      end
  end.

End ProcessChunks.

End main.

(* ================================================================== *)
(** * Vocabulary of the statements *)
(* ================================================================== *)

(** A string with something in it and no white space at either end. *)
Definition trimmed (s : str) : Prop :=
  (exists c s', s = c :: s' /\ is_space c = false) /\
  (exists c s', rev s = c :: s' /\ is_space c = false).

(** [c] is one whole sentence of one paragraph of [text], as
    [split_by_sentences] delimits it. *)
Definition sentence_of (text c : str) : Prop :=
  exists para,
    para ∈ split chunking.NLNL text /\
    c ∈ chunking.split_by_sentences (strip para).

(** The size bound on a part of [text]: within [max_chars], or else one
    sentence on its own. *)
Definition fits (max_chars : Z) (text c : str) : Prop :=
  len c <= max_chars \/ (max_chars < len c /\ sentence_of text c).

(** What the loops of [split_by_paragraphs] keep true of their variables
    as far as sizes go: [current_length] is the length of the part being
    built plus 2. *)
Definition packer_sized (max_chars : Z) (text : str) (st : chunking.packer) : Prop :=
  Forall (fits max_chars text) (chunking.chunks st) /\
  match chunking.current_chunk st with
  | [] => chunking.current_length st = 0
  | _ :: _ =>
      chunking.current_length st
        = len (join chunking.NLNL (chunking.current_chunk st)) + 2 /\
      fits max_chars text (join chunking.NLNL (chunking.current_chunk st))
  end.

(** A piece that the packer appends: a paragraph of [text], stripped and
    not empty, or a sentence of such a paragraph. *)
Definition piece_of (text p : str) : Prop :=
  trimmed p /\
  ((exists para, para ∈ split chunking.NLNL text /\ p = strip para) \/
   sentence_of text p).

(** One or more pieces joined by blank lines. *)
Definition joined_pieces (text c : str) : Prop :=
  exists ps, ps <> [] /\ Forall (piece_of text) ps /\ c = join chunking.NLNL ps.

(** ... and as far as the make-up of the parts goes. *)
Definition packer_pieces (text : str) (st : chunking.packer) : Prop :=
  Forall (joined_pieces text) (chunking.chunks st) /\
  Forall (piece_of text) (chunking.current_chunk st).

(** White space throughout. *)
Definition blank (s : str) : Prop := Forall (fun c => is_space c = true) s.


(** The heading matches that the Chapter Segmenter finds in [text]. *)
Definition heading_matches `{UCD} (text : str) : list Match :=
  finditer chapter_split.CHAPTER_FLAGS chapter_split.CHAPTER_PATTERN text.

(** The span of [text] before the match [m], trimmed. *)
Definition span_before (text : str) (m : Match) : str :=
  strip (slice 0 (m_start m) text).

(** The lines of a page that the Boilerplate Detector looks at: trimmed,
    and 3 to 40 characters long. *)
Definition candidate_lines (page_text : str) : list str :=
  filter (fun l => 3 <= len l <= 40) (map strip (split [LF] page_text)).

(** The page count of a line: on how many of the pages it is found. *)
Definition page_count (line : str) (pages : list str) : Z :=
  Z.of_nat (length (filter (fun page => line ∈ candidate_lines page) pages)).

(** The count of a line in the [Counter], 0 when it is not a key. *)
Definition counted (line_counts : gmap str Z) (line : str) : Z :=
  default 0 (line_counts !! line).

(** What [random.sample(population, k)] can return: [k] different elements
    of the population. *)
Definition valid_draw (population : list nat) (k : nat) (sample : list nat) : Prop :=
  length sample = k /\ NoDup sample /\ forall i, i ∈ sample -> i ∈ population.

(** The three spellings of the word and the four separators that
    [normalize_chapter_title] knows. *)
Definition TITLE_WORDS : list str := [u8 "Chương"; u8 "CHƯƠNG"; u8 "chương"].
Definition TITLE_SEPARATORS : str := u8 ":：-–".

(** A heading line: the word, white space, the number, white space, the
    separator, and what follows it. *)
Definition heading_line (w ws1 n ws2 : str) (sep : char) (after_sep : str) : str :=
  w ++ ws1 ++ n ++ ws2 ++ sep :: after_sep.

(** The text from [pos] to [stop] with the matches [ms], which lie in
    it, replaced: what [re.sub] makes of that stretch. *)
Fixpoint subst_upto (repl : Match -> str) (pos : nat) (ms : list Match)
    (stop : nat) (text : str) : str :=
  match ms with
  | [] => slice pos stop text
  | m :: ms' =>
      slice pos (m_start m) text ++ repl m ++ subst_upto repl (m_end m) ms' stop text
  end.

(** What a pattern can match, apart from the order in which the matcher
    tries things: [reaches fl r s s'] says that [r] can take the matcher
    from the position [s] to the position [s']. *)
Definition hi_ok (hi : option nat) (n : nat) : Prop :=
  match hi with Some h => (n <= h)%nat | None => True end.

Fixpoint reaches (fl : flags) (r : regex) (s s' : mstate) : Prop :=
  match r with
  | Eps => s' = s
  | Lit c =>
      exists x tl, rest s = x :: tl /\ lit_ok fl c x = true /\ s' = step s x tl
  | Class p =>
      exists x tl, rest s = x :: tl /\ p x = true /\ s' = step s x tl
  | Cat r1 r2 => exists s1, reaches fl r1 s s1 /\ reaches fl r2 s1 s'
  | Alt r1 r2 => reaches fl r1 s s' \/ reaches fl r2 s s'
  | Rep _ p lo hi =>
      exists x tl,
        rest s = x ++ tl /\
        Forall (fun c => p c = true) x /\ (lo <= length x)%nat /\
        hi_ok hi (length x) /\
        s' = MState (rev x ++ seen s) tl (groups s)
  | Opt r1 => reaches fl r1 s s' \/ s' = s
  | Grp i r1 =>
      exists s1,
        reaches fl r1 s s1 /\
        s' = MState (seen s1) (rest s1)
               (<[i := take (length (seen s1) - length (seen s)) (rest s)]> (groups s1))
  | Bol => at_bol fl s = true /\ s' = s
  | Eol => at_eol fl s = true /\ s' = s
  | Ahead r1 => (exists s1, reaches fl r1 s s1) /\ s' = s
  | Behind p => (exists c sn, seen s = c :: sn /\ p c = true) /\ s' = s
  end.

(** [s'] lies [x] further on in the subject than [s]. *)
Definition ahead_by (x : str) (s s' : mstate) : Prop :=
  seen s' = rev x ++ seen s /\ rest s = x ++ rest s'.

(** [x] is the word [w] letter by letter when case is ignored. *)
Definition same_letters (w x : str) : Prop :=
  Forall2 (fun c y => y = c \/ y = other_case c) w x.

(** Decimal digits throughout. *)
Definition decimals `{UCD} (n : str) : Prop :=
  Forall (fun c => is_decimal c = true) n.

(** A line that looks like a chapter heading to the Line Reflow Engine:
    without the white space around it, it is the word "chương" in any
    letter case, white space, one to five decimal digits and then, after
    optional white space, either nothing or one of the separators
    [: ： . - – —] followed by anything. *)
Definition heading_like `{UCD} (line : str) : Prop :=
  exists w ws1 n ws2 tail,
    strip line = w ++ ws1 ++ n ++ ws2 ++ tail /\
    same_letters (u8 "chương") w /\
    blank ws1 /\ ws1 <> [] /\
    decimals n /\ (1 <= length n <= 5)%nat /\
    blank ws2 /\
    (tail = [] \/ exists c t, tail = c :: t /\ c ∈ u8 ":：.-–—").



(** What the loop of [preprocess_text] keeps true of [processed_lines]:
    each line kept is empty, or else trimmed, not a page-number line and
    not a repeating line; the first is not empty; no two empty ones follow
    one another. *)
Definition kept_lines `{UCD} (repeating_lines : gset str) (l : list str) : Prop :=
  Forall (fun e => e = [] \/
                   (trimmed e /\ preprocess.is_page_number_line e = false /\
                    e ∉ repeating_lines)) l /\
  (forall b, l <> [] :: b) /\
  (forall a b, l <> a ++ [[]; []] ++ b).

(** Matches that follow one another from [pos] on without overlap and end
    by [stop]. *)
Fixpoint in_order (pos stop : nat) (ms : list Match) : Prop :=
  match ms with
  | [] => True
  | m :: ms' =>
      (pos <= m_start m <= m_end m)%nat /\ (m_end m <= stop)%nat /\
      in_order (m_end m) stop ms'
  end.

(** The heading and the body that go with each match: the body runs from
    the end of the match to the start of the next one, or to the end of
    the text. *)
Fixpoint spans (text : str) (matches : list Match) : list (str * str) :=
  match matches with
  | [] => []
  | m :: rest =>
      (slice (m_start m) (m_end m) text,
       slice (m_end m)
             (match rest with next :: _ => m_start next | [] => length text end)
             text)
      :: spans text rest
  end.

(** The pieces that [split_by_paragraphs] packs: each paragraph without
    the white space around it, if that leaves anything; and in place of a
    paragraph longer than [max_chars], its sentences. *)
Definition pieces_of_paragraph (max_chars : Z) (para : str) : list str :=
  let para := strip para in
  if is_empty para then []
  else if len para >? max_chars then chunking.split_by_sentences para
  else [para].

Definition pieces_of_text (max_chars : Z) (text : str) : list str :=
  concat (map (pieces_of_paragraph max_chars) (split chunking.NLNL text)).

(** What the loops of [split_by_paragraphs] keep true of their variables
    as far as the pieces go: the parts finished and the part being built
    hold the pieces seen so far, in order. *)
Definition packed (st : chunking.packer) (pieces : list str) : Prop :=
  exists groups,
    chunking.chunks st = map (join chunking.NLNL) groups /\
    Forall (fun g => g <> []) groups /\
    concat groups ++ chunking.current_chunk st = pieces.

(** The number that a string of ASCII digits writes, and the integer that
    an optional minus sign and ASCII digits write. *)
Definition digits_value (s : str) : Z :=
  fold_left (fun acc c => 10 * acc + (Z.of_N c - 48)) s 0.

Definition parse_int (s : str) : Z :=
  match s with
  | c :: s' => if (c =? 45)%N then - digits_value s' else digits_value s
  | [] => 0
  end.

(** The text that [extract_text_from_pdf] keeps for a page: what
    [pypdf] extracts, stripped; nothing for a page that cannot be read. *)
Definition text_of_page (p : option pdf_extract.page) : str :=
  match p with
  | Some (pdf_extract.Extracted t) => strip (default [] t)
  | _ => []
  end.

(** The numbers of the chapters, in order. *)
Definition chapter_numbers (chapters : list chapter_split.Chapter) : list Z :=
  map chapter_split.number chapters.

(** The chunks that count as done: listed by the manager, with the
    output file on disk. *)
Definition done_ids (self : checkpoint.CheckpointManager) (d : checkpoint.disk)
    : gset str :=
  filter (fun id => is_Some (checkpoint.chunk_files d !! checkpoint.chunk_file id))
         (checkpoint._chunks_done self).

(** The chunks still to be sent to the service: going down the list,
    those whose identifier is neither done nor met before. *)
Fixpoint pending (done : gset str) (chunks : list chunking.Chunk)
    : list chunking.Chunk :=
  match chunks with
  | [] => []
  | chunk :: rest =>
      if bool_decide (chunking.chunk_id chunk ∈ done) then pending done rest
      else chunk :: pending ({[chunking.chunk_id chunk]} ∪ done) rest
  end.

(** Marking chunks as done one after the other: [(chunk_id, output_text,
    now)] each. *)
Definition mark_all (os : platform) (marks : list (str * str * str))
    (st : checkpoint.CheckpointManager * checkpoint.disk)
    : checkpoint.CheckpointManager * checkpoint.disk :=
  fold_left (fun st mark =>
               checkpoint.mark_chunk_done os st.1 st.2 mark.1.1 mark.1.2 mark.2)
            marks st.

(** An identifier as [create_chunks] makes them.  The output files of
    two such identifiers are the same file only if the identifiers are
    the same. *)
Definition is_chunk_id (id : str) : Prop :=
  exists number i : Z, id = chunking.make_chunk_id number i.

(** [re.sub] as one pass over the subject, in step with [scan]: the
    characters outside the matches are copied and each match is replaced. *)
Fixpoint sub_go (fl : flags) (r : regex) (repl : Match -> str) (skip : nat)
    (sn rs : str) : str :=
  match rs with
  | [] =>
      match skip with
      | O => match match_at fl r sn [] with Some m => repl m | None => [] end
      | S _ => []
      end
  | c :: rs' =>
      match skip with
      | S k => sub_go fl r repl k (c :: sn) rs'
      | O =>
          match match_at fl r sn rs with
          | Some m =>
              repl m ++ (if (m_end m =? m_start m)%nat then [c] else [])
                ++ sub_go fl r repl (Nat.pred (m_end m - m_start m)) (c :: sn) rs'
          | None => c :: sub_go fl r repl 0 (c :: sn) rs'
          end
      end
  end.

(* ================================================================== *)
(** * Sample inputs *)
(* ================================================================== *)

(** A chapter with white space around its text, a paragraph of three
    sentences of which one is longer than 12 characters, and two short
    paragraphs. *)
Definition sample_chapter : chapter_split.Chapter :=
  chapter_split.MkChapter 7 (u8 "T") (u8 "  Aaa bbb. Ccc ddd eee fff ggg hhh! Iii.

J.

Kkkkkkkkkkkkkkkkk  ").

(** A text without a chapter heading, one with a heading after 150
    characters of front matter, and the same with 50. *)
Definition sample_plain_text : str :=
  u8 "
Day la noi dung khong co tieu de chuong.
Chỉ là văn bản thuần túy.
".

Definition sample_long_prologue : str :=
  repeat 120%N 150 ++ u8 "
Chương 1: Khởi Đầu
Nội dung chương 1 ở đây.".

Definition sample_short_prologue : str :=
  repeat 120%N 50 ++ u8 "
Chương 1: Khởi Đầu
Nội dung chương 1 ở đây.".

(** Four pages with a running head; one line is found on the first page
    only. *)
Definition small_pages : list str :=
  [ u8 "HEAD
only once
text a"; u8 "HEAD
text b"; u8 "HEAD
text c"; u8 "HEAD
text d" ].

(** 201 pages; pages 50 to 109 carry a running head. *)
Definition big_pages : list str :=
  map (fun i => if ((50 <=? i) && (i <? 110))%nat
                then u8 "Running head
body text of the page"
                else u8 "body text of the page")
      (seq 0 201).

(** 50 pages, the first 28 of which carry a running head. *)
Definition fifty_pages : list str :=
  map (fun i => if (i <? 28)%nat
                then u8 "Running head
body text of the page"
                else u8 "body text of the page")
      (seq 0 50).

(** Two draws: the first [k] and the last [k] of the population. *)
Definition draw_low (population : list nat) (k : nat) : list nat :=
  take k population.

Definition draw_high (population : list nat) (k : nat) : list nat :=
  drop (length population - k) population.

(** A heading line and a line of running text. *)
Definition sample_heading : str := u8 "Chương 12: Khởi Đầu".
Definition sample_line : str := u8 "rồi hắn bước đi".

(** A document of three pages, the second of which cannot be read. *)
Definition sample_pdf : pdf_extract.pdf :=
  pdf_extract.Document
    [ pdf_extract.Extracted (Some (u8 "  Trang một của sách  "));
      pdf_extract.Broken;
      pdf_extract.Extracted (Some (u8 "Nội dung trang ba")) ].

(** A service that answers every request, a clock, and the start of a
    run on an empty disk. *)
Definition sample_generate (requests : list str) (prompt : str) : option str :=
  Some (u8 "Bản đã biên tập").

Definition sample_now (i : nat) : str := u8 "2024-01-01T00:00:00".

Definition sample_start : main.run :=
  main.Run checkpoint.init (checkpoint.Disk None ∅) [] 0.

(* ================================================================== *)
(** * Properties of the string operations *)
(* ================================================================== *)

Lemma len_app (a b : str) : len (a ++ b) = len a + len b.
Proof. unfold len. rewrite length_app. lia. Qed.

Lemma len_nonneg (s : str) : 0 <= len s.
Proof. unfold len. lia. Qed.

Lemma is_empty_true (s : str) : is_empty s = true <-> s = [].
Proof. destruct s; simpl; split; congruence. Qed.

Lemma is_empty_false (s : str) : is_empty s = false <-> s <> [].
Proof. destruct s; simpl; split; congruence. Qed.

Lemma lstrip_cases (s : str) :
  lstrip s = [] \/ exists c s', lstrip s = c :: s' /\ is_space c = false.
Proof.
  induction s as [|c s IH]; simpl; [now left|].
  destruct (is_space c) eqn:E; [exact IH|].
  right. now exists c, s.
Qed.

Lemma lstrip_fixed (c : char) (s : str) :
  is_space c = false -> lstrip (c :: s) = c :: s.
Proof. intros E. simpl. now rewrite E. Qed.

(** [lstrip] never reaches past a character that is not white space. *)
Lemma lstrip_snoc (s : str) (c : char) :
  is_space c = false -> exists t, lstrip (s ++ [c]) = t ++ [c].
Proof.
  intros E. induction s as [|d s IH]; simpl.
  - rewrite E. now exists [].
  - destruct (is_space d); [exact IH|]. now exists (d :: s).
Qed.

Lemma strip_cases (s : str) : strip s = [] \/ trimmed (strip s).
Proof.
  unfold strip, rstrip.
  destruct (lstrip_cases s) as [-> | (c & s' & -> & Hc)]; [now left|].
  right. simpl rev.
  destruct (lstrip_snoc (rev s') c Hc) as [t Ht]. rewrite Ht.
  split.
  - exists c, (rev t). split; [|exact Hc]. now rewrite rev_app_distr.
  - rewrite rev_involutive, <- Ht.
    destruct (lstrip_cases (rev s' ++ [c])) as [Hn | (d & u & Hd & Hsp)].
    + rewrite Ht in Hn. now destruct t.
    + now exists d, u.
Qed.

Lemma trimmed_strip (s : str) : trimmed s -> strip s = s.
Proof.
  intros [(c & s' & -> & Hc) (d & u & Hrev & Hd)].
  unfold strip, rstrip. rewrite (lstrip_fixed c s' Hc).
  rewrite Hrev, (lstrip_fixed d u Hd), <- Hrev. apply rev_involutive.
Qed.

Lemma trimmed_nonempty (s : str) : trimmed s -> s <> [].
Proof. intros [(c & s' & -> & _) _]. discriminate. Qed.

Lemma strip_idempotent (s : str) : strip (strip s) = strip s.
Proof.
  destruct (strip_cases s) as [-> | Ht]; [reflexivity|].
  now apply trimmed_strip.
Qed.

Lemma strip_nonempty_trimmed (s : str) :
  is_empty (strip s) = false -> trimmed (strip s).
Proof.
  intros E. destruct (strip_cases s) as [Hn | Ht]; [|exact Ht].
  rewrite Hn in E. discriminate.
Qed.

Lemma join_snoc (sep : str) (ps : list str) (p : str) :
  ps <> [] -> join sep (ps ++ [p]) = join sep ps ++ sep ++ p.
Proof.
  induction ps as [|q ps IH]; [congruence|]. intros _.
  destruct ps as [|q' ps]; [reflexivity|].
  change (join sep ((q :: q' :: ps) ++ [p]))
    with (q ++ sep ++ join sep ((q' :: ps) ++ [p])).
  rewrite IH by discriminate.
  change (join sep (q :: q' :: ps)) with (q ++ sep ++ join sep (q' :: ps)).
  now rewrite <- !app_assoc.
Qed.

(** Joining trimmed pieces gives a trimmed string, whatever the
    separator. *)
Lemma join_trimmed (sep : str) (ps : list str) :
  ps <> [] -> Forall trimmed ps -> trimmed (join sep ps).
Proof.
  induction ps as [|p ps IH]; [congruence|]. intros _ Hall.
  apply Forall_cons in Hall as [Hp Hps].
  destruct ps as [|q ps]; [exact Hp|].
  change (join sep (p :: q :: ps)) with (p ++ sep ++ join sep (q :: ps)).
  specialize (IH ltac:(discriminate) Hps).
  destruct Hp as [(c & p' & -> & Hc) _].
  destruct IH as [_ (d & u & Hrev & Hd)].
  split.
  - now exists c, (p' ++ sep ++ join sep (q :: ps)).
  - rewrite !rev_app_distr, Hrev. now exists d, ((u ++ rev sep) ++ rev (c :: p')).
Qed.

Lemma lstrip_blank_app (a s : str) : blank a -> lstrip (a ++ s) = lstrip s.
Proof.
  induction 1 as [|c a Hc _ IH]; simpl; [reflexivity|]. now rewrite Hc.
Qed.

Lemma rstrip_app_blank (s b : str) : blank b -> rstrip (s ++ b) = rstrip s.
Proof.
  intros Hb. unfold rstrip. rewrite rev_app_distr, lstrip_blank_app; [reflexivity|].
  unfold blank. apply Forall_forall. intros c Hc.
  apply list_elem_of_In, in_rev, list_elem_of_In in Hc.
  eapply Forall_forall in Hb; eauto.
Qed.

(** What [lstrip] takes off is white space. *)
Lemma lstrip_split (s : str) : exists a, blank a /\ s = a ++ lstrip s.
Proof.
  induction s as [|c s (a & Ha & IH)]; simpl;
    [exists []; split; [constructor|reflexivity]|].
  destruct (is_space c) eqn:E.
  - exists (c :: a). split; [apply Forall_cons; now split|]. simpl. now f_equal.
  - exists []. split; [constructor|reflexivity].
Qed.

Lemma trimmed_lstrip (m s : str) : trimmed m -> lstrip (m ++ s) = m ++ s.
Proof. intros [(c & m' & -> & Hc) _]. simpl. now rewrite Hc. Qed.

Lemma trimmed_rstrip (s m : str) : trimmed m -> rstrip (s ++ m) = s ++ m.
Proof.
  intros [_ (c & m' & Hrev & Hc)]. unfold rstrip.
  rewrite rev_app_distr, Hrev. simpl. rewrite Hc.
  change (c :: m' ++ rev s) with ((c :: m') ++ rev s).
  now rewrite <- Hrev, <- rev_app_distr, rev_involutive.
Qed.

Lemma lstrip_trimmed (m : str) : trimmed m -> lstrip m = m.
Proof. intros Hm. rewrite <- (app_nil_r m). now apply trimmed_lstrip. Qed.

Lemma rstrip_trimmed (m : str) : trimmed m -> rstrip m = m.
Proof. intros Hm. now apply (trimmed_rstrip [] m). Qed.

(** A string is white space throughout, or white space around a trimmed
    core, and the three strips cut accordingly. *)
Lemma strip_decompose (s : str) :
  (blank s /\ lstrip s = [] /\ rstrip s = [] /\ strip s = []) \/
  (exists a m b,
     s = a ++ m ++ b /\ blank a /\ blank b /\ trimmed m /\
     lstrip s = m ++ b /\ rstrip s = a ++ m /\ strip s = m).
Proof.
  destruct (lstrip_split s) as (a & Ha & Hs).
  destruct (strip_cases s) as [Hn | Ht].
  - left. unfold strip, rstrip in Hn.
    assert (Hl : lstrip (rev (lstrip s)) = []).
    { apply (f_equal (@rev N)) in Hn. now rewrite rev_involutive in Hn. }
    destruct (lstrip_split (rev (lstrip s))) as (b & Hb & Hr).
    rewrite Hl, app_nil_r in Hr.
    assert (Hbl : blank (lstrip s)).
    { apply Forall_forall. intros c Hc.
      apply list_elem_of_In, in_rev in Hc. rewrite Hr in Hc.
      apply list_elem_of_In in Hc. eapply Forall_forall in Hb; eauto. }
    assert (Hall : blank s) by (rewrite Hs; now apply Forall_app).
    repeat split; [exact Hall| | |].
    + rewrite <- (app_nil_r s). now rewrite lstrip_blank_app.
    + rewrite <- (app_nil_l s). now rewrite rstrip_app_blank.
    + unfold strip. rewrite <- (app_nil_l (lstrip s)). now rewrite rstrip_app_blank.
  - right.
    destruct (lstrip_split (rev (lstrip s))) as (b & Hb & Hr).
    exists a, (strip s), (rev b).
    assert (Hrb : blank (rev b)).
    { apply Forall_forall. intros c Hc.
      apply list_elem_of_In in Hc. rewrite <- in_rev in Hc.
      apply list_elem_of_In in Hc. eapply Forall_forall in Hb; eauto. }
    assert (Hls : lstrip s = strip s ++ rev b).
    { apply (f_equal (@rev N)) in Hr. rewrite rev_involutive, rev_app_distr in Hr.
      exact Hr. }
    repeat split; try assumption.
    + now rewrite <- Hls.
    + apply Ht.
    + apply Ht.
    + rewrite Hs at 1. rewrite Hls, app_assoc, rstrip_app_blank by assumption.
      now apply trimmed_rstrip.
Qed.

Lemma strip_rstrip (s : str) : strip (rstrip s) = strip s.
Proof.
  destruct (strip_decompose s) as [(_ & _ & -> & ->) | (a & m & b & _ & Ha & _ & Hm & _ & -> & ->)];
    [reflexivity|].
  unfold strip. rewrite lstrip_blank_app, lstrip_trimmed by assumption.
  now apply rstrip_trimmed.
Qed.

Lemma strip_lstrip (s : str) : strip (lstrip s) = strip s.
Proof.
  destruct (strip_decompose s) as [(_ & -> & _ & ->) | (a & m & b & _ & _ & Hb & Hm & -> & _ & ->)];
    [reflexivity|].
  unfold strip. rewrite trimmed_lstrip, rstrip_app_blank by assumption.
  now apply rstrip_trimmed.
Qed.



(* ================================================================== *)
(** * The matcher on inputs of a known shape *)
(* ================================================================== *)

Section MatcherLemmas.
Variable fl : flags.

Lemma lit_ok_refl (c : char) : lit_ok fl c c = true.
Proof. unfold lit_ok. now rewrite N.eqb_refl. Qed.

(** A word matches itself and hands over to the continuation. *)
Lemma rmatch_word (w : str) (k : mstate -> option mstate) (sn tl : str)
    (g : gmap nat str) :
  rmatch fl (word w) k (MState sn (w ++ tl) g) = k (MState (rev w ++ sn) tl g).
Proof.
  revert sn. induction w as [|c w IH]; intros sn; [reflexivity|].
  destruct w as [|c' w'].
  - simpl. now rewrite lit_ok_refl.
  - change (word (c :: c' :: w')) with (Cat (Lit c) (word (c' :: w'))).
    cbn [rmatch rest app]. rewrite lit_ok_refl. unfold step. cbn [seen groups].
    rewrite IH. f_equal. f_equal. simpl. now rewrite <- !app_assoc.
Qed.

(** A greedy repetition that can take all of [pre] and no more keeps it
    all when the rest of the pattern then succeeds. *)
Lemma rep_greedy_max (p : char -> bool) (k : mstate -> option mstate)
    (g : gmap nat str) (m : mstate) (rs pre : str) :
  forall (lo : nat) (hi : option nat) (sn : str),
    Forall (fun c => p c = true) pre ->
    (lo <= length pre)%nat ->
    match hi with Some h => (length pre <= h)%nat | None => True end ->
    match rs with
    | c :: _ => p c = false \/ hi = Some (length pre)
    | [] => True
    end ->
    k (MState (rev pre ++ sn) rs g) = Some m ->
    rep_greedy p lo hi k sn (pre ++ rs) g = Some m.
Proof.
  induction pre as [|c pre IH]; intros lo hi sn Hall Hlo Hhi Hstop Hk.
  - simpl in *. assert (lo = 0%nat) as -> by lia.
    destruct rs as [|c rs]; simpl; [exact Hk|].
    destruct Hstop as [-> | ->]; simpl; [exact Hk|].
    now rewrite andb_false_r.
  - apply Forall_cons in Hall as [Hc Hall]. simpl in Hlo.
    cbn [app rep_greedy]. rewrite Hc.
    assert (Hpos : hi_pos hi = true).
    { destruct hi as [[|h]|]; simpl in *; [lia|reflexivity|reflexivity]. }
    rewrite Hpos. cbn [andb].
    rewrite (IH (Nat.pred lo) (hi_pred hi) (c :: sn)); [reflexivity|exact Hall|lia| | |].
    + destruct hi as [h|]; simpl in *; [lia|exact I].
    + destruct rs as [|d rs]; [exact I|].
      destruct Hstop as [Hd | ->]; [now left|]. right. reflexivity.
    + rewrite <- Hk. f_equal. f_equal. simpl. now rewrite <- app_assoc.
Qed.

Lemma rmatch_Cat (r1 r2 : regex) (k : mstate -> option mstate) (s : mstate) :
  rmatch fl (Cat r1 r2) k s = rmatch fl r1 (rmatch fl r2 k) s.
Proof. reflexivity. Qed.

Lemma rmatch_Grp (i : nat) (r : regex) (k : mstate -> option mstate) (s : mstate) :
  rmatch fl (Grp i r) k s
  = rmatch fl r
      (fun s' =>
         k (MState (seen s') (rest s')
              (<[i := take (length (seen s') - length (seen s)) (rest s)]> (groups s'))))
      s.
Proof. reflexivity. Qed.

Lemma rmatch_Rep (greedy : bool) (p : char -> bool) (lo : nat) (hi : option nat)
    (k : mstate -> option mstate) (s : mstate) :
  rmatch fl (Rep greedy p lo hi) k s
  = (if greedy then rep_greedy else rep_lazy) p lo hi k (seen s) (rest s) (groups s).
Proof. reflexivity. Qed.

Lemma rmatch_Class (p : char -> bool) (k : mstate -> option mstate)
    (sn : str) (c : char) (tl : str) (g : gmap nat str) :
  p c = true ->
  rmatch fl (Class p) k (MState sn (c :: tl) g) = k (MState (c :: sn) tl g).
Proof. intros Hc. cbn [rmatch rest]. now rewrite Hc. Qed.

Lemma captured_take (x sn tl : str) :
  take (length (rev x ++ sn) - length sn) (x ++ tl) = x.
Proof.
  rewrite length_app, length_rev.
  replace (length x + length sn - length sn)%nat with (length x) by lia.
  apply take_app_length.
Qed.

(** A lazy repetition stops at the first place where the rest of the
    pattern succeeds. *)
Lemma rep_lazy_until (p : char -> bool) (k : mstate -> option mstate)
    (g : gmap nat str) (m : mstate) (post t : str) :
  (forall sn' c rs', p c = true -> k (MState sn' (c :: rs') g) = None) ->
  forall (lo : nat) (sn : str),
    Forall (fun c => p c = true) t ->
    (lo <= length t)%nat ->
    k (MState (rev t ++ sn) post g) = Some m ->
    rep_lazy p lo None k sn (t ++ post) g = Some m.
Proof.
  intros Hfail. induction t as [|c t IH]; intros lo sn Hall Hlo Hk.
  - simpl in *. assert (lo = 0%nat) as -> by lia.
    destruct post; simpl; now rewrite Hk.
  - apply Forall_cons in Hall as [Hc Hall]. simpl in Hlo.
    cbn [app rep_lazy]. rewrite Hc. cbn [hi_pos andb hi_pred].
    rewrite (IH (Nat.pred lo) (c :: sn) Hall); [|lia|].
    + destruct lo; [|reflexivity]. now rewrite (Hfail sn c (t ++ post) Hc).
    + rewrite <- Hk. f_equal. f_equal. simpl. now rewrite <- app_assoc.
Qed.

(** The scan arrives at the end of [pre] ready to try a match there when
    no match that starts in [pre] runs past its end. *)
Lemma scan_reach (r : regex) (x : str) (bound : nat) (pre : str) :
  forall (skip : nat) (sn : str),
    (skip <= length pre)%nat ->
    bound = (length sn + length pre)%nat ->
    (forall m, m ∈ scan fl r skip sn (pre ++ x) ->
               (m_start m < bound)%nat -> (m_end m <= bound)%nat) ->
    x <> [] ->
    exists ms1,
      scan fl r skip sn (pre ++ x) = ms1 ++ scan fl r 0 (rev pre ++ sn) x /\
      (forall m, m ∈ ms1 -> (m_end m <= bound)%nat).
Proof.
  induction pre as [|c pre IH]; intros skip sn Hskip Hb Hin Hx.
  - simpl in Hskip. assert (skip = 0%nat) as -> by lia.
    exists []. split; [reflexivity|]. intros m Hm. now apply elem_of_nil in Hm.
  - cbn [app scan]. cbn [app scan] in Hin. simpl in Hskip.
    assert (Hb' : bound = (length (c :: sn) + length pre)%nat) by (simpl in *; lia).
    replace (rev (c :: pre) ++ sn) with (rev pre ++ c :: sn)
      by (simpl; now rewrite <- app_assoc).
    destruct skip as [|k].
    + destruct (match_at fl r sn (c :: pre ++ x)) as [m0|] eqn:E.
      * assert (Hs : m_start m0 = length sn).
        { unfold match_at in E. destruct (rmatch _ _ _ _); [|discriminate].
          now injection E as <-. }
        assert (He : (m_end m0 <= bound)%nat).
        { apply Hin; [apply elem_of_cons; now left|]. simpl in Hb. lia. }
        destruct (IH (Nat.pred (m_end m0 - m_start m0)) (c :: sn)) as (ms1 & Heq & Hms1);
          [simpl in Hb; lia|exact Hb'| |exact Hx|].
        { intros m Hm. apply Hin, elem_of_cons. now right. }
        exists (m0 :: ms1). split; [now rewrite Heq|].
        intros m Hm. apply elem_of_cons in Hm as [-> | Hm]; [exact He|now apply Hms1].
      * apply (IH 0%nat (c :: sn)); [lia|exact Hb'|exact Hin|exact Hx].
    + apply (IH k (c :: sn)); [lia|exact Hb'|exact Hin|exact Hx].
Qed.

Lemma scan_match (r : regex) (sn : str) (c : char) (rs : str) (m : Match) :
  match_at fl r sn (c :: rs) = Some m ->
  scan fl r 0 sn (c :: rs)
  = m :: scan fl r (Nat.pred (m_end m - m_start m)) (c :: sn) rs.
Proof. intros E. cbn [scan]. now rewrite E. Qed.

(** After a match the scan passes over its characters and goes on behind
    it. *)
Lemma scan_skip (r : regex) (x l : str) :
  forall sn, scan fl r (length l) sn (l ++ x) = scan fl r 0 (rev l ++ sn) x.
Proof.
  induction l as [|c l IH]; intros sn; [reflexivity|].
  cbn [length app scan]. rewrite IH. simpl. now rewrite <- app_assoc.
Qed.

Lemma subst_app (repl : Match -> str) (text : str) (m : Match) (ms2 ms1 : list Match) :
  forall pos,
    subst repl pos (ms1 ++ m :: ms2) text
    = subst_upto repl pos ms1 (m_start m) text ++ repl m ++ subst repl (m_end m) ms2 text.
Proof.
  induction ms1 as [|m1 ms1 IH]; intros pos; [reflexivity|].
  cbn [app subst subst_upto]. rewrite IH. now rewrite <- !app_assoc.
Qed.
End MatcherLemmas.

(* ================================================================== *)
(** * chunking.py: the Chunk Packer *)
(* ================================================================== *)

Lemma fold_left_invariant {A B} (f : A -> B -> A) (P : A -> Prop) (Q : B -> Prop) :
  (forall a b, P a -> Q b -> P (f a b)) ->
  forall l a, P a -> Forall Q l -> P (fold_left f l a).
Proof.
  intros Hstep l. induction l as [|b l IH]; intros a Ha Hl; simpl; [exact Ha|].
  apply Forall_cons in Hl as [Hb Hl]. apply IH; auto.
Qed.

Section PackerSizes.
Import chunking.
Variable max_chars : Z.
Variable text : str.

Local Abbreviation sized := (packer_sized max_chars text).

Lemma flush_sized (st : packer) :
  sized st -> current_chunk st <> [] -> sized (flush st).
Proof.
  intros [Hch Hcur] Hne. split; simpl; [|reflexivity].
  apply Forall_app. split; [exact Hch|].
  apply Forall_cons. split; [|constructor].
  destruct (current_chunk st); [congruence|]. apply Hcur.
Qed.

(** The guarded flush that precedes every append. *)
Lemma guarded_flush_sized (st : packer) (b : bool) :
  sized st ->
  let st' := if b && nonempty (current_chunk st) then flush st else st in
  sized st' /\ (current_chunk st' = [] \/ (b = false /\ st' = st)).
Proof.
  intros Hst. destruct b; simpl.
  - destruct (current_chunk st) eqn:E; simpl.
    + split; [exact Hst|]. left. exact E.
    + split; [|now left]. apply flush_sized; [exact Hst|]. congruence.
  - split; [exact Hst|]. now right.
Qed.

Lemma push_sized (st : packer) (p : str) :
  sized st ->
  (current_chunk st = [] -> fits max_chars text p) ->
  (current_chunk st <> [] -> current_length st + len p <= max_chars) ->
  sized (push st p).
Proof.
  intros [Hch Hcur] Hempty Hfull. split; [exact Hch|]. simpl.
  destruct (current_chunk st) as [|q qs] eqn:E.
  - simpl. rewrite Hcur. split; [lia|]. now apply Hempty.
  - destruct Hcur as [Hlen _].
    specialize (Hfull ltac:(discriminate)).
    change ((q :: qs) ++ [p]) with (q :: (qs ++ [p])).
    assert (Hj : join NLNL ((q :: qs) ++ [p]) = join NLNL (q :: qs) ++ NLNL ++ p)
      by (apply join_snoc; discriminate).
    change ((q :: qs) ++ [p]) with (q :: (qs ++ [p])) in Hj.
    destruct (qs ++ [p]) eqn:E'; [now destruct qs|]. rewrite <- E' in *.
    rewrite Hj. unfold fits. rewrite !len_app. change (len NLNL) with 2.
    split; [lia|]. left. lia.
Qed.

Lemma add_sentence_sized (st : packer) (sentence : str) :
  sized st -> sentence_of text sentence -> sized (add_sentence max_chars st sentence).
Proof.
  intros Hst Hs. unfold add_sentence.
  destruct (guarded_flush_sized st
              (current_length st + len sentence + 1 >? max_chars) Hst)
    as [Hst' Hcase].
  apply push_sized; [exact Hst'| |].
  - intros _. destruct (Z_le_gt_dec (len sentence) max_chars); [now left|].
    right. split; [lia|exact Hs].
  - intros Hne. destruct Hcase as [He | [Hb ->]]; [congruence|]. lia.
Qed.

Lemma add_paragraph_sized (st : packer) (para : str) :
  sized st -> para ∈ split NLNL text -> sized (add_paragraph max_chars st para).
Proof.
  intros Hst Hin. unfold add_paragraph.
  destruct (is_empty (strip para)); [exact Hst|].
  destruct (Z.gtb_spec (len (strip para)) max_chars) as [Hlong | Hshort].
  - apply fold_left_invariant with (Q := sentence_of text).
    + intros a b. apply add_sentence_sized.
    + apply (guarded_flush_sized st true Hst).
    + apply Forall_forall. intros c Hc. now exists para.
  - destruct (guarded_flush_sized st
                (current_length st + len (strip para) + 2 >? max_chars) Hst)
      as [Hst' Hcase].
    apply push_sized; [exact Hst'| |].
    + intros _. now left.
    + intros Hne. destruct Hcase as [He | [Hb ->]]; [congruence|]. lia.
Qed.

Lemma split_by_paragraphs_sized (c : str) :
  c ∈ split_by_paragraphs text max_chars -> fits max_chars text c.
Proof.
  unfold split_by_paragraphs.
  set (st := fold_left _ _ _).
  assert (Hst : sized st).
  { apply fold_left_invariant with (Q := fun p => p ∈ split NLNL text).
    - intros a b. apply add_paragraph_sized.
    - split; [constructor|reflexivity].
    - now apply Forall_forall. }
  destruct Hst as [Hch Hcur].
  destruct (current_chunk st) eqn:E; simpl; intros Hc.
  - eapply Forall_forall in Hch; eauto.
  - apply elem_of_app in Hc as [Hc | Hc].
    + eapply Forall_forall in Hch; eauto.
    + apply list_elem_of_singleton in Hc as ->. apply Hcur.
Qed.
End PackerSizes.

Section PackerPieces.
Import chunking.
Variable max_chars : Z.
Variable text : str.

Local Abbreviation pieces_ok := (packer_pieces text).

Lemma joined_pieces_trimmed (c : str) : joined_pieces text c -> trimmed c.
Proof.
  intros (ps & Hne & Hall & ->). apply join_trimmed; [exact Hne|].
  eapply Forall_impl; [exact Hall|]. now intros p [Hp _].
Qed.

Lemma split_by_sentences_trimmed (para c : str) :
  c ∈ split_by_sentences para -> trimmed c.
Proof.
  unfold split_by_sentences. intros Hc.
  apply list_elem_of_In, in_map_iff in Hc as (s & <- & Hs).
  apply list_elem_of_In, list_elem_of_filter in Hs as [Hs _].
  now apply strip_nonempty_trimmed.
Qed.

Lemma guarded_flush_pieces (st : packer) (b : bool) :
  pieces_ok st ->
  pieces_ok (if b && nonempty (current_chunk st) then flush st else st).
Proof.
  intros [Hch Hcur]. destruct b; simpl; [|now split].
  destruct (current_chunk st) as [|q qs] eqn:E; simpl; [split; [exact Hch|now rewrite E]|].
  split; simpl; [|constructor].
  apply Forall_app. split; [exact Hch|].
  apply Forall_cons. split; [|constructor].
  exists (q :: qs). rewrite E. repeat split; [discriminate|exact Hcur].
Qed.

Lemma push_pieces (st : packer) (p : str) :
  pieces_ok st -> piece_of text p -> pieces_ok (push st p).
Proof.
  intros [Hch Hcur] Hp. split; [exact Hch|]. simpl.
  apply Forall_app. split; [exact Hcur|]. now apply Forall_cons.
Qed.

Lemma add_sentence_pieces (st : packer) (sentence : str) :
  pieces_ok st -> sentence_of text sentence ->
  pieces_ok (add_sentence max_chars st sentence).
Proof.
  intros Hst Hs. unfold add_sentence.
  apply push_pieces; [now apply guarded_flush_pieces|].
  split; [|now right].
  destruct Hs as (para & _ & Hc). eapply split_by_sentences_trimmed, Hc.
Qed.

Lemma add_paragraph_pieces (st : packer) (para : str) :
  pieces_ok st -> para ∈ split NLNL text ->
  pieces_ok (add_paragraph max_chars st para).
Proof.
  intros Hst Hin. unfold add_paragraph.
  destruct (is_empty (strip para)) eqn:E; [exact Hst|].
  destruct (len (strip para) >? max_chars).
  - apply fold_left_invariant with (Q := sentence_of text).
    + intros a b. apply add_sentence_pieces.
    + apply (guarded_flush_pieces st true Hst).
    + apply Forall_forall. intros c Hc. now exists para.
  - apply push_pieces; [now apply guarded_flush_pieces|].
    split; [now apply strip_nonempty_trimmed|].
    left. now exists para.
Qed.

Lemma split_by_paragraphs_pieces (c : str) :
  c ∈ split_by_paragraphs text max_chars -> joined_pieces text c.
Proof.
  unfold split_by_paragraphs.
  set (st := fold_left _ _ _).
  assert (Hst : pieces_ok st).
  { apply fold_left_invariant with (Q := fun p => p ∈ split NLNL text).
    - intros a b. apply add_paragraph_pieces.
    - split; constructor.
    - now apply Forall_forall. }
  destruct Hst as [Hch Hcur].
  destruct (current_chunk st) as [|q qs] eqn:E; simpl; intros Hc.
  - eapply Forall_forall in Hch; eauto.
  - apply elem_of_app in Hc as [Hc | Hc].
    + eapply Forall_forall in Hch; eauto.
    + apply list_elem_of_singleton in Hc as ->.
      exists (q :: qs). repeat split; [discriminate|exact Hcur].
Qed.
End PackerPieces.

Section CreateChunks.
Import chapter_split chunking.

Lemma fold_left_app_concat {A B} (f : B -> list A) (l : list B) (acc : list A) :
  fold_left (fun all b => all ++ f b) l acc = acc ++ concat (map f l).
Proof.
  revert acc. induction l as [|b l IH]; intros acc; simpl.
  - now rewrite app_nil_r.
  - now rewrite IH, app_assoc.
Qed.

(** For a positive [max_chars] the packer returns the chunks of the
    chapters one chapter after the other. *)
Lemma create_chunks_ok (chapters : list Chapter) (max_chars : Z) :
  0 < max_chars ->
  create_chunks chapters max_chars
    = Ok (concat (map (chunks_of_chapter max_chars) chapters)).
Proof.
  intros Hpos. unfold create_chunks.
  destruct (Z.leb_spec max_chars 0); [lia|].
  now rewrite fold_left_app_concat.
Qed.

Lemma number_parts_texts (chapter : Chapter) (k i : Z) (parts : list str) :
  map chunking.text (number_parts chapter k i parts) = parts.
Proof.
  revert i. induction parts as [|p parts IH]; intros i; simpl; [reflexivity|].
  now rewrite IH.
Qed.

(** The text of a chunk of a chapter: the whole stripped chapter, or a
    part that [split_by_paragraphs] made of it. *)
Lemma chunks_of_chapter_text (max_chars : Z) (chapter : Chapter) (c : Chunk) :
  c ∈ chunks_of_chapter max_chars chapter ->
  let chapter_text := strip (chapter_split.text chapter) in
  (len chapter_text <= max_chars /\ chunking.text c = chapter_text) \/
  (max_chars < len chapter_text /\
   chunking.text c ∈ split_by_paragraphs chapter_text max_chars).
Proof.
  unfold chunks_of_chapter. intros Hc.
  destruct (Z.leb_spec (len (strip (chapter_split.text chapter))) max_chars).
  - left. apply list_elem_of_singleton in Hc as ->. now split.
  - right. split; [lia|].
    rewrite <- (number_parts_texts chapter
      (Z.of_nat (length (split_by_paragraphs (strip (chapter_split.text chapter)) max_chars))) 1).
    apply list_elem_of_In, in_map, list_elem_of_In, Hc.
Qed.

Lemma elem_of_create_chunks (chapters : list Chapter) (max_chars : Z) (c : Chunk) :
  c ∈ concat (map (chunks_of_chapter max_chars) chapters) ->
  exists chapter, chapter ∈ chapters /\ c ∈ chunks_of_chapter max_chars chapter.
Proof.
  intros Hc. apply list_elem_of_In, in_concat in Hc as (l & Hl & Hc).
  apply in_map_iff in Hl as (chapter & <- & Hin).
  exists chapter. split; now apply list_elem_of_In.
Qed.
End CreateChunks.

Section ChunkPacker.
Import chapter_split chunking.

(** C1: for every chapter list and every [max_chars > 0] the packer
    returns chunks, and the text of each is at most [max_chars] long, or
    else it is longer and is exactly one whole sentence, as
    [split_by_sentences] delimits it, of one paragraph of its chapter. *)
Theorem chunk_size_bound (chapters : list Chapter) (max_chars : Z) :
  0 < max_chars ->
  exists cs,
    create_chunks chapters max_chars = Ok cs /\
    forall c, c ∈ cs ->
      len (chunking.text c) <= max_chars \/
      exists chapter,
        chapter ∈ chapters /\
        max_chars < len (chunking.text c) /\
        sentence_of (strip (chapter_split.text chapter)) (chunking.text c).
Proof.
  intros Hpos. eexists. split; [now apply create_chunks_ok|].
  intros c Hc.
  apply elem_of_create_chunks in Hc as (chapter & Hin & Hc).
  apply chunks_of_chapter_text in Hc as [[Hle ->] | [_ Hc]]; [now left|].
  apply split_by_paragraphs_sized in Hc as [Hle | [Hgt Hs]]; [now left|].
  right. now exists chapter.
Qed.

Lemma chunk_size_bound_witness :
  exists cs,
    create_chunks [sample_chapter] 12 = Ok cs /\
    forall c, c ∈ cs ->
      len (chunking.text c) <= 12 \/
      exists chapter,
        chapter ∈ [sample_chapter] /\
        12 < len (chunking.text c) /\
        sentence_of (strip (chapter_split.text chapter)) (chunking.text c).
Proof. apply (chunk_size_bound [sample_chapter] 12). lia. Defined.

Lemma number_parts_numbers (chapter : Chapter) (k i : Z) (parts : list str) :
  map part_number (number_parts chapter k i parts)
    = map (fun j => i + Z.of_nat j) (seq 0 (length parts)).
Proof.
  revert i. induction parts as [|p parts IH]; intros i; [reflexivity|].
  simpl. f_equal; [lia|].
  rewrite IH, <- seq_shift, map_map. apply map_ext. intros j. lia.
Qed.

Lemma number_parts_total (chapter : Chapter) (k i : Z) (parts : list str) :
  Forall (fun c => total_parts c = k /\ chapter_number c = number chapter)
         (number_parts chapter k i parts).
Proof.
  revert i. induction parts as [|p parts IH]; intros i; simpl; constructor; auto.
Qed.

Lemma number_parts_length (chapter : Chapter) (k i : Z) (parts : list str) :
  length (number_parts chapter k i parts) = length parts.
Proof.
  revert i. induction parts as [|p parts IH]; intros i; simpl; [reflexivity|].
  now rewrite IH.
Qed.

(** C2: for a positive [max_chars] the output is the chunks of the first
    chapter, then those of the second, and so on; and if a chapter gives
    [k] chunks, their part numbers are 1, 2, ..., k in this order and each
    carries [total_parts = k] (and the number of its chapter). *)
Theorem part_numbering (chapters : list Chapter) (max_chars : Z) :
  0 < max_chars ->
  create_chunks chapters max_chars
    = Ok (concat (map (chunks_of_chapter max_chars) chapters)) /\
  forall chapter,
    let cs := chunks_of_chapter max_chars chapter in
    let k := length cs in
    map part_number cs = map Z.of_nat (seq 1 k) /\
    Forall (fun c => total_parts c = Z.of_nat k /\
                     chapter_number c = number chapter) cs.
Proof.
  intros Hpos. split; [now apply create_chunks_ok|].
  intros chapter. unfold chunks_of_chapter.
  destruct (len (strip (chapter_split.text chapter)) <=? max_chars).
  - simpl. split; [reflexivity|]. now repeat constructor.
  - cbv zeta. rewrite number_parts_length. split.
    + rewrite number_parts_numbers, <- seq_shift, map_map.
      apply map_ext. intros j. lia.
    + apply number_parts_total.
Qed.

Lemma part_numbering_witness :
  create_chunks [sample_chapter] 12
    = Ok (concat (map (chunks_of_chapter 12) [sample_chapter])) /\
  forall chapter,
    let cs := chunks_of_chapter 12 chapter in
    let k := length cs in
    map part_number cs = map Z.of_nat (seq 1 k) /\
    Forall (fun c => total_parts c = Z.of_nat k /\
                     chapter_number c = number chapter) cs.
Proof. apply (part_numbering [sample_chapter] 12). lia. Defined.

(** C3: with [max_chars <= 0] the packer raises [ValueError], whatever the
    chapters, and returns nothing; with [max_chars > 0] it returns a list
    of chunks and raises nothing. *)
Theorem max_chars_contract (chapters : list Chapter) (max_chars : Z) :
  (max_chars <= 0 ->
   exists msg, create_chunks chapters max_chars = Raise (ValueError msg)) /\
  (0 < max_chars ->
   exists cs, create_chunks chapters max_chars = Ok cs).
Proof.
  split; intros Hm.
  - unfold create_chunks. destruct (Z.leb_spec max_chars 0); [|lia].
    now eexists.
  - eexists. now apply create_chunks_ok.
Qed.

Lemma max_chars_contract_witness :
  (exists msg, create_chunks [sample_chapter] 0 = Raise (ValueError msg)) /\
  (exists msg, create_chunks [sample_chapter] (-3) = Raise (ValueError msg)) /\
  (exists cs, create_chunks [sample_chapter] 12 = Ok cs).
Proof.
  split; [|split].
  - apply (proj1 (max_chars_contract [sample_chapter] 0)). lia.
  - apply (proj1 (max_chars_contract [sample_chapter] (-3))). lia.
  - apply (proj2 (max_chars_contract [sample_chapter] 12)). lia.
Defined.

(** C10: for a positive [max_chars] the text of every chunk is its own
    [strip]: it is the stripped text of its chapter, or a join by blank
    lines of one or more pieces, each a stripped non-empty paragraph or a
    stripped non-empty sentence of that chapter. *)
Theorem chunk_text_stripped (chapters : list Chapter) (max_chars : Z) :
  0 < max_chars ->
  exists cs,
    create_chunks chapters max_chars = Ok cs /\
    forall c, c ∈ cs ->
      strip (chunking.text c) = chunking.text c /\
      exists chapter,
        chapter ∈ chapters /\
        (chunking.text c = strip (chapter_split.text chapter) \/
         joined_pieces (strip (chapter_split.text chapter)) (chunking.text c)).
Proof.
  intros Hpos. eexists. split; [now apply create_chunks_ok|].
  intros c Hc.
  apply elem_of_create_chunks in Hc as (chapter & Hin & Hc).
  apply chunks_of_chapter_text in Hc as [[_ Hc] | [_ Hc]].
  - split; [rewrite Hc; apply strip_idempotent|].
    exists chapter. split; [exact Hin|now left].
  - apply (split_by_paragraphs_pieces max_chars) in Hc.
    split; [now apply trimmed_strip, (joined_pieces_trimmed _ _ Hc)|].
    exists chapter. split; [exact Hin|now right].
Qed.

Lemma chunk_text_stripped_witness :
  exists cs,
    create_chunks [sample_chapter] 12 = Ok cs /\
    forall c, c ∈ cs ->
      strip (chunking.text c) = chunking.text c /\
      exists chapter,
        chapter ∈ [sample_chapter] /\
        (chunking.text c = strip (chapter_split.text chapter) \/
         joined_pieces (strip (chapter_split.text chapter)) (chunking.text c)).
Proof. apply (chunk_text_stripped [sample_chapter] 12). lia. Defined.
End ChunkPacker.

(* ================================================================== *)
(** * chapter_split.py: the Chapter Segmenter *)
(* ================================================================== *)

Section ChapterSegmenter.
Import chapter_split.
Context `{UCD}.

(** C8: a text in which the heading pattern matches nowhere gives exactly
    one chapter, numbered 1, titled "Toàn bộ nội dung", whose text is the
    stripped input; nothing is raised. *)
Theorem no_heading_fallback (text : str) :
  heading_matches text = [] ->
  split_into_chapters text
    = [ MkChapter 1 (u8 "Toàn bộ nội dung") (strip text) ].
Proof.
  unfold heading_matches, split_into_chapters. now intros ->.
Qed.

Lemma chapters_from_length (text : str) (matches : list Match) :
  length (chapters_from text matches) = length matches.
Proof. induction matches as [|m ms IH]; simpl; congruence. Qed.

(** C9: in a text with at least one heading match, a chapter 0 titled
    "Mở đầu" that holds the trimmed span before the first heading is put
    in front of the chapters of the headings exactly when that span is
    more than 100 characters long after trimming; otherwise the output
    is the chapters of the headings alone, one for each match. *)
Theorem prologue_threshold (text : str) (first_match : Match) (rest : list Match) :
  heading_matches text = first_match :: rest ->
  let prologue_text := span_before text first_match in
  let chapters := chapters_from text (first_match :: rest) in
  length chapters = S (length rest) /\
  (100 < len prologue_text ->
   split_into_chapters text = MkChapter 0 (u8 "Mở đầu") prologue_text :: chapters) /\
  (len prologue_text <= 100 ->
   split_into_chapters text = chapters).
Proof.
  unfold heading_matches, span_before, split_into_chapters. intros ->.
  cbv zeta. split; [apply chapters_from_length|].
  set (prologue := strip (slice 0 (m_start first_match) text)).
  split; intros Hlen.
  - destruct (Z.gtb_spec (len prologue) 100) as [_|]; [|lia].
    destruct prologue; [unfold len in Hlen; simpl in Hlen; lia|]. reflexivity.
  - destruct (Z.gtb_spec (len prologue) 100) as [|_]; [lia|].
    now rewrite andb_false_r.
Qed.
End ChapterSegmenter.

Lemma no_heading_fallback_witness :
  chapter_split.split_into_chapters (H := latin_ucd) sample_plain_text
    = [ chapter_split.MkChapter 1 (u8 "Toàn bộ nội dung") (strip sample_plain_text) ].
Proof. apply (no_heading_fallback (H := latin_ucd) sample_plain_text). reflexivity. Defined.

Lemma prologue_threshold_witness :
  chapter_split.split_into_chapters (H := latin_ucd) sample_long_prologue
    = [ chapter_split.MkChapter 0 (u8 "Mở đầu") (repeat 120%N 150);
        chapter_split.MkChapter 1 (u8 "Khởi Đầu") (u8 "Nội dung chương 1 ở đây.") ] /\
  chapter_split.split_into_chapters (H := latin_ucd) sample_short_prologue
    = [ chapter_split.MkChapter 1 (u8 "Khởi Đầu") (u8 "Nội dung chương 1 ở đây.") ].
Proof.
  split.
  - let ms := eval vm_compute in (heading_matches (H := latin_ucd) sample_long_prologue) in
    match ms with
    | ?m :: ?r =>
        destruct (prologue_threshold (H := latin_ucd) sample_long_prologue m r)
          as (_ & Hlong & _); [vm_compute; reflexivity|]
    end.
    rewrite Hlong; [vm_compute; reflexivity|vm_compute; reflexivity].
  - let ms := eval vm_compute in (heading_matches (H := latin_ucd) sample_short_prologue) in
    match ms with
    | ?m :: ?r =>
        destruct (prologue_threshold (H := latin_ucd) sample_short_prologue m r)
          as (_ & _ & Hshort); [vm_compute; reflexivity|]
    end.
    rewrite Hshort; [vm_compute; reflexivity|vm_compute; discriminate].
Defined.

(* ================================================================== *)
(** * preprocess.py: the Line Reflow Engine *)
(* ================================================================== *)

Section LineReflow.
Import preprocess.
Context `{UCD}.

Lemma is_chapter_heading_rstrip (line : str) :
  is_chapter_heading (rstrip line) = is_chapter_heading line.
Proof. unfold is_chapter_heading. now rewrite strip_rstrip. Qed.

Lemma is_chapter_heading_strip (line : str) :
  is_chapter_heading (strip line) = is_chapter_heading line.
Proof. unfold is_chapter_heading. now rewrite strip_idempotent. Qed.

End LineReflow.

(** The heading test of the Line Reflow Engine is not the pattern of the
    Chapter Segmenter: a separator with no title after it passes the
    first and is no heading for the second. *)
Remark heading_tests_differ :
  preprocess.is_chapter_heading (H := latin_ucd) (u8 "chương 5:") = true /\
  heading_matches (H := latin_ucd) (u8 "chương 5:") = [] /\
  preprocess.should_join_lines (H := latin_ucd) (u8 "abc") (u8 "chương 5:") = false.
Proof. repeat split; vm_compute; reflexivity. Qed.

(* ================================================================== *)
(** * preprocess.py: what the Boilerplate Detector counts *)
(* ================================================================== *)

Section Counting.
Import preprocess.

Lemma counted_insert_ne (m : gmap str Z) (s l : str) (v : Z) :
  s <> l -> counted (<[s := v]> m) l = counted m l.
Proof. intros Hne. unfold counted. now rewrite lookup_insert_ne. Qed.

Lemma candidate_lines_cons (a : str) (page_lines : list str) (l : str) :
  l ∈ filter (fun l => 3 <= len l <= 40) (map strip (a :: page_lines)) <->
  (l = strip a /\ 3 <= len (strip a) <= 40) \/
  l ∈ filter (fun l => 3 <= len l <= 40) (map strip page_lines).
Proof.
  cbn [map]. rewrite filter_cons.
  destruct (decide (3 <= len (strip a) <= 40)) as [Hc | Hc].
  - rewrite elem_of_cons. intuition congruence.
  - split; [now right|]. intros [[_ Hc'] | Hl]; [contradiction|exact Hl].
Qed.

Ltac split_decide :=
  match goal with |- context [decide ?P] => destruct (decide P) end.

(** The inner loop over the lines of a page: a line is counted when it is
    a candidate not seen on this page before, and then once. *)
Lemma count_lines_spec (page_lines : list str) :
  forall (m : gmap str Z) (seen : gset str),
    let cand := filter (fun l => 3 <= len l <= 40) (map strip page_lines) in
    let st := fold_left count_line page_lines (m, seen) in
    (forall l, l ∈ st.2 <-> l ∈ seen \/ l ∈ cand) /\
    (forall l, st.1 !! l
               = if decide (l ∈ cand /\ l ∉ seen)
                 then Some (counted m l + 1) else m !! l).
Proof.
  induction page_lines as [|a ls IH]; intros m seen cand st.
  - subst cand st. cbn [fold_left map fst snd]. rewrite filter_nil. split.
    + intros l. rewrite elem_of_nil. tauto.
    + intros l. pose proof (elem_of_nil l) as Hnil.
      split_decide; [exfalso; tauto|reflexivity].
  - subst st. cbn [fold_left].
    assert (Hcand : forall l, l ∈ cand <->
              (l = strip a /\ 3 <= len (strip a) <= 40) \/
              l ∈ filter (fun l => 3 <= len l <= 40) (map strip ls))
      by (intros l; apply candidate_lines_cons).
    clearbody cand.
    change (count_line (m, seen) a) with
      (if (3 <=? len (strip a)) && (len (strip a) <=? 40)
       then if bool_decide (strip a ∈ seen) then (m, seen)
            else (<[strip a := default 0 (m !! strip a) + 1]> m, {[strip a]} ∪ seen)
       else (m, seen)).
    destruct (Z.leb_spec 3 (len (strip a))) as [H3|H3];
      [destruct (Z.leb_spec (len (strip a)) 40) as [H40|H40]|]; cbn [andb].
    + destruct (bool_decide_reflect (strip a ∈ seen)) as [Hseen|Hseen].
      * destruct (IH m seen) as [IH1 IH2]. split.
        -- intros l. rewrite IH1, Hcand. split; [tauto|].
           intros [Hl | [[-> _] | Hl]]; tauto.
        -- intros l. rewrite IH2. pose proof (Hcand l) as Hc.
           repeat split_decide; try reflexivity; exfalso.
           ++ tauto.
           ++ destruct (decide (l = strip a)) as [-> | Hne]; tauto.
      * destruct (IH (<[strip a := default 0 (m !! strip a) + 1]> m) ({[strip a]} ∪ seen))
          as [IH1 IH2]. split.
        -- intros l. rewrite IH1, Hcand, elem_of_union, elem_of_singleton.
           split; [|tauto]. intros [[-> | Hl] | Hl]; tauto.
        -- intros l. rewrite IH2. pose proof (Hcand l) as Hc.
           pose proof (elem_of_union {[strip a]} seen l) as Hu.
           rewrite elem_of_singleton in Hu.
           destruct (decide (l = strip a)) as [-> | Hne].
           ++ rewrite lookup_insert_eq.
              repeat split_decide; try reflexivity; exfalso; tauto.
           ++ rewrite lookup_insert_ne, counted_insert_ne by congruence.
              repeat split_decide; try reflexivity; exfalso; tauto.
    + destruct (IH m seen) as [IH1 IH2]. split.
      * intros l. rewrite IH1, Hcand. split; [tauto|].
        intros [Hl | [[_ Hc] | Hl]]; [tauto|lia|tauto].
      * intros l. rewrite IH2. pose proof (Hcand l) as Hc.
        repeat split_decide; try reflexivity; exfalso; intuition lia.
    + destruct (IH m seen) as [IH1 IH2]. split.
      * intros l. rewrite IH1, Hcand. split; [tauto|].
        intros [Hl | [[_ Hc] | Hl]]; [tauto|lia|tauto].
      * intros l. rewrite IH2. pose proof (Hcand l) as Hc.
        repeat split_decide; try reflexivity; exfalso; intuition lia.
Qed.

(** One page adds one to the count of each of its candidate lines. *)
Lemma count_page_spec (m : gmap str Z) (page_text l : str) :
  count_page m page_text !! l
  = if decide (l ∈ candidate_lines page_text)
    then Some (counted m l + 1) else m !! l.
Proof.
  unfold count_page, candidate_lines.
  destruct (count_lines_spec (split [LF] page_text) m ∅) as [_ Hcount].
  rewrite Hcount.
  pose proof (not_elem_of_empty (C := gset str) l) as He.
  repeat split_decide; try reflexivity; exfalso; tauto.
Qed.

Lemma page_count_nonneg (l : str) (pages : list str) : 0 <= page_count l pages.
Proof. unfold page_count. lia. Qed.

Lemma page_count_cons (l page : str) (pages : list str) :
  page_count l (page :: pages)
  = (if decide (l ∈ candidate_lines page) then 1 else 0) + page_count l pages.
Proof.
  unfold page_count. rewrite filter_cons.
  split_decide; cbn [length]; lia.
Qed.

(** All pages: the count of a line is the number of pages it is on. *)
Lemma count_pages_spec (pages : list str) :
  forall (m : gmap str Z) (l : str),
    fold_left count_page pages m !! l
    = if decide (0 < page_count l pages)
      then Some (counted m l + page_count l pages) else m !! l.
Proof.
  induction pages as [|p ps IH]; intros m l.
  - cbn [fold_left]. unfold page_count. rewrite filter_nil. cbn [length].
    split_decide; [lia|reflexivity].
  - cbn [fold_left]. rewrite IH, page_count_cons.
    pose proof (page_count_nonneg l ps) as Hnn.
    unfold counted at 1. rewrite count_page_spec.
    destruct (decide (l ∈ candidate_lines p)) as [Hin|Hin]; cbn [default from_option id].
    + destruct (decide (0 < page_count l ps)), (decide (0 < 1 + page_count l ps));
        try lia; f_equal; lia.
    + change (0 + page_count l ps) with (page_count l ps).
      destruct (decide (0 < page_count l ps)); [|reflexivity].
      f_equal.
Qed.

(** With the default threshold the least count is [3 * n / 10], rounded
    down, for every number of pages that the detector looks at. *)
Lemma default_min_count (n : nat) :
  (n <= 200)%nat ->
  int_of_float (float_mul (float_of_Z (Z.of_nat n)) (float_of_Q (3 # 10)))
  = Some (3 * Z.of_nat n / 10).
Proof.
  intros Hn.
  assert (Hall :
    forallb (fun k =>
               match int_of_float (float_mul (float_of_Z (Z.of_nat k))
                                             (float_of_Q (3 # 10))) with
               | Some v => v =? 3 * Z.of_nat k / 10
               | None => false
               end) (seq 0 201) = true) by (vm_compute; reflexivity).
  rewrite forallb_forall in Hall. specialize (Hall n).
  destruct (int_of_float _) as [v|].
  - f_equal. apply Z.eqb_eq, Hall, in_seq. lia.
  - discriminate Hall. apply in_seq. lia.
Qed.

(** X5: what the detector returns, when [int] gives the least count
    [min_count = int(effective_total * threshold)]: with fewer than 3
    pages nothing; otherwise the lines, trimmed and 3 to 40 characters
    long, that are found on at least one of the pages looked at and on at
    least [min_count] of them, each page counting once. *)
Lemma find_repeating_spec (draw : list nat -> nat -> list nat)
    (page_texts : list str) (threshold : Q) (min_count : Z) (line : str) :
  let sampled_pages :=
    if (200 <? length page_texts)%nat then sample_pages draw page_texts
    else page_texts in
  int_of_float (float_mul (float_of_Z (Z.of_nat (length sampled_pages)))
                          (float_of_Q threshold)) = Some min_count ->
  line ∈ find_repeating_headers_footers draw page_texts threshold <->
  (3 <= length page_texts)%nat /\
  0 < page_count line sampled_pages /\
  min_count <= page_count line sampled_pages.
Proof.
  intros sampled_pages Hint. unfold find_repeating_headers_footers.
  destruct (Nat.ltb_spec (length page_texts) 3) as [Hfew|Hmany].
  { split; [intros Hl; now apply not_elem_of_empty in Hl|lia]. }
  fold sampled_pages. cbv zeta. rewrite Hint.
  rewrite elem_of_dom. unfold is_Some.
  setoid_rewrite map_lookup_filter_Some.
  setoid_rewrite count_pages_spec. cbn [snd].
  unfold counted. rewrite lookup_empty. cbn [default from_option].
  destruct (decide (0 < page_count line sampled_pages)) as [Hpos|Hzero].
  - split.
    + intros (v & [= <-] & Hv). repeat split; [lia|exact Hpos|lia].
    + intros (_ & _ & Hmin). eexists. split; [reflexivity|]. lia.
  - split; [intros (v & Hv & _); discriminate|tauto].
Qed.
End Counting.

(** Of 50 pages, with the threshold 0.58, the least count is
    [int(50 * 0.58) = 28], the float product being a little less than 29:
    a line on 28 of the pages is returned. *)
Lemma find_repeating_spec_witness :
  u8 "Running head" ∈ preprocess.find_repeating_headers_footers draw_low fifty_pages (58 # 100).
Proof.
  apply (find_repeating_spec draw_low fifty_pages (58 # 100) 28 (u8 "Running head")).
  - vm_compute. reflexivity.
  - split; [vm_compute; lia|]. split; vm_compute; [reflexivity|discriminate].
Defined.

(* ================================================================== *)
(** * preprocess.py: the Boilerplate Detector and the Text Normalizer *)
(* ================================================================== *)

Section Normalizer.
Import preprocess.
Context `{UCD}.

Lemma find_repeating_small (draw1 draw2 : list nat -> nat -> list nat)
    (page_texts : list str) (threshold : Q) :
  (length page_texts <= 200)%nat ->
  find_repeating_headers_footers draw1 page_texts threshold
    = find_repeating_headers_footers draw2 page_texts threshold.
Proof.
  intros Hle. unfold find_repeating_headers_footers.
  destruct (Nat.ltb_spec 200 (length page_texts)); [lia|reflexivity].
Qed.

(** C6 (amended): with no page list, or with one of at most 200 pages,
    the output of [preprocess_text] is the same whatever [random.sample]
    would return: it is a function of the raw text and the page texts
    alone. *)
Theorem preprocess_text_deterministic (draw1 draw2 : list nat -> nat -> list nat)
    (text : str) (page_texts : option (list str)) :
  (forall pages, page_texts = Some pages -> (length pages <= 200)%nat) ->
  preprocess_text draw1 text page_texts = preprocess_text draw2 text page_texts.
Proof.
  intros Hsmall. unfold preprocess_text.
  destruct page_texts as [[|p ps]|]; try reflexivity.
  now rewrite (find_repeating_small draw1 draw2 (p :: ps) (3 # 10) (Hsmall _ eq_refl)).
Qed.
End Normalizer.

Lemma preprocess_text_deterministic_witness :
  preprocess.preprocess_text (H := latin_ucd) draw_low (u8 "HEAD
only once") (Some small_pages)
  = preprocess.preprocess_text (H := latin_ucd) draw_high (u8 "HEAD
only once") (Some small_pages).
Proof.
  apply (preprocess_text_deterministic (H := latin_ucd)).
  intros pages [= <-]. simpl. lia.
Defined.

Lemma valid_draw_low :
  valid_draw (seq 50 101) 100 (draw_low (seq 50 101) 100).
Proof.
  change (draw_low (seq 50 101) 100) with (seq 50 100).
  split; [apply length_seq|]. split; [apply NoDup_seq|].
  intros i Hi. apply elem_of_seq in Hi. apply elem_of_seq. lia.
Qed.

Lemma valid_draw_high :
  valid_draw (seq 50 101) 100 (draw_high (seq 50 101) 100).
Proof.
  change (draw_high (seq 50 101) 100) with (seq 51 100).
  split; [apply length_seq|]. split; [apply NoDup_seq|].
  intros i Hi. apply elem_of_seq in Hi. apply elem_of_seq. lia.
Qed.

(** C6 as stated fails: on the same raw text and the same 201 pages, two
    draws that [random.sample] can make of the 101 middle pages give
    different outputs.  The running head is on 60 of the pages sampled
    with one draw and on 59 with the other, and 60 is the least count that
    makes a line a repeating one. *)
Lemma sampling_changes_output :
  length big_pages = 201%nat /\
  valid_draw (seq 50 101) 100 (draw_low (seq 50 101) 100) /\
  valid_draw (seq 50 101) 100 (draw_high (seq 50 101) 100) /\
  preprocess.preprocess_text (H := latin_ucd) draw_low
    (u8 "Running head") (Some big_pages) = [] /\
  preprocess.preprocess_text (H := latin_ucd) draw_high
    (u8 "Running head") (Some big_pages) = u8 "Running head".
Proof.
  split; [reflexivity|].
  split; [exact valid_draw_low|].
  split; [exact valid_draw_high|].
  split; vm_compute; reflexivity.
Qed.

(** C5, the code at the failing input: of four pages, with the default
    threshold 0.3, the line "only once" is on one page, which is less than
    0.3 x 4 pages, and the detector returns it all the same (so the
    normalizer removes it): the least count is [int(4 * 0.3) = 1]. *)
Theorem min_count_is_truncated :
  page_count (u8 "only once") small_pages = 1 /\
  ~ ((3 # 10) * inject_Z (Z.of_nat (length small_pages))
       <= inject_Z (page_count (u8 "only once") small_pages))%Q /\
  (forall draw,
     u8 "only once" ∈ preprocess.find_repeating_headers_footers draw small_pages (3 # 10)) /\
  (forall draw,
     preprocess.preprocess_text (H := latin_ucd) draw (u8 "HEAD
only once
text a") (Some small_pages) = []).
Proof.
  split; [vm_compute; reflexivity|].
  split; [vm_compute; intros Hle; now apply Hle|].
  split; intros draw.
  - apply (bool_decide_unpack _). vm_compute. exact I.
  - vm_compute. reflexivity.
Qed.

(* ================================================================== *)
(** * preprocess.py: chapter headings in the Text Normalizer *)
(* ================================================================== *)

Section TitleMatch.
Import preprocess.
Context `{UCD}.
Hypothesis digits_not_space : forall c, is_decimal c = true -> is_space c = false.
Hypothesis separators_not_digits : forall c, c ∈ TITLE_SEPARATORS -> is_decimal c = false.

Lemma title_words_match (w : str) (k : mstate -> option mstate) (sn tl : str)
    (g : gmap nat str) :
  w ∈ TITLE_WORDS ->
  rmatch MULTILINE
    (Alt (word (u8 "Chương")) (Alt (word (u8 "CHƯƠNG")) (word (u8 "chương"))))
    k (MState sn (w ++ tl) g)
  = k (MState (rev w ++ sn) tl g).
Proof.
  intros Hw. unfold TITLE_WORDS in Hw.
  apply elem_of_cons in Hw as [-> | Hw]; [|apply elem_of_cons in Hw as [-> | Hw]];
    [| |apply list_elem_of_singleton in Hw as ->].
  all: cbn [rmatch]; rewrite ?rmatch_word.
  all: repeat match goal with
       | |- context [rmatch MULTILINE (word ?a) ?k' (MState ?sn' (?b ++ ?tl') ?g')] =>
           let E := fresh in
           assert (E : rmatch MULTILINE (word a) k' (MState sn' (b ++ tl') g') = None)
             by (vm_compute; reflexivity);
           rewrite E; clear E
       end.
  all: now destruct (k _).
Qed.

(** The continuation after the title: [(?=\n|$)] fails before any
    character but a newline, and succeeds at the end of a line. *)
Lemma title_end_fails (i : nat) (t : str) (sn' : str) (c : char) (rs' : str)
    (g : gmap nat str) :
  dot c = true ->
  rmatch MULTILINE (Ahead (Alt (Lit LF) Eol)) Some
    (MState sn' (c :: rs') (<[i := t]> g)) = None.
Proof.
  unfold dot. intros Hc. apply negb_true_iff in Hc.
  cbn [rmatch rest]. unfold lit_ok, at_eol. cbn [rest ignorecase MULTILINE andb orb].
  now rewrite Hc.
Qed.

Lemma title_end_ok (post : str) (s : mstate) :
  post = [] \/ (exists p, post = LF :: p) ->
  rest s = post ->
  rmatch MULTILINE (Ahead (Alt (Lit LF) Eol)) Some s = Some s.
Proof.
  intros [-> | (p & ->)] Hs; cbn [rmatch]; rewrite Hs.
  - unfold at_eol. now rewrite Hs.
  - unfold lit_ok. now rewrite N.eqb_refl.
Qed.

(** One attempt of the pattern at the start of a heading line that runs to
    the end of its line. *)
Lemma title_match (w ws1 n ws2 : str) (sep : char) (after_sep : str) (sn post : str) :
  w ∈ TITLE_WORDS ->
  ws1 <> [] -> blank ws1 ->
  (1 <= length n <= 5)%nat -> Forall (fun c => is_decimal c = true) n ->
  blank ws2 ->
  sep ∈ TITLE_SEPARATORS ->
  LF ∉ after_sep -> strip after_sep <> [] ->
  post = [] \/ (exists p, post = LF :: p) ->
  let line := heading_line w ws1 n ws2 sep after_sep in
  rmatch MULTILINE TITLE_PATTERN Some (MState sn (line ++ post) ∅)
  = Some (MState (rev line ++ sn) post
            (<[3%nat := lstrip after_sep]> (<[2%nat := n]> (<[1%nat := w]> ∅)))).
Proof.
  intros Hw Hne1 Hws1 Hlen Hn Hws2 Hsep Hlf Hafter Hpost line.
  assert (Hws : forall c, c ∈ TITLE_SEPARATORS -> is_space c = false).
  { intros c Hc. unfold TITLE_SEPARATORS in Hc.
    repeat (apply elem_of_cons in Hc as [-> | Hc]; [reflexivity|]).
    now apply elem_of_nil in Hc. }
  destruct (lstrip_split after_sep) as (ws3 & Hws3 & Hsplit).
  destruct (lstrip_cases after_sep) as [Hnil | (t0 & t' & Ht & Ht0)].
  { destruct (strip_decompose after_sep) as [(_ & _ & _ & E) | (a & m & b & _ & _ & _ & Hm & E & _)];
      [congruence|].
    rewrite E in Hnil. destruct Hm as [(c & m' & -> & _) _]. discriminate. }
  assert (Hdot : Forall (fun c => dot c = true) (lstrip after_sep)).
  { apply Forall_forall. intros c Hc. unfold dot. apply negb_true_iff, N.eqb_neq.
    intros ->. apply Hlf. rewrite Hsplit. apply elem_of_app. now right. }
  unfold TITLE_PATTERN.
  change (cat_all ?l) with
    (Cat (Grp 1 (Alt (word (u8 "Chương")) (Alt (word (u8 "CHƯƠNG")) (word (u8 "chương")))))
      (Cat (plus ws)
        (Cat (Grp 2 (Rep true is_decimal 1 (Some 5%nat)))
          (Cat (star ws)
            (Cat (Class (one_of TITLE_SEPARATORS))
              (Cat (star ws)
                (Cat (Grp 3 (Rep false dot 1 None))
                     (Ahead (Alt (Lit LF) Eol))))))))).
  assert (Hline : line ++ post
            = w ++ ws1 ++ n ++ ws2 ++ sep :: ws3 ++ lstrip after_sep ++ post).
  { subst line. unfold heading_line. rewrite Hsplit at 1.
    repeat (rewrite <- app_assoc || rewrite <- app_comm_cons). reflexivity. }
  rewrite Hline.
  (* the word *)
  rewrite rmatch_Cat, rmatch_Grp, title_words_match by exact Hw.
  cbn [seen rest groups]. rewrite captured_take.
  (* white space *)
  rewrite rmatch_Cat. unfold plus at 1. rewrite rmatch_Rep. cbn [seen rest groups].
  apply rep_greedy_max; [exact Hws1|destruct ws1; [congruence|simpl; lia]|exact I| |].
  { destruct n as [|d n']; [simpl in Hlen; lia|]. left.
    apply Forall_cons in Hn as [Hd _]. now apply digits_not_space. }
  (* the number *)
  rewrite rmatch_Cat, rmatch_Grp, rmatch_Rep. cbn [seen rest groups].
  apply rep_greedy_max; [exact Hn|lia|lia| |].
  { destruct ws2 as [|c ws2']; simpl.
    - left. now apply separators_not_digits.
    - left. apply Forall_cons in Hws2 as [Hc _].
      destruct (is_decimal c) eqn:E; [|reflexivity].
      apply digits_not_space in E. congruence. }
  cbn [seen rest groups]. rewrite captured_take.
  (* white space, the separator, white space *)
  rewrite rmatch_Cat. unfold star at 1. rewrite rmatch_Rep. cbn [seen rest groups].
  apply rep_greedy_max; [exact Hws2|lia|exact I|left; now apply Hws|].
  rewrite rmatch_Cat, rmatch_Class by (unfold one_of; now apply bool_decide_eq_true_2).
  rewrite rmatch_Cat. unfold star at 1. rewrite rmatch_Rep. cbn [seen rest groups].
  apply rep_greedy_max; [exact Hws3|lia|exact I|rewrite Ht; now left|].
  (* the title, up to the end of the line *)
  rewrite rmatch_Cat, rmatch_Grp, rmatch_Rep. cbn [seen rest groups].
  apply rep_lazy_until; [intros; now apply title_end_fails|exact Hdot|rewrite Ht; simpl; lia|].
  cbn [seen rest groups]. rewrite captured_take.
  rewrite (title_end_ok post) by (exact Hpost || reflexivity).
  f_equal. f_equal.
  subst line. unfold heading_line.
  rewrite Hsplit at 2. rewrite !rev_app_distr. simpl. rewrite !rev_app_distr.
  now rewrite <- !app_assoc.
Qed.

Lemma title_word_nonempty (w : str) : w ∈ TITLE_WORDS -> w <> [].
Proof.
  unfold TITLE_WORDS. intros Hw.
  repeat (apply elem_of_cons in Hw as [-> | Hw]; [discriminate|]).
  now apply elem_of_nil in Hw.
Qed.

(** C4 (amended): take a text in which a line, from some place on, reads:
    one of the words "Chương", "CHƯƠNG", "chương", white space, a number
    of 1 to 5 decimal digits, optional white space, one of the separators
    [:], [：], [-], [–], and a title that is not blank and runs to the end
    of the line; and let no rewrite that starts earlier in the text run
    into it.  Then [normalize_chapter_title] rewrites it to the word as it
    was written, a space, the number, a colon, a space and the trimmed
    title: the output is the text before it with its own rewrites, this
    canonical form, and the text after it with its own rewrites.  (The two
    hypotheses on the digit table say that no decimal digit is white space
    or one of the separators.) *)
Theorem heading_line_rewritten (pre post w ws1 n ws2 : str) (sep : char)
    (after_sep : str) :
  w ∈ TITLE_WORDS ->
  ws1 <> [] -> blank ws1 ->
  (1 <= length n <= 5)%nat -> Forall (fun c => is_decimal c = true) n ->
  blank ws2 ->
  sep ∈ TITLE_SEPARATORS ->
  LF ∉ after_sep -> strip after_sep <> [] ->
  post = [] \/ (exists p, post = LF :: p) ->
  let line := heading_line w ws1 n ws2 sep after_sep in
  let text := pre ++ line ++ post in
  (forall m, m ∈ finditer MULTILINE TITLE_PATTERN text ->
             (m_start m < length pre)%nat -> (m_end m <= length pre)%nat) ->
  exists ms1,
    let ms2 := scan MULTILINE TITLE_PATTERN 0 (rev (pre ++ line)) post in
    (forall m, m ∈ ms1 -> (m_end m <= length pre)%nat) /\
    normalize_chapter_title text
    = subst_upto normalize_heading 0 ms1 (length pre) text
      ++ (w ++ [SP] ++ n ++ u8 ": " ++ strip after_sep)
      ++ subst normalize_heading (length pre + length line) ms2 text.
Proof.
  intros Hw Hne1 Hws1 Hlen Hn Hws2 Hsep Hlf Hafter Hpost line text Hclear.
  pose proof (title_match w ws1 n ws2 sep after_sep (rev pre ++ []) post Hw Hne1 Hws1
                Hlen Hn Hws2 Hsep Hlf Hafter Hpost) as Hm.
  cbv zeta in Hm. fold line in Hm.
  assert (Hline : exists c0 line', line = c0 :: line').
  { apply title_word_nonempty in Hw. subst line. unfold heading_line.
    destruct w as [|c w']; [congruence|]. now eexists _, _. }
  destruct Hline as (c0 & line' & Hline).
  destruct (scan_reach MULTILINE TITLE_PATTERN (line ++ post) (length pre) pre 0 [])
    as (ms1 & Heq & Hms1); [lia|reflexivity|exact Hclear|rewrite Hline; discriminate|].
  exists ms1. cbv zeta. split; [exact Hms1|].
  unfold normalize_chapter_title, re_sub, finditer. fold text.
  subst text. rewrite Heq.
  assert (Hmatch : match_at MULTILINE TITLE_PATTERN (rev pre ++ []) (line ++ post)
            = Some (MkMatch (length pre) (length pre + length line)
                      (<[3%nat := lstrip after_sep]> (<[2%nat := n]> (<[1%nat := w]> ∅))))).
  { unfold match_at. rewrite Hm. cbn [seen groups]. f_equal.
    rewrite !length_app, !length_rev. cbn [length]. f_equal; lia. }
  clearbody line. subst line.
  assert (Hscan : scan MULTILINE TITLE_PATTERN 0 (rev pre ++ []) ((c0 :: line') ++ post)
            = MkMatch (length pre) (length pre + length (c0 :: line'))
                (<[3%nat := lstrip after_sep]> (<[2%nat := n]> (<[1%nat := w]> ∅)))
              :: scan MULTILINE TITLE_PATTERN 0 (rev (pre ++ c0 :: line')) post).
  { cbn [app] in Hmatch |- *. rewrite (scan_match _ _ _ _ _ _ Hmatch).
    cbn [m_start m_end length]. f_equal.
    replace (Nat.pred (length pre + S (length line') - length pre)) with (length line')
      by lia.
    rewrite scan_skip. f_equal.
    rewrite rev_app_distr, app_nil_r. simpl. now rewrite <- !app_assoc. }
  rewrite Hscan, subst_app. cbn [m_start m_end]. f_equal. f_equal.
  unfold normalize_heading, group. cbn [m_groups].
  rewrite lookup_insert_ne, lookup_insert_ne, lookup_insert_eq by discriminate.
  rewrite lookup_insert_ne, lookup_insert_eq by discriminate.
  rewrite lookup_insert_eq. cbn [default from_option id].
  now rewrite strip_lstrip.
Qed.
End TitleMatch.

Lemma latin_digits_not_space (c : char) :
  is_decimal (H := latin_ucd) c = true -> is_space c = false.
Proof.
  unfold is_decimal, decimal, latin_ucd.
  destruct (N.leb_spec 48 c), (N.leb_spec c 57); cbn [andb]; try discriminate.
  intros _. unfold is_space.
  repeat match goal with
         | |- context [(?a <=? ?b)%N] => destruct (N.leb_spec a b); try lia
         | |- context [(?a =? ?b)%N] => destruct (N.eqb_spec a b); try lia
         end.
Qed.

Lemma latin_separators_not_digits (c : char) :
  c ∈ TITLE_SEPARATORS -> is_decimal (H := latin_ucd) c = false.
Proof.
  unfold TITLE_SEPARATORS. intros Hc.
  repeat (apply elem_of_cons in Hc as [-> | Hc]; [reflexivity|]).
  now apply elem_of_nil in Hc.
Qed.

Lemma heading_line_rewritten_witness :
  let pre := u8 "Mở đầu
" in
  let post := u8 "
Nội dung" in
  let line := heading_line (u8 "CHƯƠNG") (u8 " ") (u8 "12") (u8 " ") 45%N (u8 "  Khởi Đầu  ") in
  let text := pre ++ line ++ post in
  exists ms1,
    let ms2 := scan preprocess.MULTILINE (preprocess.TITLE_PATTERN (H := latin_ucd)) 0
                 (rev (pre ++ line)) post in
    (forall m, m ∈ ms1 -> (m_end m <= length pre)%nat) /\
    preprocess.normalize_chapter_title (H := latin_ucd) text
    = subst_upto preprocess.normalize_heading 0 ms1 (length pre) text
      ++ (u8 "CHƯƠNG" ++ [SP] ++ u8 "12" ++ u8 ": " ++ strip (u8 "  Khởi Đầu  "))
      ++ subst preprocess.normalize_heading (length pre + length line) ms2 text.
Proof.
  intros pre post line text.
  apply (heading_line_rewritten (H := latin_ucd)
           latin_digits_not_space latin_separators_not_digits).
  - apply (bool_decide_unpack _). vm_compute. exact I.
  - discriminate.
  - repeat constructor.
  - vm_compute. lia.
  - repeat constructor.
  - repeat constructor.
  - apply (bool_decide_unpack _). vm_compute. exact I.
  - apply (bool_decide_unpack _). vm_compute. exact I.
  - vm_compute. discriminate.
  - right. now eexists.
  - intros m Hm Hs. vm_compute in Hm.
    apply list_elem_of_singleton in Hm. subst m. vm_compute in Hs. lia.
Defined.

(** C4 as stated fails: the word keeps the capitals it was written with
    ("CHƯƠNG 5 - ..." becomes "CHƯƠNG 5: ...", not "Chương 5: ..."); a
    line with the separator [—] is left as it is; and a heading line is
    not rewritten by itself when the line before it ends in a heading
    without a title, whose title it then becomes.  So does the whole of
    [preprocess_text] in the first two cases. *)
Lemma heading_not_canonical :
  preprocess.normalize_chapter_title (H := latin_ucd) (u8 "CHƯƠNG 5 - Khởi Đầu")
    = u8 "CHƯƠNG 5: Khởi Đầu" /\
  preprocess.normalize_chapter_title (H := latin_ucd) (u8 "CHƯƠNG 5 - Khởi Đầu")
    <> u8 "Chương 5: Khởi Đầu" /\
  preprocess.normalize_chapter_title (H := latin_ucd) (u8 "Chương 5 — Khởi Đầu")
    = u8 "Chương 5 — Khởi Đầu" /\
  preprocess.normalize_chapter_title (H := latin_ucd) (u8 "Chương 5 — Khởi Đầu")
    <> u8 "Chương 5: Khởi Đầu" /\
  preprocess.normalize_chapter_title (H := latin_ucd) (u8 "Chương 1:
Chương 2 - Hai")
    = u8 "Chương 1: Chương 2 - Hai" /\
  preprocess.preprocess_text (H := latin_ucd) draw_low (u8 "CHƯƠNG 5 - Khởi Đầu") None
    = u8 "CHƯƠNG 5: Khởi Đầu" /\
  preprocess.preprocess_text (H := latin_ucd) draw_low (u8 "Chương 5 — Khởi Đầu") None
    = u8 "Chương 5 — Khởi Đầu".
Proof.
  repeat split; vm_compute; try reflexivity; discriminate.
Qed.

Section MatcherMeaning.
Variable fl : flags.

Lemma rep_greedy_sound (p : char -> bool) (k : mstate -> option mstate)
    (g : gmap nat str) (m : mstate) (rs : str) :
  forall (lo : nat) (hi : option nat) (sn : str),
    rep_greedy p lo hi k sn rs g = Some m ->
    exists x tl,
      rs = x ++ tl /\ Forall (fun c => p c = true) x /\ (lo <= length x)%nat /\
      hi_ok hi (length x) /\ k (MState (rev x ++ sn) tl g) = Some m.
Proof.
  induction rs as [|c rs IH]; intros lo hi sn E.
  - simpl in E. destruct lo; [|discriminate].
    exists [], []. repeat split; [constructor|lia|destruct hi; simpl; lia|exact E].
  - cbn [rep_greedy] in E.
    assert (Hstop : match lo with O => k (MState sn (c :: rs) g) | S _ => None end = Some m ->
      exists x tl,
        c :: rs = x ++ tl /\ Forall (fun c => p c = true) x /\ (lo <= length x)%nat /\
        hi_ok hi (length x) /\ k (MState (rev x ++ sn) tl g) = Some m).
    { intros E'. destruct lo; [|discriminate].
      exists [], (c :: rs). repeat split; [constructor|lia|destruct hi; simpl; lia|exact E']. }
    destruct (p c) eqn:Hc; [|now apply Hstop].
    destruct (hi_pos hi) eqn:Hpos; [|now apply Hstop].
    cbn [andb] in E.
    destruct (rep_greedy p (Nat.pred lo) (hi_pred hi) k (c :: sn) rs g) as [m'|] eqn:E';
      [|now apply Hstop].
    injection E as ->.
    apply IH in E' as (x & tl & -> & Hall & Hlo & Hhi & Hk).
    exists (c :: x), tl. repeat split.
    + now constructor.
    + simpl. lia.
    + destruct hi as [[|h]|]; simpl in *; [discriminate|lia|exact I].
    + rewrite <- Hk. f_equal. f_equal. simpl. now rewrite <- app_assoc.
Qed.

Lemma rep_greedy_complete (p : char -> bool) (k : mstate -> option mstate)
    (g : gmap nat str) (tl x : str) :
  forall (lo : nat) (hi : option nat) (sn : str),
    Forall (fun c => p c = true) x -> (lo <= length x)%nat ->
    hi_ok hi (length x) ->
    is_Some (k (MState (rev x ++ sn) tl g)) ->
    is_Some (rep_greedy p lo hi k sn (x ++ tl) g).
Proof.
  induction x as [|c x IH]; intros lo hi sn Hall Hlo Hhi Hk.
  - simpl in *. assert (lo = 0%nat) as -> by lia.
    destruct tl as [|c tl]; simpl; [exact Hk|].
    destruct (p c && hi_pos hi); [|exact Hk].
    destruct (rep_greedy p 0 (hi_pred hi) k (c :: sn) tl g); [eauto|exact Hk].
  - apply Forall_cons in Hall as [Hc Hall]. simpl in Hlo.
    cbn [app rep_greedy]. rewrite Hc.
    assert (Hpos : hi_pos hi = true).
    { destruct hi as [[|h]|]; simpl in *; [lia|reflexivity|reflexivity]. }
    rewrite Hpos. cbn [andb].
    destruct (IH (Nat.pred lo) (hi_pred hi) (c :: sn)) as [m Hm]; [exact Hall|lia| | |].
    + destruct hi as [h|]; simpl in *; [lia|exact I].
    + replace (rev x ++ c :: sn) with (rev (c :: x) ++ sn); [exact Hk|].
      simpl. now rewrite <- app_assoc.
    + rewrite Hm. eauto.
Qed.

Lemma rep_lazy_sound (p : char -> bool) (k : mstate -> option mstate)
    (g : gmap nat str) (m : mstate) (rs : str) :
  forall (lo : nat) (hi : option nat) (sn : str),
    rep_lazy p lo hi k sn rs g = Some m ->
    exists x tl,
      rs = x ++ tl /\ Forall (fun c => p c = true) x /\ (lo <= length x)%nat /\
      hi_ok hi (length x) /\ k (MState (rev x ++ sn) tl g) = Some m.
Proof.
  induction rs as [|c rs IH]; intros lo hi sn E.
  - simpl in E. destruct lo; [|discriminate].
    destruct (k (MState sn [] g)) eqn:Ek; [|discriminate]. injection E as ->.
    exists [], []. repeat split; [constructor|lia|destruct hi; simpl; lia|exact Ek].
  - cbn [rep_lazy] in E.
    assert (Hmore :
      (if p c && hi_pos hi
       then rep_lazy p (Nat.pred lo) (hi_pred hi) k (c :: sn) rs g else None) = Some m ->
      exists x tl,
        c :: rs = x ++ tl /\ Forall (fun c => p c = true) x /\ (lo <= length x)%nat /\
        hi_ok hi (length x) /\ k (MState (rev x ++ sn) tl g) = Some m).
    { intros E'. destruct (p c) eqn:Hc; [|discriminate].
      destruct (hi_pos hi) eqn:Hpos; [|discriminate]. cbn [andb] in E'.
      apply IH in E' as (x & tl & -> & Hall & Hlo & Hhi & Hk).
      exists (c :: x), tl. repeat split.
      + now constructor.
      + simpl. lia.
      + destruct hi as [[|h]|]; simpl in *; [discriminate|lia|exact I].
      + rewrite <- Hk. f_equal. f_equal. simpl. now rewrite <- app_assoc. }
    destruct lo; [|now apply Hmore].
    destruct (k (MState sn (c :: rs) g)) eqn:Ek; [|now apply Hmore].
    injection E as ->.
    exists [], (c :: rs). repeat split; [constructor|lia|destruct hi; simpl; lia|exact Ek].
Qed.

Lemma rep_lazy_complete (p : char -> bool) (k : mstate -> option mstate)
    (g : gmap nat str) (tl x : str) :
  forall (lo : nat) (hi : option nat) (sn : str),
    Forall (fun c => p c = true) x -> (lo <= length x)%nat ->
    hi_ok hi (length x) ->
    is_Some (k (MState (rev x ++ sn) tl g)) ->
    is_Some (rep_lazy p lo hi k sn (x ++ tl) g).
Proof.
  induction x as [|c x IH]; intros lo hi sn Hall Hlo Hhi Hk.
  - simpl in *. assert (lo = 0%nat) as -> by lia.
    destruct Hk as [m Hm]. destruct tl as [|c tl]; simpl; rewrite Hm; eauto.
  - apply Forall_cons in Hall as [Hc Hall]. simpl in Hlo.
    cbn [app rep_lazy]. rewrite Hc.
    assert (Hpos : hi_pos hi = true).
    { destruct hi as [[|h]|]; simpl in *; [lia|reflexivity|reflexivity]. }
    rewrite Hpos. cbn [andb].
    destruct (IH (Nat.pred lo) (hi_pred hi) (c :: sn)) as [m Hm]; [exact Hall|lia| | |].
    + destruct hi as [h|]; simpl in *; [lia|exact I].
    + replace (rev x ++ c :: sn) with (rev (c :: x) ++ sn); [exact Hk|].
      simpl. now rewrite <- app_assoc.
    + rewrite Hm. destruct lo; [|eauto].
      destruct (k (MState sn (c :: x ++ tl) g)); eauto.
Qed.

(** The matcher finds only what the pattern can match ... *)
Lemma rmatch_sound (r : regex) :
  forall (k : mstate -> option mstate) (s m : mstate),
    rmatch fl r k s = Some m ->
    exists s', reaches fl r s s' /\ k s' = Some m.
Proof.
  induction r as [|c|p|r1 IH1 r2 IH2|r1 IH1 r2 IH2|greedy p lo hi|r1 IH1|i r1 IH1| | |r1 IH1|p];
    intros k s m E; cbn [rmatch] in E; cbn [reaches].
  - eauto.
  - destruct (rest s) as [|x tl] eqn:Hr; [discriminate|].
    destruct (lit_ok fl c x) eqn:Hx; [|discriminate]. eauto 10.
  - destruct (rest s) as [|x tl] eqn:Hr; [discriminate|].
    destruct (p x) eqn:Hx; [|discriminate]. eauto 10.
  - apply IH1 in E as (s1 & H1 & E). apply IH2 in E as (s2 & H2 & E). eauto.
  - destruct (rmatch fl r1 k s) as [m1|] eqn:E1.
    + injection E as ->. apply IH1 in E1 as (s1 & H1 & E1). eauto.
    + apply IH2 in E as (s2 & H2 & E). eauto.
  - destruct s as [sn rs g]. cbn [seen rest groups] in *.
    destruct greedy.
    + apply rep_greedy_sound in E as (x & tl & -> & Hall & Hlo & Hhi & Hk). eauto 10.
    + apply rep_lazy_sound in E as (x & tl & -> & Hall & Hlo & Hhi & Hk). eauto 10.
  - destruct (rmatch fl r1 k s) as [m1|] eqn:E1.
    + injection E as ->. apply IH1 in E1 as (s1 & H1 & E1). eauto.
    + eauto.
  - apply IH1 in E as (s1 & H1 & E). eauto.
  - destruct (at_bol fl s) eqn:Hb; [|discriminate]. eauto.
  - destruct (at_eol fl s) eqn:Hb; [|discriminate]. eauto.
  - destruct (rmatch fl r1 Some s) as [m1|] eqn:E1; [|discriminate].
    apply IH1 in E1 as (s1 & H1 & _). eauto.
  - destruct (seen s) as [|c sn] eqn:Hs; [discriminate|].
    destruct (p c) eqn:Hc; [|discriminate]. eauto 10.
Qed.

(** ... and whenever the pattern can match and the rest of the pattern
    can go on from there, the matcher finds a match. *)
Lemma rmatch_complete (r : regex) :
  forall (k : mstate -> option mstate) (s s' : mstate),
    reaches fl r s s' -> is_Some (k s') -> is_Some (rmatch fl r k s).
Proof.
  induction r as [|c|p|r1 IH1 r2 IH2|r1 IH1 r2 IH2|greedy p lo hi|r1 IH1|i r1 IH1| | |r1 IH1|p];
    intros k s s' H Hk; cbn [rmatch]; cbn [reaches] in H.
  - now subst.
  - destruct H as (x & tl & -> & -> & ->). exact Hk.
  - destruct H as (x & tl & -> & -> & ->). exact Hk.
  - destruct H as (s1 & H1 & H2). eapply IH1; [exact H1|]. eapply IH2; eauto.
  - destruct (rmatch fl r1 k s) eqn:E1; [eauto|].
    destruct H as [H1 | H2]; [|eapply IH2; eauto].
    apply (IH1 k) in H1; [|exact Hk]. rewrite E1 in H1. now destruct H1.
  - destruct H as (x & tl & Hr & Hall & Hlo & Hhi & ->). rewrite Hr.
    destruct greedy; [now apply rep_greedy_complete|now apply rep_lazy_complete].
  - destruct (rmatch fl r1 k s) eqn:E1; [eauto|].
    destruct H as [H1 | ->]; [|exact Hk].
    apply (IH1 k) in H1; [|exact Hk]. rewrite E1 in H1. now destruct H1.
  - destruct H as (s1 & H1 & ->). eapply IH1; [exact H1|]. exact Hk.
  - destruct H as [-> ->]. exact Hk.
  - destruct H as [-> ->]. exact Hk.
  - destruct H as [(s1 & H1) ->].
    destruct (IH1 Some s s1 H1) as [m Hm]; [eauto|]. now rewrite Hm.
  - destruct H as [(c & sn & -> & ->) ->]. exact Hk.
Qed.

(** Matching moves forward in the subject. *)
Lemma reaches_ahead (r : regex) :
  forall s s', reaches fl r s s' -> exists x, ahead_by x s s'.
Proof.
  unfold ahead_by.
  induction r as [|c|p|r1 IH1 r2 IH2|r1 IH1 r2 IH2|greedy p lo hi|r1 IH1|i r1 IH1| | |r1 IH1|p];
    intros s s' H; cbn [reaches] in H.
  - subst. now exists [].
  - destruct H as (x & tl & Hr & _ & ->). exists [x]. now rewrite Hr.
  - destruct H as (x & tl & Hr & _ & ->). exists [x]. now rewrite Hr.
  - destruct H as (s1 & H1 & H2).
    apply IH1 in H1 as (x1 & Hs1 & Hr1). apply IH2 in H2 as (x2 & Hs2 & Hr2).
    exists (x1 ++ x2). rewrite Hs2, Hs1, Hr1, Hr2, rev_app_distr.
    now rewrite <- !app_assoc.
  - destruct H as [H | H]; eauto.
  - destruct H as (x & tl & Hr & _ & _ & _ & ->). exists x. now rewrite Hr.
  - destruct H as [H | ->]; [eauto|now exists []].
  - destruct H as (s1 & H1 & ->). apply IH1 in H1 as (x & Hs & Hr). now exists x.
  - destruct H as [_ ->]. now exists [].
  - destruct H as [_ ->]. now exists [].
  - destruct H as [_ ->]. now exists [].
  - destruct H as [_ ->]. now exists [].
Qed.

End MatcherMeaning.

Section ScanLemmas.
Variable fl : flags.

Lemma match_at_sound (r : regex) (sn rs : str) (m : Match) :
  match_at fl r sn rs = Some m ->
  exists s',
    reaches fl r (MState sn rs ∅) s' /\
    m = MkMatch (length sn) (length (seen s')) (groups s').
Proof.
  unfold match_at. intros E.
  destruct (rmatch fl r Some (MState sn rs ∅)) as [s'|] eqn:Er; [|discriminate].
  injection E as <-.
  apply rmatch_sound in Er as (s1 & H1 & [= ->]). eauto.
Qed.

Lemma match_at_is_Some (r : regex) (sn rs : str) :
  is_Some (match_at fl r sn rs) <-> exists s', reaches fl r (MState sn rs ∅) s'.
Proof.
  split.
  - intros [m Hm]. apply match_at_sound in Hm as (s' & H & _). eauto.
  - intros [s' H]. unfold match_at.
    destruct (rmatch_complete fl r Some _ _ H) as [m Hm]; [eauto|].
    rewrite Hm. eauto.
Qed.

(** A match found at a position starts there and ends at or after it,
    within the subject. *)
Lemma match_at_span (r : regex) (sn rs : str) (m : Match) :
  match_at fl r sn rs = Some m ->
  m_start m = length sn /\
  exists x tl, rs = x ++ tl /\ m_end m = (length sn + length x)%nat.
Proof.
  intros E. apply match_at_sound in E as (s' & H & ->).
  apply reaches_ahead in H as (x & Hs & Hr). cbn [seen rest] in *.
  split; [reflexivity|]. exists x, (rest s'). split; [exact Hr|].
  cbn [m_end]. rewrite Hs, length_app, length_rev. lia.
Qed.

Lemma in_order_weaken (stop : nat) (ms : list Match) (pos pos' : nat) :
  (pos <= pos')%nat -> in_order pos' stop ms -> in_order pos stop ms.
Proof. destruct ms as [|m ms]; simpl; [auto|]. intros Hle (H1 & H2 & H3). repeat split; auto; lia. Qed.

(** [finditer] gives its matches from left to right without overlap. *)
Lemma scan_in_order (r : regex) (rs : str) :
  forall (skip : nat) (sn : str),
    in_order (length sn + skip) (length sn + length rs) (scan fl r skip sn rs).
Proof.
  induction rs as [|c rs IH]; intros skip sn.
  - destruct skip; simpl; [|exact I].
    destruct (match_at fl r sn []) as [m|] eqn:E; simpl; [|exact I].
    apply match_at_span in E as (Hs & x & tl & Hx & He).
    symmetry in Hx. apply app_eq_nil in Hx as [-> ->]. simpl in *. repeat split; auto; lia.
  - destruct skip as [|k]; cbn [scan].
    + destruct (match_at fl r sn (c :: rs)) as [m|] eqn:E.
      * apply match_at_span in E as (Hs & x & tl & Hx & He).
        assert (Hlen : (length x <= length (c :: rs))%nat).
        { rewrite Hx, length_app. lia. }
        cbn [in_order]. repeat split; [lia|lia|lia|].
        eapply in_order_weaken; [|replace (length sn + length (c :: rs))%nat
          with (length (c :: sn) + length rs)%nat by (simpl; lia); apply IH].
        simpl. lia.
      * eapply in_order_weaken; [|replace (length sn + length (c :: rs))%nat
          with (length (c :: sn) + length rs)%nat by (simpl; lia); apply IH].
        simpl. lia.
    + replace (length sn + S k)%nat with (length (c :: sn) + k)%nat by (simpl; lia).
      replace (length sn + length (c :: rs))%nat
        with (length (c :: sn) + length rs)%nat by (simpl; lia).
      apply IH.
Qed.

Lemma finditer_in_order (r : regex) (text : str) :
  in_order 0 (length text) (finditer fl r text).
Proof. apply (scan_in_order r text 0 []). Qed.

(** Every match that [finditer] gives is what one attempt at its
    position finds. *)
Lemma scan_sound (r : regex) (m : Match) (rs : str) :
  forall (skip : nat) (sn : str),
    m ∈ scan fl r skip sn rs ->
    exists sn' rs', rev sn' ++ rs' = rev sn ++ rs /\ match_at fl r sn' rs' = Some m.
Proof.
  induction rs as [|c rs IH]; intros skip sn Hm.
  - destruct skip; simpl in Hm; [|now apply elem_of_nil in Hm].
    destruct (match_at fl r sn []) as [m'|] eqn:E; [|now apply elem_of_nil in Hm].
    apply list_elem_of_singleton in Hm as ->. eauto.
  - assert (Hnext : forall k, m ∈ scan fl r k (c :: sn) rs ->
      exists sn' rs', rev sn' ++ rs' = rev sn ++ c :: rs /\ match_at fl r sn' rs' = Some m).
    { intros k Hk. apply IH in Hk as (sn' & rs' & Heq & Hk).
      exists sn', rs'. split; [|exact Hk].
      rewrite Heq. simpl. now rewrite <- app_assoc. }
    destruct skip as [|k]; cbn [scan] in Hm; [|eauto].
    destruct (match_at fl r sn (c :: rs)) as [m'|] eqn:E; [|eauto].
    apply elem_of_cons in Hm as [-> | Hm]; eauto.
Qed.

Lemma slice_nil (i : nat) (s : str) : slice i i s = [].
Proof. unfold slice. now rewrite Nat.sub_diag. Qed.

Lemma subst_shift (repl : Match -> str) (text : str) (c : char) (stop : nat)
    (ms : list Match) (pos : nat) :
  text !! pos = Some c ->
  in_order (S pos) stop ms ->
  subst repl pos ms text = c :: subst repl (S pos) ms text.
Proof.
  intros Hc Hord.
  assert (Hd : drop pos text = c :: drop (S pos) text).
  { now apply drop_S. }
  destruct ms as [|m ms]; cbn [subst]; [exact Hd|].
  destruct Hord as (Hs & _ & _). unfold slice. rewrite Hd.
  replace (m_start m - pos)%nat with (S (m_start m - S pos)) by lia.
  reflexivity.
Qed.

(** [re.sub] copies the subject from left to right and puts the
    replacement in the place of each match. *)
Lemma subst_scan (r : regex) (repl : Match -> str) (rs : str) :
  forall (skip : nat) (sn : str),
    (skip <= length rs)%nat ->
    subst repl (length sn + skip) (scan fl r skip sn rs) (rev sn ++ rs)
    = sub_go fl r repl skip sn rs.
Proof.
  induction rs as [|c rs IH]; intros skip sn Hskip.
  - simpl in Hskip. assert (skip = 0%nat) as -> by lia. cbn [scan sub_go].
    rewrite Nat.add_0_r, app_nil_r.
    assert (Hd : drop (length sn) (rev sn) = []).
    { apply drop_ge. now rewrite length_rev. }
    destruct (match_at fl r sn []) as [m|] eqn:E; cbn [subst]; [|exact Hd].
    apply match_at_span in E as (Hs & x & tl & Hx & He).
    symmetry in Hx. apply app_eq_nil in Hx as [-> ->]. simpl in He.
    rewrite Hs, slice_nil. replace (m_end m) with (length sn) by lia.
    now rewrite Hd, app_nil_r.
  - assert (Htext : rev sn ++ c :: rs = rev (c :: sn) ++ rs).
    { simpl. now rewrite <- app_assoc. }
    assert (Hc : (rev sn ++ c :: rs) !! length sn = Some c).
    { rewrite lookup_app_r by (rewrite length_rev; lia).
      rewrite length_rev, Nat.sub_diag. reflexivity. }
    destruct skip as [|k]; cbn [scan sub_go].
    + rewrite Nat.add_0_r.
      destruct (match_at fl r sn (c :: rs)) as [m|] eqn:E.
      * apply match_at_span in E as (Hs & x & tl & Hx & He).
        cbn [subst]. rewrite Hs, slice_nil. cbn [app]. f_equal.
        assert (Hlen : (length x <= S (length rs))%nat).
        { apply (f_equal (@length N)) in Hx. rewrite length_app in Hx. simpl in Hx. lia. }
        destruct (Nat.eqb_spec (m_end m) (length sn)) as [Heq | Hne].
        -- rewrite Heq, Nat.sub_diag. cbn [Nat.pred].
           rewrite (subst_shift repl _ c (length (c :: sn) + length rs)); [|exact Hc|].
           ++ cbn [app]. f_equal. rewrite Htext.
              rewrite <- (IH 0%nat (c :: sn)) by lia. f_equal. simpl. lia.
           ++ eapply in_order_weaken; [|apply scan_in_order]. simpl. lia.
        -- cbn [app]. rewrite Htext.
           rewrite <- (IH (Nat.pred (m_end m - length sn)) (c :: sn)) by lia.
           f_equal. simpl. lia.
      * rewrite (subst_shift repl _ c (length (c :: sn) + length rs)); [|exact Hc|].
        -- f_equal. rewrite Htext. rewrite <- (IH 0%nat (c :: sn)) by lia.
           f_equal. simpl. lia.
        -- eapply in_order_weaken; [|apply scan_in_order]. simpl. lia.
    + simpl in Hskip. rewrite Htext. rewrite <- (IH k (c :: sn)) by lia.
      f_equal. simpl. lia.
Qed.

Lemma re_sub_sub_go (r : regex) (repl : Match -> str) (text : str) :
  re_sub fl r repl text = sub_go fl r repl 0 [] text.
Proof.
  unfold re_sub, finditer.
  now rewrite <- (subst_scan r repl text 0 []) by lia.
Qed.

Lemma sub_go_skip (r : regex) (repl : Match -> str) (x l : str) :
  forall sn, sub_go fl r repl (length l) sn (l ++ x) = sub_go fl r repl 0 (rev l ++ sn) x.
Proof.
  induction l as [|c l IH]; intros sn; [reflexivity|].
  cbn [length app sub_go]. rewrite IH. simpl. now rewrite <- app_assoc.
Qed.

End ScanLemmas.

(* ================================================================== *)
(** * preprocess.py: line ends and the loop over the lines *)
(* ================================================================== *)

Section LineEnds.
Import preprocess.

Lemma replace_one_gone (c d : char) (s : str) : c <> d -> c ∉ replace [c] [d] s.
Proof.
  intros Hcd. unfold replace. induction s as [|x s IH]; [apply not_elem_of_nil|].
  cbn [replace_go starts_with length Nat.pred].
  destruct (N.eqb_spec c x) as [<- | Hx]; cbn [andb app].
  - apply not_elem_of_cons. split; [exact Hcd|exact IH].
  - apply not_elem_of_cons. split; [exact Hx|exact IH].
Qed.

Lemma replace_absent (c : char) (old' new s : str) :
  c ∉ s -> replace (c :: old') new s = s.
Proof.
  unfold replace. induction s as [|x s IH]; [reflexivity|]. intros Hc.
  apply not_elem_of_cons in Hc as [Hx Hc].
  cbn [replace_go starts_with].
  destruct (N.eqb_spec c x) as [-> | _]; [congruence|]. cbn [andb].
  now rewrite IH.
Qed.

(** X1: [normalize_newlines] leaves no carriage return in the text, and a
    text without carriage returns is left as it is; so normalising twice
    is the same as normalising once. *)
Theorem normalize_newlines_unix (text : str) :
  (CR ∉ normalize_newlines text) /\
  (CR ∉ text -> normalize_newlines text = text) /\
  normalize_newlines (normalize_newlines text) = normalize_newlines text.
Proof.
  assert (Hgone : forall t, CR ∉ normalize_newlines t).
  { intros t. apply replace_one_gone. discriminate. }
  assert (Hsame : forall t, CR ∉ t -> normalize_newlines t = t).
  { intros t Ht. unfold normalize_newlines.
    rewrite (replace_absent CR [LF] [LF] t Ht). now apply replace_absent. }
  auto.
Qed.
End LineEnds.

Section LineLoop.
Import preprocess.
Context `{UCD}.
Variable repeating_lines : gset str.

Local Abbreviation kept := (kept_lines repeating_lines).

Lemma kept_lines_snoc (l : list str) (e : str) :
  kept l -> trimmed e -> is_page_number_line e = false -> e ∉ repeating_lines ->
  kept (l ++ [e]).
Proof.
  intros (Hall & Hhd & Hrun) He Hp Hr. split; [|split].
  - apply Forall_app. split; [exact Hall|].
    constructor; [right; split; [exact He|split; [exact Hp|exact Hr]]|constructor].
  - intros b E. destruct l as [|x l]; simpl in E.
    + injection E as -> _. now apply trimmed_nonempty in He.
    + injection E as -> _. now apply (Hhd l).
  - intros a b E.
    destruct b as [|y b _] using rev_ind.
    + change (a ++ [[]; []] ++ []) with (a ++ [[]; []]) in E.
      replace (a ++ [[]; []]) with ((a ++ [[]]) ++ [[]]) in E by now rewrite <- app_assoc.
      apply app_inj_tail in E as [_ ->]. now apply trimmed_nonempty in He.
    + replace (a ++ [[]; []] ++ b ++ [y]) with ((a ++ [[]; []] ++ b) ++ [y]) in E
        by now rewrite <- !app_assoc.
      apply app_inj_tail in E as [E _]. now apply (Hrun a b).
Qed.

Lemma kept_lines_blank (l : list str) : kept l -> kept (keep_blank l).
Proof.
  intros Hk. unfold keep_blank.
  destruct (last l) as [x|] eqn:Hlast; [|exact Hk].
  destruct (is_empty (strip x)) eqn:Hx; [exact Hk|].
  destruct Hk as (Hall & Hhd & Hrun).
  apply last_Some in Hlast as (l' & ->).
  assert (Hx' : x <> []) by (intros ->; discriminate).
  split; [|split].
  - apply Forall_app. split; [exact Hall|].
    constructor; [now left|constructor].
  - intros b E. destruct l' as [|y l']; simpl in E.
    + injection E as E _. congruence.
    + injection E as -> _. now apply (Hhd (l' ++ [x])).
  - intros a b E.
    destruct b as [|y b _] using rev_ind.
    + change (a ++ [[]; []] ++ []) with (a ++ [[]; []]) in E.
      replace (a ++ [[]; []]) with ((a ++ [[]]) ++ [[]]) in E by now rewrite <- app_assoc.
      apply app_inj_tail in E as [E _]. apply app_inj_tail in E as [_ E]. congruence.
    + replace (a ++ [[]; []] ++ b ++ [y]) with ((a ++ [[]; []] ++ b) ++ [y]) in E
        by now rewrite <- !app_assoc.
      apply app_inj_tail in E as [E _]. now apply (Hrun a b).
Qed.

Lemma process_lines_kept (rest : list str) :
  forall (line : str) (processed_lines : list str),
    kept processed_lines ->
    kept (process_lines repeating_lines line rest processed_lines).
Proof.
  induction rest as [|next_line rest IH]; intros line processed Hk; cbn [process_lines].
  - destruct (is_page_number_line (strip line)) eqn:Hp; [exact Hk|].
    destruct (bool_decide (strip line ∈ repeating_lines)) eqn:Hr; [exact Hk|].
    apply bool_decide_eq_false in Hr.
    destruct (is_empty (strip line)) eqn:He; [now apply kept_lines_blank|].
    apply kept_lines_snoc; auto. now apply strip_nonempty_trimmed.
  - destruct (is_page_number_line (strip line)) eqn:Hp; [now apply IH|].
    destruct (bool_decide (strip line ∈ repeating_lines)) eqn:Hr; [now apply IH|].
    apply bool_decide_eq_false in Hr.
    destruct (is_empty (strip line)) eqn:He; [now apply IH, kept_lines_blank|].
    destruct (should_join_lines line next_line
              && negb (is_page_number_line (strip next_line))); [now apply IH|].
    apply IH, kept_lines_snoc; auto. now apply strip_nonempty_trimmed.
Qed.

(** X6: the lines that the loop of [preprocess_text] keeps: each is empty,
    or it is trimmed, is not a page-number line and is not one of the
    repeating lines; the first is not empty, and no two empty ones follow
    one another. *)
Theorem process_lines_clean (line : str) (rest : list str) :
  let processed_lines := process_lines repeating_lines line rest [] in
  Forall (fun e => e = [] \/
                   (trimmed e /\ is_page_number_line e = false /\
                    e ∉ repeating_lines)) processed_lines /\
  (forall b, processed_lines <> [] :: b) /\
  (forall a b, processed_lines <> a ++ [[]; []] ++ b).
Proof.
  apply process_lines_kept. split; [constructor|]. split.
  - discriminate.
  - intros [|x a] b; discriminate.
Qed.

End LineLoop.

Section WordLemmas.
Variable fl : flags.

Lemma reaches_word (w : str) :
  forall s s',
    reaches fl (word w) s s' <->
    exists x tl,
      rest s = x ++ tl /\ Forall2 (fun c y => lit_ok fl c y = true) w x /\
      s' = MState (rev x ++ seen s) tl (groups s).
Proof.
  induction w as [|c w IH]; intros s s'.
  - cbn [word reaches]. split.
    + intros ->. exists [], (rest s). destruct s. repeat split. constructor.
    + intros (x & tl & Hr & Hx & ->). apply Forall2_nil_inv_l in Hx as ->.
      simpl in Hr. subst tl. now destruct s.
  - assert (Hone : (exists x tl, rest s = x :: tl /\ lit_ok fl c x = true /\ s' = step s x tl) <->
                   exists x tl, rest s = x ++ tl /\
                     Forall2 (fun c y => lit_ok fl c y = true) [c] x /\
                     s' = MState (rev x ++ seen s) tl (groups s)).
    { split.
      - intros (x & tl & Hr & Hx & ->). exists [x], tl. repeat split; [exact Hr|].
        now repeat constructor.
      - intros (x & tl & Hr & Hx & ->).
        apply Forall2_cons_inv_l in Hx as (y & x' & Hy & Hx & ->).
        apply Forall2_nil_inv_l in Hx as ->. exists y, tl. now repeat split. }
    destruct w as [|c' w']; [exact Hone|].
    change (word (c :: c' :: w')) with (Cat (Lit c) (word (c' :: w'))).
    cbn [reaches]. split.
    + intros (s1 & (y & tl1 & Hr & Hy & ->) & H2).
      apply IH in H2 as (x & tl & Hr2 & Hx & ->). cbn [step seen rest groups] in *.
      exists (y :: x), tl. repeat split.
      * rewrite Hr, Hr2. reflexivity.
      * now constructor.
      * simpl. now rewrite <- app_assoc.
    + intros (x & tl & Hr & Hx & ->).
      apply Forall2_cons_inv_l in Hx as (y & x' & Hy & Hx & ->).
      exists (step s y (x' ++ tl)). split; [exists y, (x' ++ tl); now repeat split|].
      apply IH. exists x', tl. cbn [step seen rest groups]. repeat split; [exact Hx|].
      simpl. now rewrite <- app_assoc.
Qed.
End WordLemmas.

Lemma lit_ok_ignorecase (c y : char) :
  lit_ok (Flags true false) c y = true <-> y = c \/ y = other_case c.
Proof.
  unfold lit_ok. cbn [ignorecase andb].
  rewrite orb_true_iff, !N.eqb_eq. tauto.
Qed.

Lemma strip_lead_blank (line x r : str) :
  strip line = x ++ r -> blank x -> x = [].
Proof.
  intros E Hx. destruct (strip_cases line) as [Hn | [(c & s' & Hc & Hsp) _]].
  - rewrite Hn in E. symmetry in E. now apply app_eq_nil in E as [-> _].
  - destruct x as [|y x]; [reflexivity|].
    rewrite Hc in E. injection E as -> _. apply Forall_cons in Hx as [Hy _]. congruence.
Qed.

Lemma strip_trail_blank (line r x : str) :
  strip line = r ++ x -> blank x -> x = [].
Proof.
  intros E Hx. destruct (strip_cases line) as [Hn | [_ (c & s' & Hc & Hsp)]].
  - rewrite Hn in E. symmetry in E. now apply app_eq_nil in E as [_ ->].
  - destruct x as [|y x _] using rev_ind; [reflexivity|].
    rewrite E, app_assoc, rev_app_distr in Hc. simpl in Hc. injection Hc as -> _.
    apply Forall_app in Hx as [_ Hy]. apply Forall_cons in Hy as [Hy _]. congruence.
Qed.

Lemma at_eol_no_flags_blank (fl : flags) (s : mstate) :
  at_eol fl s = true -> multiline fl = false -> blank (rest s).
Proof.
  unfold at_eol. destruct (rest s) as [|c tl]; [constructor|].
  intros E Hm. rewrite Hm in E. apply andb_true_iff in E as [Ec Et]. cbn [orb] in Et.
  apply N.eqb_eq in Ec as ->. destruct tl; [|discriminate]. now repeat constructor.
Qed.

Lemma same_letters_lit_ok (w x : str) :
  Forall2 (fun c y => lit_ok (Flags true false) c y = true) w x <-> same_letters w x.
Proof.
  unfold same_letters. split; intros Hx; eapply Forall2_impl; eauto;
    intros c y; apply lit_ok_ignorecase.
Qed.

Lemma blank_app (a b : str) : blank a -> blank b -> blank (a ++ b).
Proof. intros Ha Hb. apply Forall_app. now split. Qed.

Section HeadingShape.
Import preprocess.
Context `{UCD}.

(** A line of the heading shape passes the test. *)
Lemma heading_shape_accepted (line w ws1 n ws2 tail : str) :
  strip line = w ++ ws1 ++ n ++ ws2 ++ tail ->
  same_letters (u8 "chương") w ->
  blank ws1 -> ws1 <> [] ->
  decimals n -> (1 <= length n <= 5)%nat ->
  blank ws2 ->
  (tail = [] \/ exists c t, tail = c :: t /\ c ∈ u8 ":：.-–—") ->
  is_chapter_heading line = true.
Proof.
  intros Ht Hw Hws1 Hne Hn Hlen Hws2 Htail.
  unfold is_chapter_heading. cbv zeta.
  rewrite bool_decide_eq_true. unfold re_match. rewrite match_at_is_Some.
  unfold HEADING_PATTERN, star, plus. cbn [cat_all reaches].
  rewrite Ht.
  exists (match tail with
          | [] => MState (rev ws2 ++ rev n ++ rev ws1 ++ rev w ++ rev [] ++ []) [] ∅
          | c :: t =>
              MState (c :: rev ws2 ++ rev n ++ rev ws1 ++ rev w ++ rev [] ++ []) t ∅
          end).
  eexists. split; [split; reflexivity|].
  eexists. split.
  { exists [], (w ++ ws1 ++ n ++ ws2 ++ tail). cbn [rest seen groups].
    repeat split; [constructor|simpl; lia]. }
  eexists. split.
  { apply reaches_word. exists w, (ws1 ++ n ++ ws2 ++ tail). cbn [rest seen groups].
    split; [reflexivity|]. split; [now apply same_letters_lit_ok|reflexivity]. }
  eexists. split.
  { exists ws1, (n ++ ws2 ++ tail). cbn [rest seen groups].
    repeat split; [exact Hws1|destruct ws1; [congruence|simpl; lia]]. }
  eexists. split.
  { exists n, (ws2 ++ tail). cbn [rest seen groups].
    repeat split; [exact Hn|lia|simpl; lia]. }
  eexists. split.
  { exists ws2, tail. cbn [rest seen groups].
    repeat split; [exact Hws2|lia]. }
  destruct Htail as [-> | (c & t & -> & Hc)].
  + right. split; reflexivity.
  + left. exists c, t. cbn [rest]. split; [reflexivity|].
    split; [now apply bool_decide_eq_true|reflexivity].
Qed.

(** A line that passes the test has the heading shape. *)
Lemma heading_accepted_shape (line : str) :
  is_chapter_heading line = true -> heading_like line.
Proof.
  unfold is_chapter_heading. cbv zeta.
  rewrite bool_decide_eq_true. unfold re_match. rewrite match_at_is_Some.
  unfold HEADING_PATTERN, star, plus. cbn [cat_all reaches].
  intros (s' & s1 & [_ ->] & s2 & (x0 & tl0 & Hr0 & Hx0 & _ & _ & ->)
          & s3 & Hw & s4 & (x2 & tl2 & Hr2 & Hx2 & Hl2 & _ & ->)
          & s5 & (x3 & tl3 & Hr3 & Hx3 & Hl3 & Hh3 & ->)
          & s6 & (x4 & tl4 & Hr4 & Hx4 & _ & _ & ->) & Hend).
  apply reaches_word in Hw as (x1 & tl1 & Hr1 & Hx1 & ->).
  cbn [seen rest groups] in *. subst tl0 tl1 tl2 tl3.
  assert (x0 = []) as -> by (eapply strip_lead_blank; eauto).
  cbn [app] in Hr0.
  exists x1, x2, x3, x4, tl4. split; [exact Hr0|].
  split; [now apply same_letters_lit_ok|].
  split; [exact Hx2|]. split; [intros ->; simpl in Hl2; lia|].
  split; [exact Hx3|]. split; [simpl in Hh3; lia|]. split; [exact Hx4|].
  destruct Hend as [(c & t & -> & Hc & _) | [Heol _]].
  - right. exists c, t. split; [reflexivity|]. now apply bool_decide_eq_true in Hc.
  - left. apply at_eol_no_flags_blank in Heol; [|reflexivity]. cbn [rest] in Heol.
    assert (E : x4 ++ tl4 = []).
    { apply (strip_trail_blank line (x1 ++ x2 ++ x3)); [|now apply blank_app].
      rewrite Hr0. now rewrite <- !app_assoc. }
    now apply app_eq_nil in E as [_ ->].
Qed.

(** X3: [is_chapter_heading] accepts a line exactly when the line without
    the white space around it is the word "chương" in any letter case,
    white space, one to five decimal digits and then, after optional
    white space, either nothing or one of the separators [: ： . - – —]
    followed by anything. *)
Theorem is_chapter_heading_shape (line : str) :
  is_chapter_heading line = true <->
  exists w ws1 n ws2 tail,
    strip line = w ++ ws1 ++ n ++ ws2 ++ tail /\
    same_letters (u8 "chương") w /\
    blank ws1 /\ ws1 <> [] /\
    decimals n /\ (1 <= length n <= 5)%nat /\
    blank ws2 /\
    (tail = [] \/ exists c t, tail = c :: t /\ c ∈ u8 ":：.-–—").
Proof.
  split; [apply heading_accepted_shape|].
  intros (w & ws1 & n & ws2 & tail & Ht & Hw & Hws1 & Hne & Hn & Hlen & Hws2 & Htail).
  now apply (heading_shape_accepted line w ws1 n ws2 tail).
Qed.
End HeadingShape.

(* ================================================================== *)
(** * preprocess.py: the decision table of the Line Reflow Engine *)
(* ================================================================== *)

Section JoinDecision.
Import preprocess.
Context `{UCD}.


End JoinDecision.


Section PageNumberShape.
Import preprocess.
Context `{UCD}.

Lemma or_iff_both (A A' B B' : Prop) : (A <-> A') -> (B <-> B') -> (A \/ B <-> A' \/ B').
Proof. tauto. Qed.

Lemma reaches_Lit_Opt (fl : flags) (a b : char) (s s' : mstate) :
  reaches fl (Cat (Lit a) (Opt (Lit b))) s s' <->
  reaches fl (word [a]) s s' \/ reaches fl (word [a; b]) s s'.
Proof.
  change (word [a]) with (Lit a). change (word [a; b]) with (Cat (Lit a) (Lit b)).
  cbn [reaches]. split.
  - intros (s1 & H1 & [H2 | ->]); [right; eauto|now left].
  - intros [H1 | (s1 & H1 & H2)]; eauto.
Qed.

(** X2: [is_page_number_line] accepts a line exactly when the line without
    the white space around it is a number; or a number between two
    dashes, with optional white space around the number; or one of the
    words "Page", "Trang", "p" and "p." in any letter case followed, after
    optional white space, by a number.  A number is one or more decimal
    digits. *)
Theorem is_page_number_line_shape (line : str) :
  is_page_number_line line = true <->
  (decimals (strip line) /\ strip line <> []) \/
  (exists d1 ws1 n ws2 d2,
     strip line = d1 :: ws1 ++ n ++ ws2 ++ [d2] /\
     d1 ∈ u8 "-—–" /\ d2 ∈ u8 "-—–" /\
     blank ws1 /\ blank ws2 /\ decimals n /\ n <> []) \/
  (exists w ws1 n,
     strip line = w ++ ws1 ++ n /\
     (same_letters (u8 "Page") w \/ same_letters (u8 "Trang") w \/
      same_letters (u8 "p") w \/ same_letters (u8 "p.") w) /\
     blank ws1 /\ decimals n /\ n <> []).
Proof.
  unfold is_page_number_line, PAGE_NUMBER_PATTERNS. cbv zeta. cbn [existsb].
  rewrite orb_false_r, !orb_true_iff, !bool_decide_eq_true.
  unfold re_match. rewrite !match_at_is_Some.
  unfold star, plus, DASHES. cbn [cat_all].
  apply or_iff_both; [|apply or_iff_both].
  - (* a number *)
    cbn [reaches]. split.
    + intros (s' & s1 & [_ ->] & s2 & (x0 & tl0 & Hr0 & Hx0 & _ & _ & ->)
              & s3 & (n & tl1 & Hr1 & Hn & Hl & _ & ->)
              & s4 & (x2 & tl2 & Hr2 & Hx2 & _ & _ & ->) & [Heol _]).
      cbn [seen rest groups] in *. subst tl0 tl1.
      apply at_eol_no_flags_blank in Heol; [|reflexivity]. cbn [rest] in Heol.
      assert (x0 = []) as -> by (eapply strip_lead_blank; eauto).
      cbn [app] in Hr0.
      assert (E : x2 ++ tl2 = []).
      { apply (strip_trail_blank line n); [exact Hr0|now apply blank_app]. }
      rewrite E, app_nil_r in Hr0. rewrite Hr0.
      split; [exact Hn|]. intros ->. simpl in Hl. lia.
    + intros [Hn Hne].
      eexists. eexists. split; [split; reflexivity|].
      eexists. split.
      { exists [], (strip line). cbn [rest seen groups].
        repeat split; [constructor|simpl; lia]. }
      eexists. split.
      { exists (strip line), []. cbn [rest seen groups]. rewrite app_nil_r.
        repeat split; [exact Hn|destruct (strip line); [congruence|simpl; lia]]. }
      eexists. split.
      { exists [], []. cbn [rest seen groups]. repeat split; [constructor|simpl; lia]. }
      split; reflexivity.
  - (* a number between dashes *)
    cbn [reaches]. split.
    + intros (s' & s1 & [_ ->] & s2 & (x0 & tl0 & Hr0 & Hx0 & _ & _ & ->)
              & s3 & (d1 & tl1 & Hr1 & Hd1 & ->)
              & s4 & (x2 & tl2 & Hr2 & Hx2 & _ & _ & ->)
              & s5 & (n & tl3 & Hr3 & Hn & Hl & _ & ->)
              & s6 & (x4 & tl4 & Hr4 & Hx4 & _ & _ & ->)
              & s7 & (d2 & tl5 & Hr5 & Hd2 & ->)
              & s8 & (x6 & tl6 & Hr6 & Hx6 & _ & _ & ->) & [Heol _]).
      cbn [seen rest groups step] in *. subst tl0 tl1 tl2 tl3 tl4 tl5.
      apply at_eol_no_flags_blank in Heol; [|reflexivity]. cbn [rest] in Heol.
      assert (x0 = []) as -> by (eapply strip_lead_blank; eauto).
      cbn [app] in Hr0.
      assert (E : x6 ++ tl6 = []).
      { apply (strip_trail_blank line (d1 :: x2 ++ n ++ x4 ++ [d2])); [|now apply blank_app].
        rewrite Hr0. cbn [app]. now rewrite <- !app_assoc. }
      rewrite E in Hr0.
      exists d1, x2, n, x4, d2. split; [exact Hr0|].
      split; [now apply bool_decide_eq_true in Hd1|].
      split; [now apply bool_decide_eq_true in Hd2|].
      repeat split; auto. intros ->. simpl in Hl. lia.
    + intros (d1 & ws1 & n & ws2 & d2 & Ht & Hd1 & Hd2 & Hws1 & Hws2 & Hn & Hne).
      rewrite Ht.
      eexists. eexists. split; [split; reflexivity|].
      eexists. split.
      { exists [], (d1 :: ws1 ++ n ++ ws2 ++ [d2]). cbn [rest seen groups].
        repeat split; [constructor|simpl; lia]. }
      eexists. split.
      { exists d1, (ws1 ++ n ++ ws2 ++ [d2]). cbn [rest seen groups].
        split; [reflexivity|]. split; [now apply bool_decide_eq_true|reflexivity]. }
      eexists. split.
      { exists ws1, (n ++ ws2 ++ [d2]). cbn [rest seen groups step].
        repeat split; [exact Hws1|lia]. }
      eexists. split.
      { exists n, (ws2 ++ [d2]). cbn [rest seen groups].
        repeat split; [exact Hn|destruct n; [congruence|simpl; lia]]. }
      eexists. split.
      { exists ws2, [d2]. cbn [rest seen groups].
        repeat split; [exact Hws2|lia]. }
      eexists. split.
      { exists d2, []. cbn [rest seen groups].
        split; [reflexivity|]. split; [now apply bool_decide_eq_true|reflexivity]. }
      eexists. split.
      { exists [], []. cbn [rest seen groups step].
        repeat split; [constructor|simpl; lia]. }
      split; reflexivity.
  - (* a word and a number *)
    assert (Hword : forall s s1,
      reaches IGNORECASE
        (Alt (word (u8 "Page")) (Alt (word (u8 "Trang")) (Cat (Lit 112%N) (Opt (Lit 46%N)))))
        s s1 <->
      exists w tl,
        rest s = w ++ tl /\
        (same_letters (u8 "Page") w \/ same_letters (u8 "Trang") w \/
         same_letters (u8 "p") w \/ same_letters (u8 "p.") w) /\
        s1 = MState (rev w ++ seen s) tl (groups s)).
    { intros s s1.
      change (reaches IGNORECASE (Alt ?a (Alt ?b ?c)) s s1)
        with (reaches IGNORECASE a s s1 \/ reaches IGNORECASE b s s1 \/
              reaches IGNORECASE c s s1).
      rewrite reaches_Lit_Opt, !reaches_word.
      setoid_rewrite same_letters_lit_ok.
      change [112%N] with (u8 "p"). change [112%N; 46%N] with (u8 "p.").
      split.
      - intros [(w & tl & ? & ? & ?) | [(w & tl & ? & ? & ?) |
          [(w & tl & ? & ? & ?) | (w & tl & ? & ? & ?)]]]; exists w, tl; tauto.
      - intros (w & tl & ? & [? | [? | [? | ?]]] & ?); eauto 10. }
    cbn [reaches]. setoid_rewrite Hword. clear Hword. split.
    + intros (s' & s1 & [_ ->] & s2 & (x0 & tl0 & Hr0 & Hx0 & _ & _ & ->)
              & s3 & (s3' & (w & tl1 & Hr1 & Hw & ->) & ->)
              & s4 & (x2 & tl2 & Hr2 & Hx2 & _ & _ & ->)
              & s5 & (n & tl3 & Hr3 & Hn & Hl & _ & ->)
              & s6 & (x4 & tl4 & Hr4 & Hx4 & _ & _ & ->) & [Heol _]).
      cbn [seen rest groups step] in *. subst tl0 tl1 tl2 tl3.
      apply at_eol_no_flags_blank in Heol; [|reflexivity]. cbn [rest] in Heol.
      assert (x0 = []) as -> by (eapply strip_lead_blank; eauto).
      cbn [app] in Hr0.
      assert (E : x4 ++ tl4 = []).
      { apply (strip_trail_blank line (w ++ x2 ++ n)); [|now apply blank_app].
        rewrite Hr0. now rewrite <- !app_assoc. }
      rewrite E, app_nil_r in Hr0.
      exists w, x2, n. repeat split; auto. intros ->. simpl in Hl. lia.
    + intros (w & ws1 & n & Ht & Hw & Hws1 & Hn & Hne).
      rewrite Ht.
      eexists. eexists. split; [split; reflexivity|].
      eexists. split.
      { exists [], (w ++ ws1 ++ n). cbn [rest seen groups].
        repeat split; [constructor|simpl; lia]. }
      eexists. split.
      { eexists. split; [|reflexivity].
        exists w, (ws1 ++ n). cbn [rest seen groups]. repeat split. exact Hw. }
      eexists. split.
      { exists ws1, n. cbn [rest seen groups].
        repeat split; [exact Hws1|lia]. }
      eexists. split.
      { exists n, []. cbn [rest seen groups]. rewrite app_nil_r.
        repeat split; [exact Hn|destruct n; [congruence|simpl; lia]]. }
      eexists. split.
      { exists [], []. cbn [rest seen groups]. repeat split; [constructor|simpl; lia]. }
      split; reflexivity.
Qed.
End PageNumberShape.

Lemma strip_of_parts (a m b : str) :
  blank a -> blank b -> trimmed m -> strip (a ++ m ++ b) = m.
Proof.
  intros Ha Hb Hm. unfold strip.
  rewrite lstrip_blank_app, trimmed_lstrip, rstrip_app_blank by assumption.
  now apply rstrip_trimmed.
Qed.

Lemma trimmed_ends (c d : char) (s : str) :
  is_space c = false -> is_space d = false -> trimmed (c :: s ++ [d]).
Proof.
  intros Hc Hd. split.
  - now exists c, (s ++ [d]).
  - exists d, (rev s ++ [c]). split; [|exact Hd].
    change (c :: s ++ [d]) with ((c :: s) ++ [d]). now rewrite rev_app_distr.
Qed.

Lemma trimmed_app (a b : str) : trimmed a -> trimmed b -> forall m, trimmed (a ++ m ++ b).
Proof.
  intros [(c & a' & -> & Hc) _] [_ (d & b' & Hrev & Hd)] m.
  split.
  - now exists c, (a' ++ m ++ b).
  - exists d, (b' ++ rev m ++ rev (c :: a')). split; [|exact Hd].
    rewrite !rev_app_distr, Hrev. now rewrite <- !app_assoc.
Qed.

Section SegmenterHeadings.
Import preprocess chapter_split.
Context `{UCD}.
Hypothesis digits_not_space : forall c, is_decimal c = true -> is_space c = false.

Lemma chuong_trimmed (w : str) : same_letters (u8 "chương") w -> trimmed w.
Proof.
  intros Hw.
  apply Forall2_cons_inv_l in Hw as (y1 & w1 & H1 & Hw & ->).
  apply Forall2_cons_inv_l in Hw as (y2 & w2 & H2 & Hw & ->).
  apply Forall2_cons_inv_l in Hw as (y3 & w3 & H3 & Hw & ->).
  apply Forall2_cons_inv_l in Hw as (y4 & w4 & H4 & Hw & ->).
  apply Forall2_cons_inv_l in Hw as (y5 & w5 & H5 & Hw & ->).
  apply Forall2_cons_inv_l in Hw as (y6 & w6 & H6 & Hw & ->).
  apply Forall2_nil_inv_l in Hw as ->.
  apply (trimmed_ends y1 y6 [y2; y3; y4; y5]).
  - destruct H1 as [-> | ->]; reflexivity.
  - destruct H6 as [-> | ->]; reflexivity.
Qed.

Lemma decimals_trimmed (n : str) : decimals n -> n <> [] -> trimmed n.
Proof.
  intros Hn Hne. split.
  - destruct n as [|c n]; [congruence|]. exists c, n. split; [reflexivity|].
    apply Forall_cons in Hn as [Hc _]. auto.
  - destruct n as [|c n _] using rev_ind; [congruence|].
    exists c, (rev n). rewrite rev_app_distr. split; [reflexivity|].
    apply Forall_app in Hn as [_ Hc]. apply Forall_cons in Hc as [Hc _]. auto.
Qed.

(** X4: a line of its own in which the Chapter Segmenter's pattern finds
    a heading passes the heading test of the Line Reflow Engine, so the
    engine joins it neither to the line before nor to the line after. *)
Theorem segmenter_heading_not_joined (line other : str) :
  LF ∉ line ->
  is_Some (re_match CHAPTER_FLAGS CHAPTER_PATTERN line) ->
  is_chapter_heading line = true /\
  should_join_lines line other = false /\
  should_join_lines other line = false.
Proof.
  intros Hlf Hm.
  assert (Hh : is_chapter_heading line = true).
  { unfold re_match in Hm. apply match_at_is_Some in Hm as (s' & Hr).
    unfold CHAPTER_PATTERN in Hr. cbn [cat_all reaches] in Hr.
    destruct Hr as (s1 & [_ ->] & s2 & (x0 & tl0 & Hr0 & Hx0 & _ & _ & ->)
              & s3 & Hw & s4 & (x2 & tl2 & Hr2 & Hx2 & Hl2 & _ & ->)
              & s5 & (s5' & (n & tl3 & Hr3 & Hn & Hl3 & Hh3 & ->) & ->)
              & s6 & (x4 & tl4 & Hr4 & Hx4 & _ & _ & ->)
              & s7 & Hopt & s8 & (x7 & tl7 & Hr7 & Hx7 & _ & _ & ->) & [Heol _]).
    apply reaches_word in Hw as (w & tl1 & Hr1 & Hw & ->).
    apply same_letters_lit_ok in Hw.
    cbn [seen rest groups] in *. subst tl0 tl1 tl2 tl3.
    assert (Hend : tl7 = []).
    { unfold at_eol in Heol. cbn [rest] in Heol. destruct tl7 as [|c tl7]; [reflexivity|].
      apply andb_true_iff in Heol as [Hc _]. apply N.eqb_eq in Hc as ->.
      destruct Hlf. rewrite Hr0.
      assert (Hin : LF ∈ rest s7).
      { rewrite Hr7. apply elem_of_app. right. apply elem_of_cons. now left. }
      destruct Hopt as [(t1 & (c & tl5 & Hr5 & _ & ->) & t2 & (x5 & tl6 & Hr6 & _ & _ & _ & ->)
                         & t3 & (x6 & tl8 & Hr8 & _ & _ & _ & ->) & ->) | ->];
        cbn [seen rest groups step] in *; subst;
        repeat (rewrite elem_of_app || rewrite elem_of_cons); tauto. }
    subst tl7. rewrite app_nil_r in Hr7.
    assert (Hn' : n <> []) by (intros ->; simpl in Hl3; lia).
    assert (Hx2' : x2 <> []) by (intros ->; simpl in Hl2; lia).
    pose proof (chuong_trimmed w Hw) as Hwt.
    destruct Hopt as [(t1 & (c & tl5 & Hr5 & Hc & ->) & t2 & (x5 & tl6 & Hr6 & _ & _ & _ & ->)
                       & t3 & (x6 & tl8 & Hr8 & _ & _ & _ & ->) & ->) | ->];
      cbn [seen rest groups step] in *.
    - (* a separator and a title *)
      subst tl4. apply bool_decide_eq_true in Hc.
      assert (Hsp : is_space c = false).
      { clear -Hc. repeat (apply elem_of_cons in Hc as [-> | Hc]; [reflexivity|]).
        now apply elem_of_nil in Hc. }
      destruct (strip_decompose (c :: tl5))
        as [(Hbl & _) | (a & m & b & E & Ha & Hb & Hmt & _)].
      { apply Forall_cons in Hbl as [Hbl _]. congruence. }
      destruct a as [|a0 a].
      2:{ injection E as <- _. apply Forall_cons in Ha as [Ha _]. congruence. }
      cbn [app] in E. destruct Hmt as [(c' & m' & -> & Hc') Hlast].
      injection E as <- E.
      apply (heading_shape_accepted line w x2 n x4 (c :: m'));
        [|exact Hw|exact Hx2|exact Hx2'|exact Hn|simpl in Hh3; lia|exact Hx4|].
      + rewrite Hr0. rewrite E.
        replace (x0 ++ w ++ x2 ++ n ++ x4 ++ c :: m' ++ b)
          with (x0 ++ (w ++ (x2 ++ n ++ x4) ++ c :: m') ++ b)
          by now rewrite <- !app_assoc.
        rewrite strip_of_parts; [now rewrite <- !app_assoc|exact Hx0|exact Hb|].
        apply trimmed_app; [exact Hwt|]. split; [now exists c, m'|exact Hlast].
      + right. now exists c, m'.
    - (* the number ends the line *)
      subst tl4.
      apply (heading_shape_accepted line w x2 n [] []);
        [|exact Hw|exact Hx2|exact Hx2'|exact Hn|simpl in Hh3; lia|constructor|now left].
      rewrite Hr0.
        replace (x0 ++ w ++ x2 ++ n ++ x4 ++ x7)
          with (x0 ++ (w ++ x2 ++ n) ++ x4 ++ x7) by now rewrite <- !app_assoc.
        rewrite strip_of_parts; [cbn [app]; now rewrite app_nil_r| | |].
        * exact Hx0.
        * now apply blank_app.
        * apply (trimmed_app w n); [exact Hwt|]. now apply decimals_trimmed. }
  split; [exact Hh|]. unfold should_join_lines. cbv zeta.
  rewrite !is_chapter_heading_rstrip, !is_chapter_heading_strip, !Hh.
  split.
  - destruct (is_empty (rstrip line) || is_empty (strip other)); reflexivity.
  - rewrite orb_true_r.
    destruct (is_empty (rstrip other) || is_empty (strip line)); reflexivity.
Qed.
End SegmenterHeadings.

(* ================================================================== *)
(** * preprocess.py: blank lines in the result *)
(* ================================================================== *)

Section BlankRuns.
Import preprocess.

Local Abbreviation LF3 := (Rep true (N.eqb LF) 3 None).
Local Abbreviation two := (fun _ : Match => [LF; LF]).

Lemma no_run_cons (c : char) (s : str) :
  c <> LF ->
  (forall a b, s <> a ++ [LF; LF; LF] ++ b) ->
  forall a b, c :: s <> a ++ [LF; LF; LF] ++ b.
Proof.
  intros Hc Hs [|d a] b E; simpl in E; [congruence|].
  assert (E' : s = a ++ [LF; LF; LF] ++ b) by (simpl; congruence).
  exact (Hs a b E').
Qed.

Lemma no_run_LF (s : str) :
  head s <> Some LF ->
  (forall a b, s <> a ++ [LF; LF; LF] ++ b) ->
  (forall a b, LF :: s <> a ++ [LF; LF; LF] ++ b) /\
  (forall a b, LF :: LF :: s <> a ++ [LF; LF; LF] ++ b).
Proof.
  intros Hh Hs. split.
  - intros [|d a] b E; simpl in E.
    + assert (E' : s = LF :: LF :: b) by congruence. subst s. now apply Hh.
    + assert (E' : s = a ++ [LF; LF; LF] ++ b) by (simpl; congruence).
      exact (Hs a b E').
  - intros [|d [|e a]] b E; simpl in E.
    + assert (E' : s = LF :: b) by congruence. subst s. now apply Hh.
    + assert (E' : s = LF :: LF :: b) by congruence. subst s. now apply Hh.
    + assert (E' : s = a ++ [LF; LF; LF] ++ b) by (simpl; congruence).
      exact (Hs a b E').
Qed.

Lemma LF3_short (sn rs : str) :
  (forall tl, rs <> LF :: LF :: LF :: tl) ->
  match_at no_flags LF3 sn rs = None.
Proof.
  intros Hrs. unfold match_at. cbn [rmatch seen rest groups].
  destruct rs as [|a rs]; [reflexivity|]. cbn [rep_greedy hi_pos hi_pred Nat.pred].
  destruct (N.eqb_spec LF a) as [<- | Ha]; [|reflexivity]. cbn [andb].
  destruct rs as [|b rs]; [reflexivity|]. cbn [rep_greedy hi_pos hi_pred Nat.pred].
  destruct (N.eqb_spec LF b) as [<- | Hb]; [|reflexivity]. cbn [andb].
  destruct rs as [|c rs]; [reflexivity|]. cbn [rep_greedy hi_pos hi_pred Nat.pred].
  destruct (N.eqb_spec LF c) as [<- | Hc]; [|reflexivity].
  now destruct (Hrs rs).
Qed.

Lemma LF3_long (sn tl : str) (k : nat) :
  head tl <> Some LF -> (3 <= k)%nat ->
  match_at no_flags LF3 sn (repeat LF k ++ tl)
  = Some (MkMatch (length sn) (length sn + k) ∅).
Proof.
  intros Hh Hk. unfold match_at. cbn [rmatch seen rest groups].
  rewrite (rep_greedy_max (N.eqb LF) Some ∅ (MState (rev (repeat LF k) ++ sn) tl ∅));
    cbn [seen groups].
  - rewrite length_app, length_rev, repeat_length. f_equal. f_equal. lia.
  - apply Forall_forall. intros c Hc. apply list_elem_of_In, repeat_spec in Hc as ->.
    apply N.eqb_refl.
  - rewrite repeat_length. exact Hk.
  - exact I.
  - destruct tl as [|c tl]; [exact I|]. left.
    destruct (N.eqb_spec LF c) as [<- |]; [now destruct Hh|reflexivity].
  - reflexivity.
Qed.

Lemma leading_newlines (rs : str) :
  exists k tl, rs = repeat LF k ++ tl /\ head tl <> Some LF.
Proof.
  induction rs as [|c rs (k & tl & -> & Hh)].
  - exists 0%nat, []. split; [reflexivity|discriminate].
  - destruct (N.eq_dec c LF) as [-> | Hc].
    + now exists (S k), tl.
    + exists 0%nat, (c :: repeat LF k ++ tl). split; [reflexivity|].
      simpl. congruence.
Qed.

(** Where no three newlines begin, the substitution copies one
    character and goes on. *)
Lemma sub_go_miss (sn : str) (c : char) (rs : str) :
  (forall tl, c :: rs <> LF :: LF :: LF :: tl) ->
  sub_go no_flags LF3 two 0 sn (c :: rs)
  = c :: sub_go no_flags LF3 two 0 (c :: sn) rs.
Proof. intros Hrs. cbn [sub_go]. now rewrite LF3_short. Qed.

(** After the substitution no three newlines stand in a row, and the
    result begins with a newline only if the subject does. *)
Lemma collapse_newlines (n : nat) :
  forall (rs sn : str),
    (length rs <= n)%nat ->
    (forall a b, sub_go no_flags LF3 two 0 sn rs <> a ++ [LF; LF; LF] ++ b) /\
    (head rs <> Some LF -> head (sub_go no_flags LF3 two 0 sn rs) <> Some LF).
Proof.
  induction n as [|n IH]; intros rs sn Hn.
  - destruct rs; [|simpl in Hn; lia]. cbn [sub_go]. rewrite LF3_short by discriminate.
    split; [|auto]. intros [|] b; discriminate.
  - destruct (leading_newlines rs) as (k & tl & -> & Hh).
    rewrite length_app, repeat_length in Hn.
    assert (Htl : forall tl', tl <> LF :: tl').
    { intros tl' ->. now apply Hh. }
    destruct k as [|[|[|k]]].
    + (* no newline at the front *)
      destruct tl as [|c tl]; cbn [repeat app].
      * cbn [sub_go]. rewrite LF3_short by discriminate.
        split; [|auto]. intros [|] b; discriminate.
      * assert (Hc : c <> LF) by (intros ->; now apply Hh).
        rewrite sub_go_miss by congruence.
        destruct (IH tl (c :: sn)) as [Hnt _]; [simpl in Hn; lia|].
        split; [now apply no_run_cons|]. simpl. congruence.
    + (* one *)
      cbn [repeat app].
      rewrite sub_go_miss by (intros tl' E; apply (Htl (LF :: tl')); congruence).
      destruct (IH tl (LF :: sn)) as [Hnt Hhd]; [simpl in Hn; lia|].
      split; [|simpl; congruence]. now apply no_run_LF; auto.
    + (* two *)
      cbn [repeat app].
      rewrite sub_go_miss by (intros tl' E; apply (Htl tl'); congruence).
      rewrite sub_go_miss by (intros tl' E; apply (Htl (LF :: tl')); congruence).
      destruct (IH tl (LF :: LF :: sn)) as [Hnt Hhd]; [simpl in Hn; lia|].
      split; [|simpl; congruence]. now apply no_run_LF; auto.
    + (* three or more: replaced by two *)
      assert (E : sub_go no_flags LF3 two 0 sn (repeat LF (S (S (S k))) ++ tl)
                  = LF :: LF :: sub_go no_flags LF3 two 0
                                  (rev (repeat LF (S (S k))) ++ LF :: sn) tl).
      { rewrite <- sub_go_skip.
        change (repeat LF (S (S (S k))) ++ tl) with (LF :: (repeat LF (S (S k)) ++ tl)) at 1.
        cbn [sub_go].
        change (LF :: (repeat LF (S (S k)) ++ tl)) with (repeat LF (S (S (S k))) ++ tl).
        rewrite LF3_long by (auto; lia). cbn [m_start m_end].
        replace (length sn + S (S (S k)) =? length sn)%nat with false
          by (symmetry; apply Nat.eqb_neq; lia).
        replace (Nat.pred (length sn + S (S (S k)) - length sn))
          with (length (repeat LF (S (S k)))) by (rewrite repeat_length; lia).
        reflexivity. }
      rewrite E.
      destruct (IH tl (rev (repeat LF (S (S k))) ++ LF :: sn)) as [Hnt Hhd];
        [simpl in Hn; lia|].
      split; [|simpl; congruence]. now apply no_run_LF; auto.
Qed.

Lemma strip_infix (s : str) : exists a b, s = a ++ strip s ++ b.
Proof.
  destruct (strip_decompose s) as [(_ & _ & _ & ->) | (a & m & b & -> & _ & _ & _ & _ & _ & ->)].
  - exists s, []. now rewrite app_nil_r.
  - now exists a, b.
Qed.

Context `{UCD}.

(** X7: the result of [preprocess_text] has no white space at either end
    and nowhere three newlines in a row, that is, never more than one
    blank line between two lines. *)
Theorem preprocess_text_blank_lines (draw : list nat -> nat -> list nat)
    (text : str) (page_texts : option (list str)) :
  let result := preprocess_text draw text page_texts in
  strip result = result /\
  forall a b, result <> a ++ [LF; LF; LF] ++ b.
Proof.
  unfold preprocess_text. cbv zeta. split; [apply strip_idempotent|].
  rewrite re_sub_sub_go.
  match goal with |- context [sub_go no_flags LF3 two 0 [] ?t] => set (joined := t) end.
  destruct (collapse_newlines (length joined) joined [] (le_n _)) as [Hnt _].
  destruct (strip_infix (sub_go no_flags LF3 two 0 [] joined)) as (a0 & b0 & E).
  intros a b Hab. apply (Hnt (a0 ++ a) (b ++ b0)).
  rewrite E at 1. rewrite Hab. now rewrite <- !app_assoc.
Qed.

End BlankRuns.

(* ================================================================== *)
(** * chapter_split.py: the chapters as parts of the text *)
(* ================================================================== *)

Lemma slice_drop (i j : nat) (s : str) :
  (i <= j)%nat -> slice i j s ++ drop j s = drop i s.
Proof.
  intros Hij. unfold slice.
  replace (drop j s) with (drop (j - i) (drop i s)).
  - apply take_drop.
  - rewrite drop_drop. f_equal. lia.
Qed.

Lemma slice_to_end (i : nat) (s : str) : slice i (length s) s = drop i s.
Proof.
  unfold slice. apply take_ge. rewrite length_drop. lia.
Qed.

Lemma spans_cover (text : str) (matches : list Match) :
  forall pos,
    in_order pos (length text) matches ->
    drop pos text
    = slice pos (match matches with m :: _ => m_start m | [] => length text end) text
      ++ concat (map (fun hb => hb.1 ++ hb.2) (spans text matches)).
Proof.
  induction matches as [|m ms IH]; intros pos Hord.
  - simpl. now rewrite app_nil_r, slice_to_end.
  - destruct Hord as ((Hs & He) & Hstop & Hord).
    cbn [spans map concat fst snd]. rewrite <- !app_assoc.
    rewrite <- (IH (m_end m) Hord).
    rewrite (slice_drop (m_start m) (m_end m)) by exact He.
    now rewrite slice_drop.
Qed.

Section ChapterSpans.
Import chapter_split.
Context `{UCD}.

Lemma chapters_from_texts (text : str) (matches : list Match) :
  map chapter_split.text (chapters_from text matches)
  = map (fun hb => strip hb.2) (spans text matches).
Proof.
  induction matches as [|m ms IH]; [reflexivity|].
  cbn [chapters_from spans map]. now rewrite IH.
Qed.

(** X9: the chapters as parts of the text.  The text is what stands
    before the first heading, then the headings that the Chapter
    Segmenter finds and the bodies between them, in order, with nothing
    left out and nothing twice.  The chapters of [split_into_chapters]
    are, in this order, at most one chapter for what stands before the
    first heading (the whole text, when there is no heading) and one
    chapter for each heading, whose text is the body without the white
    space around it. *)
Theorem chapter_spans_cover (text : str) :
  let matches := heading_matches text in
  let before :=
    slice 0 (match matches with m :: _ => m_start m | [] => length text end) text in
  text = before ++ concat (map (fun hb => hb.1 ++ hb.2) (spans text matches)) /\
  exists prologue chapters,
    split_into_chapters text = prologue ++ chapters /\
    (prologue = [] \/
     exists c, prologue = [c] /\ chapter_split.text c = strip before) /\
    map chapter_split.text chapters = map (fun hb => strip hb.2) (spans text matches).
Proof.
  cbv zeta. split.
  { apply (spans_cover text (heading_matches text) 0). apply finditer_in_order. }
  unfold split_into_chapters, heading_matches. cbv zeta.
  destruct (finditer CHAPTER_FLAGS CHAPTER_PATTERN text) as [|first_match rest] eqn:E.
  - eexists [_], []. split; [reflexivity|]. split; [|reflexivity].
    right. eexists. split; [reflexivity|]. cbn [chapter_split.text].
    now rewrite slice_to_end.
  - destruct (negb (is_empty (strip (slice 0 (m_start first_match) text)))
              && (len (strip (slice 0 (m_start first_match) text)) >? 100)).
    + eexists [_], _. split; [reflexivity|]. split; [|apply chapters_from_texts].
      right. eexists. split; reflexivity.
    + exists [], (chapters_from text (first_match :: rest)).
      split; [reflexivity|]. split; [now left|apply chapters_from_texts].
Qed.

Hypothesis decimal_values : forall c v, decimal c = Some v -> 0 <= v <= 9.

Lemma int_of_bound (n : str) :
  decimals n -> 0 <= int_of n < 10 ^ Z.of_nat (length n).
Proof.
  unfold int_of. intros Hn.
  assert (Hgen : forall acc k, 0 <= acc < 10 ^ Z.of_nat k ->
    0 <= fold_left (fun acc c => 10 * acc + default 0 (decimal c)) n acc
      < 10 ^ Z.of_nat (k + length n)).
  { induction Hn as [|c n Hc Hn IH]; intros acc k Hacc.
    - simpl. now rewrite Nat.add_0_r.
    - cbn [fold_left length]. replace (k + S (length n))%nat with (S k + length n)%nat by lia.
      apply IH. unfold is_decimal in Hc.
      destruct (decimal c) as [v|] eqn:Hv; [|discriminate].
      apply decimal_values in Hv. cbn [default from_option id].
      rewrite Nat2Z.inj_succ, Z.pow_succ_r by lia. lia. }
  apply (Hgen 0 0%nat). simpl. lia.
Qed.

Lemma chapters_from_elem (text : str) (c : Chapter) (matches : list Match) :
  c ∈ chapters_from text matches ->
  exists m rest, m ∈ matches /\ c = chapter_at text m rest.
Proof.
  induction matches as [|m ms IH]; intros Hc; [now apply elem_of_nil in Hc|].
  cbn [chapters_from] in Hc. apply elem_of_cons in Hc as [-> | Hc].
  - exists m, ms. split; [apply elem_of_cons; now left|reflexivity].
  - destruct (IH Hc) as (m' & rest & Hm & ->). exists m', rest.
    split; [apply elem_of_cons; now right|reflexivity].
Qed.

(** What the first group of a heading match holds. *)
Lemma heading_match_number (text : str) (m : Match) :
  m ∈ heading_matches text ->
  exists n, group m 1 = Some n /\ decimals n /\ (1 <= length n <= 5)%nat.
Proof.
  intros Hm. apply scan_sound in Hm as (sn & rs & _ & Hm).
  apply match_at_sound in Hm as (s' & Hr & ->).
  unfold CHAPTER_PATTERN in Hr. cbn [cat_all reaches] in Hr.
  destruct Hr as (s1 & [_ ->] & s2 & (x0 & tl0 & Hr0 & Hx0 & _ & _ & ->)
            & s3 & Hw & s4 & (x2 & tl2 & Hr2 & Hx2 & Hl2 & _ & ->)
            & s5 & (s5' & (n & tl3 & Hr3 & Hn & Hl3 & Hh3 & ->) & ->)
            & s6 & (x4 & tl4 & Hr4 & Hx4 & _ & _ & ->)
            & s7 & Hopt & s8 & (x7 & tl7 & Hr7 & Hx7 & _ & _ & ->) & [Heol ->]).
  apply reaches_word in Hw as (w & tl1 & Hr1 & Hw & ->).
  cbn [seen rest groups] in *. subst.
  exists n. unfold group. cbn [m_groups groups].
  split; [|split; [exact Hn|simpl in Hh3; lia]].
  destruct Hopt as [(t1 & (c & tl5 & Hr5 & Hc & ->) & t2 & (x5 & tl6 & Hr6 & _ & _ & _ & ->)
                     & t3 & (x6 & tl8 & Hr8 & _ & _ & _ & ->) & ->) | ->];
    cbn [seen rest groups step] in *.
  - rewrite lookup_insert_ne by discriminate. rewrite lookup_insert_eq.
    f_equal. apply captured_take.
  - rewrite lookup_insert_eq. f_equal. apply captured_take.
Qed.

(** X8: [split_into_chapters] always gives at least one chapter; the
    number of each chapter lies between 0 and 99999, and its title and
    its text have no white space at either end. *)
Theorem split_into_chapters_invariants (text : str) :
  let chapters := split_into_chapters text in
  chapters <> [] /\
  Forall (fun c => 0 <= number c <= 99999 /\
                   strip (title c) = title c /\
                   strip (chapter_split.text c) = chapter_split.text c) chapters.
Proof.
  cbv zeta.
  assert (Hfrom : forall ms, (forall m, m ∈ ms -> m ∈ heading_matches text) ->
            Forall (fun c => 0 <= number c <= 99999 /\
                             strip (title c) = title c /\
                             strip (chapter_split.text c) = chapter_split.text c)
                   (chapters_from text ms)).
  { intros ms Hms. apply Forall_forall. intros c Hc.
    apply chapters_from_elem in Hc as (m & rest & Hm & ->).
    apply Hms, heading_match_number in Hm as (n & Hg & Hn & Hlen).
    unfold chapter_at. cbn [number title chapter_split.text]. rewrite Hg.
    cbn [default from_option id].
    split; [|split; apply strip_idempotent].
    pose proof (int_of_bound n Hn) as Hb.
    assert (10 ^ Z.of_nat (length n) <= 10 ^ 5) by (apply Z.pow_le_mono_r; lia).
    lia. }
  unfold split_into_chapters. fold (heading_matches text).
  destruct (heading_matches text) as [|first_match ms] eqn:Hms.
  - split; [discriminate|]. repeat constructor; try (cbn; lia). apply strip_idempotent.
  - cbv zeta. specialize (Hfrom (first_match :: ms) (fun m Hm => Hm)).
    destruct (negb _ && _).
    + split; [discriminate|]. constructor; [|exact Hfrom].
      cbn [number title chapter_split.text]. split; [lia|].
      split; [reflexivity|apply strip_idempotent].
    + split; [|exact Hfrom]. cbn [chapters_from]. discriminate.
Qed.
End ChapterSpans.

(* ================================================================== *)
(** * chapter_split.py: the warnings *)
(* ================================================================== *)

Lemma elem_of_range (a b z : Z) : z ∈ range a b <-> a <= z < b.
Proof.
  unfold range. rewrite list_elem_of_fmap. split.
  - intros (i & -> & Hi). apply elem_of_seq in Hi. lia.
  - intros Hz. exists (Z.to_nat (z - a)). split; [lia|]. apply elem_of_seq. lia.
Qed.

Lemma min_of_spec (l : list Z) :
  forall x, (min_of x l = x \/ min_of x l ∈ l) /\
            min_of x l <= x /\ Forall (fun y => min_of x l <= y) l.
Proof.
  unfold min_of. induction l as [|y l IH]; intros x; cbn [fold_left].
  - split; [now left|]. split; [lia|constructor].
  - destruct (IH (Z.min x y)) as (Hin & Hle & Hall).
    split; [|split; [lia|constructor; [lia|exact Hall]]].
    destruct Hin as [-> | Hin]; [|right; apply elem_of_cons; now right].
    destruct (Z.min_spec x y) as [[_ ->] | [_ ->]]; [now left|].
    right. apply elem_of_cons. now left.
Qed.

Lemma max_of_spec (l : list Z) :
  forall x, (max_of x l = x \/ max_of x l ∈ l) /\
            x <= max_of x l /\ Forall (fun y => y <= max_of x l) l.
Proof.
  unfold max_of. induction l as [|y l IH]; intros x; cbn [fold_left].
  - split; [now left|]. split; [lia|constructor].
  - destruct (IH (Z.max x y)) as (Hin & Hle & Hall).
    split; [|split; [lia|constructor; [lia|exact Hall]]].
    destruct Hin as [-> | Hin]; [|right; apply elem_of_cons; now right].
    destruct (Z.max_spec x y) as [[_ ->] | [_ ->]]; [|now left].
    right. apply elem_of_cons. now left.
Qed.

Section Warnings.
Import chapter_split.

Lemma check_short_fold (chapters : list Chapter) :
  forall warnings,
    fold_left check_short chapters warnings = [] <->
    warnings = [] /\ Forall (fun c => 100 <= len (chapter_split.text c)) chapters.
Proof.
  induction chapters as [|c cs IH]; intros warnings; cbn [fold_left].
  - split; [intros ->; split; [reflexivity|constructor]|now intros [-> _]].
  - rewrite IH. unfold check_short.
    destruct (Z.ltb_spec (len (chapter_split.text c)) 100) as [Hs | Hl].
    + split.
      * intros [E _]. now apply app_eq_nil in E as [_ E].
      * intros [_ Hall]. apply Forall_cons in Hall as [Hc _]. lia.
    + split.
      * intros [-> Hall]. split; [reflexivity|]. now constructor.
      * intros [-> Hall]. apply Forall_cons in Hall as [_ Hall]. now split.
Qed.

(** X10: [validate_chapters] has nothing to report exactly when there is
    at least one chapter, the positive chapter numbers leave no gap (every
    number between two of them is itself the number of a chapter), and no
    chapter text is shorter than 100 characters.  Chapter 0 and repeated
    numbers are not reported. *)
Theorem validate_chapters_silent (chapters : list Chapter) :
  validate_chapters chapters = [] <->
  chapters <> [] /\
  (forall a b n,
     a ∈ chapter_numbers chapters -> b ∈ chapter_numbers chapters ->
     0 < a -> a <= n <= b -> n ∈ chapter_numbers chapters) /\
  Forall (fun c => 100 <= len (chapter_split.text c)) chapters.
Proof.
  unfold validate_chapters, chapter_numbers.
  destruct chapters as [|c0 cs]; [split; [discriminate|intros [Hne _]; congruence]|].
  set (chapters := c0 :: cs). cbv zeta. rewrite check_short_fold.
  set (numbers := filter (fun n => 0 < n) (map number chapters)).
  assert (Hnum : forall z, z ∈ numbers <-> z ∈ map number chapters /\ 0 < z).
  { intros z. unfold numbers. rewrite list_elem_of_filter. tauto. }
  assert (Hgap : match numbers with
                 | [] => []
                 | n :: ns =>
                     if bool_decide
                          ((list_to_set (range (min_of n ns) (max_of n ns + 1)) : gset Z)
                             ∖ list_to_set numbers = ∅)
                     then []
                     else [ u8 "Missing chapter numbers: "
                            ++ str_of_list
                                 (merge_sort Z.le
                                    (elements
                                       ((list_to_set (range (min_of n ns) (max_of n ns + 1))
                                           : gset Z) ∖ list_to_set numbers))) ]
                 end = [] <->
                 forall a b n,
                   a ∈ map number chapters -> b ∈ map number chapters ->
                   0 < a -> a <= n <= b -> n ∈ map number chapters).
  { destruct numbers as [|p ps] eqn:Hp.
    - split; [|reflexivity]. intros _ a b n Ha Hb Hpos Hn.
      assert (Hin : a ∈ []) by (apply Hnum; now split).
      now apply elem_of_nil in Hin.
    - destruct (min_of_spec ps p) as (Hmin_in & Hmin_le & Hmin_all).
      destruct (max_of_spec ps p) as (Hmax_in & Hmax_le & Hmax_all).
      assert (Hlo : min_of p ps ∈ p :: ps).
      { apply elem_of_cons. destruct Hmin_in as [-> | H]; auto. }
      assert (Hhi : max_of p ps ∈ p :: ps).
      { apply elem_of_cons. destruct Hmax_in as [-> | H]; auto. }
      assert (Hbounds : forall z, z ∈ p :: ps -> min_of p ps <= z <= max_of p ps).
      { intros z Hz. apply elem_of_cons in Hz as [-> | Hz]; [lia|].
        rewrite Forall_forall in Hmin_all, Hmax_all.
        split; [now apply Hmin_all|now apply Hmax_all]. }
      destruct (bool_decide_reflect
                  ((list_to_set (range (min_of p ps) (max_of p ps + 1)) : gset Z)
                     ∖ list_to_set (p :: ps) = ∅)) as [He | He].
      + split; [intros _|reflexivity]. intros a b n Ha Hb Hpos Hn.
        assert (Ha' : a ∈ p :: ps) by (apply Hnum; now split).
        assert (Hb' : b ∈ p :: ps) by (apply Hnum; split; [exact Hb|lia]).
        apply Hbounds in Ha', Hb'.
        destruct (decide (n ∈ p :: ps)) as [Hin | Hout]; [now apply Hnum in Hin|].
        assert (Hmiss : n ∈ (list_to_set (range (min_of p ps) (max_of p ps + 1)) : gset Z)
                            ∖ list_to_set (p :: ps)).
        { apply elem_of_difference. rewrite !elem_of_list_to_set, elem_of_range.
          split; [lia|exact Hout]. }
        rewrite He in Hmiss. now apply elem_of_empty in Hmiss.
      + split; [discriminate|]. intros Hall. destruct He.
        apply elem_of_equiv_empty_L. intros z Hz.
        apply elem_of_difference in Hz as [Hz Hout].
        rewrite elem_of_list_to_set in Hz, Hout. apply elem_of_range in Hz.
        apply Hout, Hnum.
        apply Hnum in Hlo as [Hlo Hlo_pos]. apply Hnum in Hhi as [Hhi _].
        split; [|lia]. apply (Hall (min_of p ps) (max_of p ps)); auto; lia. }
  rewrite Hgap. split.
  - intros [Hg Hs]. split; [discriminate|]. now split.
  - intros (_ & Hg & Hs). now split.
Qed.
End Warnings.

(* ================================================================== *)
(** * chunking.py: what the parts are made of *)
(* ================================================================== *)

Section PackerContent.
Import chunking.
Variable max_chars : Z.

Lemma packed_push (st : packer) (pieces : list str) (p : str) :
  packed st pieces -> packed (push st p) (pieces ++ [p]).
Proof.
  intros (gs & Hch & Hne & <-). exists gs. cbn [push chunks current_chunk].
  repeat split; auto. now rewrite app_assoc.
Qed.

Lemma packed_flush (st : packer) (pieces : list str) (b : bool) :
  packed st pieces ->
  packed (if b && nonempty (current_chunk st) then flush st else st) pieces.
Proof.
  intros Hp. destruct b; cbn [andb]; [|exact Hp].
  destruct (current_chunk st) as [|p ps] eqn:Hcur; cbn [nonempty]; [exact Hp|].
  destruct Hp as (gs & Hch & Hne & <-). exists (gs ++ [p :: ps]).
  cbn [flush chunks current_chunk]. rewrite Hcur. repeat split.
  - now rewrite Hch, map_app.
  - apply Forall_app. split; [exact Hne|]. now repeat constructor.
  - rewrite concat_app. cbn [concat]. now rewrite !app_nil_r.
Qed.

Lemma packed_add_sentence (st : packer) (pieces : list str) (sentence : str) :
  packed st pieces -> packed (add_sentence max_chars st sentence) (pieces ++ [sentence]).
Proof. intros Hp. unfold add_sentence. now apply packed_push, packed_flush. Qed.

Lemma packed_sentences (sentences : list str) :
  forall (st : packer) (pieces : list str),
    packed st pieces ->
    packed (fold_left (add_sentence max_chars) sentences st) (pieces ++ sentences).
Proof.
  induction sentences as [|s ss IH]; intros st pieces Hp; cbn [fold_left].
  - now rewrite app_nil_r.
  - replace (pieces ++ s :: ss) with ((pieces ++ [s]) ++ ss) by now rewrite <- app_assoc.
    now apply IH, packed_add_sentence.
Qed.

Lemma packed_add_paragraph (st : packer) (pieces : list str) (para : str) :
  packed st pieces ->
  packed (add_paragraph max_chars st para)
         (pieces ++ pieces_of_paragraph max_chars para).
Proof.
  intros Hp. unfold add_paragraph, pieces_of_paragraph. cbv zeta.
  destruct (is_empty (strip para)); [now rewrite app_nil_r|].
  destruct (len (strip para) >? max_chars).
  - apply packed_sentences. now apply (packed_flush st pieces true).
  - now apply packed_push, packed_flush.
Qed.

Lemma packed_paragraphs (paragraphs : list str) :
  forall (st : packer) (pieces : list str),
    packed st pieces ->
    packed (fold_left (add_paragraph max_chars) paragraphs st)
           (pieces ++ concat (map (pieces_of_paragraph max_chars) paragraphs)).
Proof.
  induction paragraphs as [|p ps IH]; intros st pieces Hp; cbn [fold_left map concat].
  - now rewrite app_nil_r.
  - rewrite app_assoc. now apply IH, packed_add_paragraph.
Qed.

(** X11: [split_by_paragraphs] loses nothing and changes no order: its
    parts, taken apart again, are the pieces of the text one after the
    other - every paragraph that is not empty, stripped, and for a
    paragraph longer than [max_chars] its sentences; each part holds at
    least one piece and is its pieces joined by blank lines. *)
Theorem split_by_paragraphs_keeps_pieces (text : str) :
  exists groups,
    split_by_paragraphs text max_chars = map (join NLNL) groups /\
    Forall (fun g => g <> []) groups /\
    concat groups = pieces_of_text max_chars text.
Proof.
  unfold split_by_paragraphs, pieces_of_text. cbv zeta.
  destruct (packed_paragraphs (split NLNL text) (Packer [] [] 0) [])
    as (gs & Hch & Hne & Hcat).
  { exists []. repeat split. constructor. }
  cbn [app] in Hcat.
  destruct (current_chunk _) as [|p ps].
  - cbn [nonempty]. exists gs. rewrite app_nil_r in Hcat. auto.
  - cbn [nonempty]. exists (gs ++ [p :: ps]). repeat split.
    + now rewrite Hch, map_app.
    + apply Forall_app. split; [exact Hne|]. now repeat constructor.
    + rewrite concat_app. cbn [concat]. now rewrite app_nil_r.
Qed.
End PackerContent.

(* ================================================================== *)
(** * chunking.py: every chapter gives a chunk *)
(* ================================================================== *)

Lemma split_go_head (sep : str) (s : str) :
  forall acc, exists p ps, split_go sep 0 acc s = (rev acc ++ p) :: ps.
Proof.
  induction s as [|c s IH]; intros acc; cbn [split_go].
  - exists [], []. now rewrite app_nil_r.
  - destruct (starts_with sep (c :: s)).
    + eexists [], _. now rewrite app_nil_r.
    + destruct (IH (c :: acc)) as (p & ps & ->). exists (c :: p), ps.
      simpl. now rewrite <- app_assoc.
Qed.

Lemma strip_cons_nonempty (c : char) (s : str) :
  is_space c = false -> strip (c :: s) <> [].
Proof.
  intros Hc E.
  destruct (strip_decompose (c :: s)) as [(Hbl & _) | (a & m & b & _ & _ & _ & Hm & _ & _ & Hs)].
  - apply Forall_cons in Hbl as [Hbl _]. congruence.
  - apply trimmed_nonempty in Hm. congruence.
Qed.

Section FirstPiece.
Import chunking.

Lemma split_by_sentences_nonempty (c : char) (t : str) :
  is_space c = false -> split_by_sentences (c :: t) <> [].
Proof.
  intros Hc. unfold split_by_sentences, re_split, finditer. cbv zeta.
  assert (Hscan : scan no_flags SENTENCE_BREAK 0 [] (c :: t)
                  = scan no_flags SENTENCE_BREAK 0 [c] t) by reflexivity.
  rewrite Hscan.
  pose proof (scan_in_order no_flags SENTENCE_BREAK t 0 [c]) as Hord.
  assert (Hfirst : exists k rest,
            pieces 0 (scan no_flags SENTENCE_BREAK 0 [c] t) (c :: t)
            = (c :: take k t) :: rest).
  { destruct (scan no_flags SENTENCE_BREAK 0 [c] t) as [|m ms]; cbn [pieces].
    - exists (length t), []. unfold drop. now rewrite firstn_all.
    - destruct Hord as ((Hs & _) & _). simpl in Hs.
      exists (m_start m - 1)%nat, (pieces (m_end m) ms (c :: t)).
      unfold slice. cbn [drop]. rewrite Nat.sub_0_r.
      destruct (m_start m) as [|k]; [lia|]. cbn [take]. now replace (S k - 1)%nat with k by lia. }
  destruct Hfirst as (k & rest & ->).
  rewrite filter_cons.
  destruct (decide (is_empty (strip (c :: take k t)) = false)) as [_ | Hn]; [discriminate|].
  destruct Hn. apply is_empty_false. now apply strip_cons_nonempty.
Qed.

Lemma pieces_of_text_nonempty (max_chars : Z) (text : str) :
  trimmed text -> pieces_of_text max_chars text <> [].
Proof.
  intros [(c & t & -> & Hc) _]. unfold pieces_of_text, split.
  assert (Hlf : starts_with NLNL (c :: t) = false).
  { cbn [NLNL starts_with]. destruct (N.eqb_spec LF c) as [<- |]; [discriminate|reflexivity]. }
  cbn [split_go]. rewrite Hlf.
  destruct (split_go_head NLNL t [c]) as (p & ps & ->).
  cbn [rev app map concat].
  assert (Hp : pieces_of_paragraph max_chars (c :: p) <> []).
  { unfold pieces_of_paragraph. cbv zeta.
    pose proof (strip_cons_nonempty c p Hc) as Hne.
    destruct (strip (c :: p)) as [|d u] eqn:E; [congruence|]. cbn [is_empty].
    destruct (len (d :: u) >? max_chars); [|discriminate].
    destruct (strip_cases (c :: p)) as [Hn | [(d' & u' & Hd & Hsp) _]]; [congruence|].
    rewrite E in Hd. injection Hd as <- <-. now apply split_by_sentences_nonempty. }
  destruct (pieces_of_paragraph max_chars (c :: p)); [congruence|discriminate].
Qed.

Lemma split_by_paragraphs_nonempty (max_chars : Z) (text : str) :
  trimmed text -> split_by_paragraphs text max_chars <> [].
Proof.
  intros Ht. pose proof (pieces_of_text_nonempty max_chars text Ht) as Hne.
  unfold split_by_paragraphs, pieces_of_text in *. cbv zeta.
  destruct (packed_paragraphs max_chars (split NLNL text) (Packer [] [] 0) [])
    as (gs & Hch & Hgs & Hcat).
  { exists []. repeat split. constructor. }
  cbn [app] in Hcat.
  destruct (current_chunk _) as [|p ps]; cbn [nonempty].
  - rewrite Hch. rewrite app_nil_r in Hcat.
    destruct gs; [simpl in Hcat; congruence|discriminate].
  - intros E. now apply app_eq_nil in E as [_ E].
Qed.

Import chapter_split.

(** The first chunk of a chapter. *)
Lemma every_chapter_first (max_chars : Z) (Hpos : 0 < max_chars) (chapter : Chapter) :
  exists c cs',
    chunks_of_chapter max_chars chapter = c :: cs' /\
    chapter_number c = number chapter /\
    chapter_title c = title chapter /\ part_number c = 1 /\
    chunk_id c = make_chunk_id (chapter_number c) (part_number c).
Proof.
  unfold chunks_of_chapter. cbv zeta.
  destruct (Z.leb_spec (len (strip (chapter_split.text chapter))) max_chars) as [|Hlong].
  - eexists _, []. repeat split.
  - pose proof (split_by_paragraphs_nonempty max_chars
                  (strip (chapter_split.text chapter))) as Hne.
    destruct (split_by_paragraphs _ _) as [|p ps].
    + destruct Hne; [|reflexivity].
      destruct (strip_cases (chapter_split.text chapter)) as [E | Ht]; [|exact Ht].
      rewrite E in Hlong. unfold len in Hlong. simpl in Hlong. lia.
    + cbn [number_parts]. eexists _, _. repeat split.
Qed.

(** X12: no chapter is left out: for a positive [max_chars] every chapter,
    also one without text, gives at least one chunk, and its first chunk
    is part 1; in every chunk the part number lies between 1 and
    [total_parts]. *)
Theorem every_chapter_chunked (chapters : list Chapter) (max_chars : Z) :
  0 < max_chars ->
  exists cs,
    create_chunks chapters max_chars = Ok cs /\
    (forall chapter, chapter ∈ chapters ->
       exists c, c ∈ cs /\ chapter_number c = number chapter /\
                 chapter_title c = title chapter /\ part_number c = 1) /\
    Forall (fun c => 1 <= part_number c <= total_parts c) cs.
Proof.
  intros Hpos. eexists. split; [now apply create_chunks_ok|].
  split.
  - intros chapter Hin.
    destruct (every_chapter_first max_chars Hpos chapter) as (c & cs' & E & Hn & Ht & Hp & _).
    exists c. split; [|auto].
    apply list_elem_of_In, in_concat. exists (chunks_of_chapter max_chars chapter).
    split; [apply in_map, list_elem_of_In, Hin|]. rewrite E. now left.
  - apply Forall_forall. intros c Hc.
    apply elem_of_create_chunks in Hc as (chapter & _ & Hc).
    unfold chunks_of_chapter in Hc. cbv zeta in Hc.
    destruct (len (strip (chapter_split.text chapter)) <=? max_chars).
    + apply list_elem_of_singleton in Hc as ->. cbn. lia.
    + set (parts := split_by_paragraphs _ _) in Hc.
      assert (Hgen : forall ps i, c ∈ number_parts chapter (Z.of_nat (length parts)) i ps ->
                i <= part_number c < i + Z.of_nat (length ps) /\
                total_parts c = Z.of_nat (length parts)).
      { induction ps as [|p ps IH]; intros i Hi; [now apply elem_of_nil in Hi|].
        cbn [number_parts] in Hi. apply elem_of_cons in Hi as [-> | Hi].
        - cbn [part_number total_parts length]. lia.
        - apply IH in Hi. cbn [length]. lia. }
      apply Hgen in Hc as [Hp ->]. lia.
Qed.
End FirstPiece.

(* ================================================================== *)
(** * chunking.py: the chunk identifiers *)
(* ================================================================== *)

Lemma digits_value_acc (s : str) :
  forall acc,
    fold_left (fun acc c => 10 * acc + (Z.of_N c - 48)) s acc
    = acc * 10 ^ Z.of_nat (length s) + digits_value s.
Proof.
  unfold digits_value. induction s as [|c s IH]; intros acc; cbn [fold_left length].
  - simpl. lia.
  - rewrite IH, (IH (10 * 0 + _)). rewrite Nat2Z.inj_succ, Z.pow_succ_r by lia. lia.
Qed.

Lemma digits_value_cons (c : char) (s : str) :
  digits_value (c :: s) = (Z.of_N c - 48) * 10 ^ Z.of_nat (length s) + digits_value s.
Proof.
  unfold digits_value at 1. cbn [fold_left]. rewrite digits_value_acc. lia.
Qed.

Lemma digits_value_zeros (k : nat) (s : str) :
  digits_value (repeat 48%N k ++ s) = digits_value s.
Proof.
  induction k as [|k IH]; [reflexivity|].
  cbn [repeat app]. rewrite digits_value_cons, IH. lia.
Qed.

(** A number written out: ASCII digits, at least one, that write it. *)
Lemma digits_go_spec (fuel : nat) :
  forall (n : N) (acc : str),
    (n < 2 ^ N.of_nat (S fuel))%N ->
    Forall (fun c => (48 <= c <= 57)%N) acc ->
    digits_value (digits_go (S fuel) n acc)
    = Z.of_N n * 10 ^ Z.of_nat (length acc) + digits_value acc /\
    Forall (fun c => (48 <= c <= 57)%N) (digits_go (S fuel) n acc) /\
    digits_go (S fuel) n acc <> [].
Proof.
  assert (Hone : forall (n : N) (acc : str),
            Forall (fun c => (48 <= c <= 57)%N) acc ->
            digits_value ((48 + n mod 10)%N :: acc)
            = Z.of_N (n mod 10) * 10 ^ Z.of_nat (length acc) + digits_value acc /\
            Forall (fun c => (48 <= c <= 57)%N) ((48 + n mod 10)%N :: acc)).
  { intros n acc Hacc.
    assert (Hr : (n mod 10 < 10)%N) by (apply N.mod_upper_bound; discriminate).
    revert Hr. generalize (n mod 10)%N. intros r Hr. split.
    - rewrite digits_value_cons. f_equal. f_equal. lia.
    - constructor; [lia|exact Hacc]. }
  induction fuel as [|fuel IH]; intros n acc Hn Hacc.
  - cbn [digits_go]. destruct (N.ltb_spec n 10) as [Hlt | Hge].
    + destruct (Hone n acc Hacc) as [Hv Hd].
      split; [rewrite Hv; now rewrite N.mod_small|]. split; [exact Hd|discriminate].
    + simpl in Hn. lia.
  - change (digits_go (S (S fuel)) n acc)
      with (if (n <? 10)%N then (48 + n mod 10)%N :: acc
            else digits_go (S fuel) (n / 10) ((48 + n mod 10)%N :: acc)).
    destruct (Hone n acc Hacc) as [Hv Hd].
    destruct (N.ltb_spec n 10) as [Hlt | Hge].
    + split; [rewrite Hv; now rewrite N.mod_small|]. split; [exact Hd|discriminate].
    + destruct (IH (n / 10)%N ((48 + n mod 10)%N :: acc)) as (Hv' & Hd' & Hne').
      * apply N.Div0.div_lt_upper_bound.
        rewrite Nat2N.inj_succ, N.pow_succ_r' in Hn.
        revert Hn. generalize (2 ^ N.of_nat (S fuel))%N. intros b Hn. lia.
      * exact Hd.
      * split; [|split; [exact Hd'|exact Hne']].
        rewrite Hv', Hv. cbn [length]. rewrite Nat2Z.inj_succ, Z.pow_succ_r by lia.
        pose proof (N.div_mod n 10 ltac:(discriminate)) as Hdm.
        revert Hdm. generalize (n / 10)%N (n mod 10)%N. intros q r ->.
        rewrite N2Z.inj_add, N2Z.inj_mul. change (Z.of_N 10) with 10. lia.
Qed.

Lemma str_of_N_spec (n : N) :
  digits_value (str_of_N n) = Z.of_N n /\
  Forall (fun c => (48 <= c <= 57)%N) (str_of_N n) /\
  str_of_N n <> [].
Proof.
  unfold str_of_N.
  destruct (digits_go_spec (N.to_nat (N.log2 n)) n []) as (Hv & Hd & Hne).
  - rewrite Nat2N.inj_succ, N2Nat.id.
    destruct (N.eq_dec n 0%N) as [-> | Hn]; [reflexivity|].
    apply N.log2_spec. lia.
  - constructor.
  - split; [|split; assumption]. rewrite Hv. simpl. unfold digits_value. simpl. lia.
Qed.

(** Reading back a number that [format] wrote gives the number. *)
Lemma format_0d_parse (width : nat) (z : Z) : parse_int (format_0d width z) = z.
Proof.
  unfold format_0d. cbv zeta.
  destruct (str_of_N_spec (Z.abs_N z)) as (Hv & Hd & Hne).
  destruct (Z.ltb_spec z 0) as [Hneg | Hpos].
  - cbn [app parse_int length]. rewrite N.eqb_refl, digits_value_zeros, Hv. lia.
  - cbn [app length].
    assert (Hval : digits_value (repeat 48%N (width - 0 - length (str_of_N (Z.abs_N z)))
                                 ++ str_of_N (Z.abs_N z)) = z).
    { rewrite digits_value_zeros, Hv. lia. }
    destruct (width - 0 - length (str_of_N (Z.abs_N z)))%nat as [|k]; cbn [repeat app] in *.
    + destruct (str_of_N (Z.abs_N z)) as [|d ds]; [congruence|].
      apply Forall_cons in Hd as [Hd _]. unfold parse_int.
      destruct (N.eqb_spec d 45); [lia|exact Hval].
    + exact Hval.
Qed.

Lemma format_0d_chars (width : nat) (z : Z) :
  Forall (fun c => c = 45%N \/ (48 <= c <= 57)%N) (format_0d width z).
Proof.
  unfold format_0d. cbv zeta.
  destruct (str_of_N_spec (Z.abs_N z)) as (_ & Hd & _).
  apply Forall_app. split; [|apply Forall_app; split].
  - destruct (z <? 0); repeat constructor.
  - apply Forall_forall. intros c Hc. apply list_elem_of_In, repeat_spec in Hc as ->.
    right. lia.
  - eapply Forall_impl; [exact Hd|]. intros c Hc. now right.
Qed.

Lemma split_at_first (c : char) (a a' b b' : str) :
  c ∉ a -> c ∉ a' -> a ++ c :: b = a' ++ c :: b' -> a = a' /\ b = b'.
Proof.
  revert a'. induction a as [|x a IH]; intros [|x' a'] Ha Ha' E; simpl in E.
  - injection E as ->. auto.
  - injection E as <- _. destruct Ha'. apply elem_of_cons. now left.
  - injection E as -> _. destruct Ha. apply elem_of_cons. now left.
  - injection E as <- E.
    destruct (IH a') as [-> ->]; auto.
    + intros Hin. apply Ha, elem_of_cons. now right.
    + intros Hin. apply Ha', elem_of_cons. now right.
Qed.

Section ChunkIds.
Import chapter_split chunking.

(** Different chapter numbers or different part numbers give different
    identifiers. *)
Lemma make_chunk_id_inj (n i n' i' : Z) :
  make_chunk_id n i = make_chunk_id n' i' -> n = n' /\ i = i'.
Proof.
  unfold make_chunk_id. intros E. apply app_inv_head in E.
  change (u8 "_part_") with (95%N :: u8 "part_") in E.
  assert (Hno : forall w z, 95%N ∉ format_0d w z).
  { intros w z Hin. pose proof (format_0d_chars w z) as Hall.
    eapply Forall_forall in Hall; [|exact Hin]. lia. }
  apply split_at_first in E as [E1 E2]; [|apply Hno|apply Hno].
  apply app_inv_head in E2.
  apply (f_equal parse_int) in E1, E2. rewrite !format_0d_parse in E1, E2. auto.
Qed.

Lemma chunk_ids_of_chapter (max_chars : Z) (chapter : Chapter) :
  exists k,
    map chunk_id (chunks_of_chapter max_chars chapter)
    = map (fun i => make_chunk_id (number chapter) (Z.of_nat i)) (seq 1 k).
Proof.
  unfold chunks_of_chapter. cbv zeta.
  destruct (len (strip (chapter_split.text chapter)) <=? max_chars).
  - now exists 1%nat.
  - set (parts := split_by_paragraphs _ _). exists (length parts).
    generalize (Z.of_nat (length parts)). intros total.
    assert (Hgen : forall ps i,
              map chunk_id (number_parts chapter total (Z.of_nat i) ps)
              = map (fun i => make_chunk_id (number chapter) (Z.of_nat i))
                    (seq i (length ps))).
    { induction ps as [|p ps IH]; intros i; [reflexivity|].
      cbn [number_parts map length seq chunk_id]. f_equal.
      replace (Z.of_nat i + 1) with (Z.of_nat (S i)) by lia. apply IH. }
    apply (Hgen parts 1%nat).
Qed.

(** The identifiers of the chunks are such as [make_chunk_id] gives. *)
Lemma create_chunks_ids (chapters : list Chapter) (max_chars : Z) (cs : list Chunk) :
  create_chunks chapters max_chars = Ok cs ->
  Forall (fun c => is_chunk_id (chunk_id c)) cs.
Proof.
  unfold create_chunks. destruct (max_chars <=? 0); [discriminate|]. intros [= <-].
  rewrite fold_left_app_concat. apply Forall_forall. intros c Hc.
  apply list_elem_of_In, in_concat in Hc as (l & Hl & Hc).
  apply in_map_iff in Hl as (chapter & <- & _).
  destruct (chunk_ids_of_chapter max_chars chapter) as (k & E).
  assert (Hid : chunk_id c ∈ map chunk_id (chunks_of_chapter max_chars chapter)).
  { apply list_elem_of_fmap. exists c. split; [reflexivity|now apply list_elem_of_In]. }
  rewrite E in Hid. apply list_elem_of_fmap in Hid as (i & -> & _).
  now exists (number chapter), (Z.of_nat i).
Qed.

(** X13: the chunk identifiers are all different exactly when the chapter
    numbers are all different: two chapters with the same number share
    the identifier of their first parts, and nothing else makes two
    identifiers equal. *)
Theorem chunk_ids_unique (chapters : list Chapter) (max_chars : Z) :
  0 < max_chars ->
  exists cs,
    create_chunks chapters max_chars = Ok cs /\
    (NoDup (map chunk_id cs) <-> NoDup (map number chapters)).
Proof.
  intros Hpos. eexists. split; [now apply create_chunks_ok|].
  assert (Hfirst : forall chapter,
            make_chunk_id (number chapter) 1
            ∈ map chunk_id (chunks_of_chapter max_chars chapter)).
  { intros chapter.
    destruct (every_chapter_first max_chars Hpos chapter) as (c & cs' & -> & Hn & _ & Hp & Hid).
    cbn [map]. apply elem_of_cons. left. now rewrite Hid, Hn, Hp. }
  assert (Hids : forall chapter x,
            x ∈ map chunk_id (chunks_of_chapter max_chars chapter) ->
            exists i, x = make_chunk_id (number chapter) i).
  { intros chapter x Hx. destruct (chunk_ids_of_chapter max_chars chapter) as (k & E).
    rewrite E in Hx. apply list_elem_of_fmap in Hx as (i & -> & _). eauto. }
  assert (Hrest : forall chs x,
            x ∈ map chunk_id (concat (map (chunks_of_chapter max_chars) chs)) ->
            exists chapter i, chapter ∈ chs /\ x = make_chunk_id (number chapter) i).
  { induction chs as [|ch chs IH]; intros x Hx; [now apply elem_of_nil in Hx|].
    cbn [map concat] in Hx. rewrite map_app in Hx. apply elem_of_app in Hx as [Hx | Hx].
    - apply Hids in Hx as (i & ->). exists ch, i. split; [apply elem_of_cons; now left|reflexivity].
    - apply IH in Hx as (chapter & i & Hin & ->). exists chapter, i.
      split; [apply elem_of_cons; now right|reflexivity]. }
  induction chapters as [|ch chs IH]; [cbn; split; constructor|].
  cbn [map concat]. rewrite map_app, NoDup_app, NoDup_cons, IH.
  split.
  - intros (_ & Hdisj & Hnd). split; [|exact Hnd].
    intros Hin. apply list_elem_of_fmap in Hin as (ch' & Hn & Hin).
    apply (Hdisj (make_chunk_id (number ch) 1)); [apply Hfirst|].
    rewrite Hn. apply list_elem_of_fmap.
    destruct (every_chapter_first max_chars Hpos ch') as (c & cs' & E & Hcn & _ & Hp & Hid).
    exists c. split; [now rewrite Hid, Hcn, Hp|].
    apply list_elem_of_In, in_concat. exists (chunks_of_chapter max_chars ch').
    split; [apply in_map, list_elem_of_In, Hin|]. rewrite E. now left.
  - intros (Hnew & Hnd). split; [|split; [|exact Hnd]].
    + destruct (chunk_ids_of_chapter max_chars ch) as (k & ->).
      apply NoDup_fmap_2_strong; [|apply NoDup_seq].
      intros i j _ _ E. apply make_chunk_id_inj in E as [_ E]. lia.
    + intros x Hx Hx'. apply Hids in Hx as (i & ->).
      apply Hrest in Hx' as (ch' & j & Hin & E).
      apply make_chunk_id_inj in E as [E _]. apply Hnew.
      rewrite E. apply list_elem_of_fmap. eauto.
Qed.
End ChunkIds.

(* ================================================================== *)
(** * utils.py: file names *)
(* ================================================================== *)

Lemma elem_of_replace_one (c d x : char) (s : str) :
  x ∈ replace [c] [d] s -> x = d \/ (x ∈ s /\ x <> c).
Proof.
  unfold replace. induction s as [|y s IH]; [intros H; now apply elem_of_nil in H|].
  cbn [replace_go starts_with length Nat.pred].
  destruct (N.eqb_spec c y) as [<- | Hy]; cbn [andb app]; intros Hx;
    apply elem_of_cons in Hx as [-> | Hx].
  - now left.
  - destruct (IH Hx) as [-> | [Hin Hne]]; [now left|]. right.
    split; [apply elem_of_cons; now right|exact Hne].
  - right. split; [apply elem_of_cons; now left|congruence].
  - destruct (IH Hx) as [-> | [Hin Hne]]; [now left|]. right.
    split; [apply elem_of_cons; now right|exact Hne].
Qed.

Lemma elem_of_replace_all (d x : char) (cs : str) :
  forall name,
    x ∈ fold_left (fun name char => replace [char] [d] name) cs name ->
    x = d \/ (x ∈ name /\ x ∉ cs).
Proof.
  induction cs as [|c cs IH]; intros name Hx; cbn [fold_left] in Hx.
  - right. split; [exact Hx|apply not_elem_of_nil].
  - apply IH in Hx as [-> | [Hx Hcs]]; [now left|].
    apply elem_of_replace_one in Hx as [-> | [Hx Hc]]; [now left|].
    right. split; [exact Hx|]. apply not_elem_of_cons. now split.
Qed.

Lemma replace_all_absent (d : char) (cs : str) :
  forall name,
    (forall c, c ∈ cs -> c ∉ name) ->
    fold_left (fun name char => replace [char] [d] name) cs name = name.
Proof.
  induction cs as [|c cs IH]; intros name Hname; cbn [fold_left]; [reflexivity|].
  rewrite replace_absent by (apply Hname, elem_of_cons; now left).
  apply IH. intros c' Hc'. apply Hname, elem_of_cons. now right.
Qed.

Lemma len_strip (s : str) : len (strip s) <= len s.
Proof.
  destruct (strip_infix s) as (a & b & E). rewrite E at 2.
  rewrite !len_app. pose proof (len_nonneg a). pose proof (len_nonneg b). lia.
Qed.

Lemma elem_of_strip (x : char) (s : str) : x ∈ strip s -> x ∈ s.
Proof.
  destruct (strip_infix s) as (a & b & E). intros Hx. rewrite E.
  apply elem_of_app. right. apply elem_of_app. now left.
Qed.

Lemma elem_of_take_in (x : char) (n : nat) (s : str) : x ∈ take n s -> x ∈ s.
Proof. intros Hx. rewrite <- (take_drop n s). apply elem_of_app. now left. Qed.

Section FileNames.
Import utils.

(** X14: for a [max_length] that is not negative, [safe_filename] gives a
    name without any of the unsafe characters, at most [max_length] long
    and without white space at either end; a name that is safe in this
    sense is left as it is. *)
Theorem safe_filename_safe (name : str) (max_length : Z) :
  0 <= max_length ->
  let safe := safe_filename name max_length in
  (forall c, c ∈ UNSAFE_CHARS -> c ∉ safe) /\
  len safe <= max_length /\
  strip safe = safe /\
  safe_filename safe max_length = safe.
Proof.
  intros Hmax. cbv zeta.
  assert (Hclean : forall n, forall c, c ∈ UNSAFE_CHARS -> c ∉ safe_filename n max_length).
  { intros n c Hc Hin. unfold safe_filename in Hin. cbv zeta in Hin.
    apply elem_of_strip in Hin.
    assert (Hin' : c ∈ fold_left (fun name char => replace [char] (u8 "_") name)
                                 UNSAFE_CHARS n).
    { destruct (len _ >? max_length); [|exact Hin].
      unfold prefix in Hin. destruct (max_length <? 0);
        now apply elem_of_take_in in Hin. }
    apply (elem_of_replace_all 95%N) in Hin' as [-> | [_ Hout]]; [|contradiction].
    clear -Hc. repeat (apply elem_of_cons in Hc as [Hc | Hc]; [discriminate|]).
    now apply elem_of_nil in Hc. }
  assert (Hlen : forall n, len (safe_filename n max_length) <= max_length).
  { intros n. unfold safe_filename. cbv zeta.
    etransitivity; [apply len_strip|].
    destruct (Z.gtb_spec (len (fold_left (fun name char => replace [char] (u8 "_") name)
                                         UNSAFE_CHARS n)) max_length) as [Hgt | Hle];
      [|exact Hle].
    unfold prefix. destruct (Z.ltb_spec max_length 0); [lia|].
    unfold len. rewrite length_take. lia. }
  assert (Hstrip : forall n, strip (safe_filename n max_length) = safe_filename n max_length).
  { intros n. apply strip_idempotent. }
  split; [apply Hclean|]. split; [apply Hlen|]. split; [apply Hstrip|].
  unfold safe_filename at 1. cbv zeta.
  change (u8 "_") with [95%N].
  rewrite replace_all_absent by apply Hclean.
  destruct (Z.gtb_spec (len (safe_filename name max_length)) max_length) as [Hgt | _].
  - pose proof (Hlen name). lia.
  - apply Hstrip.
Qed.
End FileNames.

(* ================================================================== *)
(** * pdf_extract.py: the pages that come out *)
(* ================================================================== *)

Section PdfPages.
Import pdf_extract.

Lemma extract_pages_spec (pages : list page) (nums : list Z) :
  forall page_texts empty_pages,
    empty_pages = Z.of_nat (length (filter (fun t => len t < 10) page_texts)) ->
    exists empty_pages',
      fold_left (extract_page pages) nums (page_texts, empty_pages)
      = (page_texts ++ map (fun n => text_of_page (pages !! Z.to_nat n)) nums,
         empty_pages') /\
      empty_pages'
      = Z.of_nat (length (filter (fun t => len t < 10)
           (page_texts ++ map (fun n => text_of_page (pages !! Z.to_nat n)) nums))).
Proof.
  induction nums as [|n nums IH]; intros page_texts empty_pages He; cbn [fold_left map].
  - exists empty_pages. now rewrite app_nil_r.
  - assert (Hstep : exists e,
              extract_page pages (page_texts, empty_pages) n
              = (page_texts ++ [text_of_page (pages !! Z.to_nat n)], e) /\
              e = Z.of_nat (length (filter (fun t => len t < 10)
                     (page_texts ++ [text_of_page (pages !! Z.to_nat n)])))).
    { unfold extract_page, text_of_page. rewrite filter_app, length_app, filter_cons, filter_nil.
      destruct (pages !! Z.to_nat n) as [[t|]|]; cbv zeta.
      - eexists. split; [reflexivity|].
        destruct (Z.ltb_spec (len (strip (default [] t))) 10) as [Hs | Hl];
          destruct (decide (len (strip (default [] t)) < 10)); try lia; simpl; lia.
      - eexists. split; [reflexivity|].
        destruct (decide (len [] < 10)) as [_ | Hn]; [simpl; lia|].
        destruct Hn. unfold len. simpl. lia.
      - eexists. split; [reflexivity|].
        destruct (decide (len [] < 10)) as [_ | Hn]; [simpl; lia|].
        destruct Hn. unfold len. simpl. lia. }
    destruct Hstep as (e & -> & He').
    destruct (IH _ _ He') as (e' & -> & He''). exists e'.
    rewrite <- !app_assoc in *. cbn [app] in *. now split.
Qed.

Lemma length_range (a b : Z) : length (range a b) = Z.to_nat (b - a).
Proof. unfold range. now rewrite length_map, length_seq. Qed.

(** X15: when [extract_text_from_pdf] returns, the file is a readable
    document and the range of pages asked for, with a start below 1 taken
    as 1 and an end of 0, below 0 or beyond the last page taken as the
    last page, is not empty; there is one text for each page of the
    range, in order, each the stripped text of its page, or empty if the
    page cannot be read; at most half of them are shorter than 10
    characters; and the full text is the page texts joined by blank
    lines. *)
Theorem extract_text_from_pdf_returns (file : pdf) (start_page end_page : Z)
    (full_text : str) (page_texts : list str) :
  extract_text_from_pdf file start_page end_page = inr (full_text, page_texts) ->
  exists pages,
    file = Document pages /\
    let total_pages := Z.of_nat (length pages) in
    let first := Z.max 1 start_page in
    let last :=
      if (end_page <=? 0) || (end_page >? total_pages) then total_pages else end_page in
    first <= last /\
    page_texts = map (fun n => text_of_page (pages !! Z.to_nat n)) (range (first - 1) last) /\
    Z.of_nat (length page_texts) = last - first + 1 /\
    Forall (fun t => strip t = t) page_texts /\
    2 * Z.of_nat (length (filter (fun t => len t < 10) page_texts))
      <= Z.of_nat (length page_texts) /\
    full_text = join [LF; LF] page_texts.
Proof.
  unfold extract_text_from_pdf. destruct file as [| |pages]; try discriminate.
  cbv zeta. intros E. exists pages. split; [reflexivity|].
  replace (if start_page <? 1 then 1 else start_page) with (Z.max 1 start_page) in E
    by (destruct (Z.ltb_spec start_page 1); lia).
  set (first := Z.max 1 start_page) in *.
  set (last := if (end_page <=? 0) || (end_page >? Z.of_nat (length pages))
               then Z.of_nat (length pages) else end_page) in *.
  destruct (Z.gtb_spec first last) as [|Hle]; [discriminate|].
  destruct (extract_pages_spec pages (range (first - 1) last) [] 0 eq_refl)
    as (e & Hfold & He).
  rewrite Hfold in E. cbn [app] in *.
  set (pts := map (fun n => text_of_page (pages !! Z.to_nat n)) (range (first - 1) last)) in *.
  assert (Hlen : Z.of_nat (length pts) = last - first + 1).
  { unfold pts. rewrite length_map, length_range. lia. }
  destruct (Z.gtb_spec (Z.of_nat (length pts)) 0) as [Hpos|]; [|lia].
  destruct (Qle_bool (inject_Z e / inject_Z (Z.of_nat (length pts))) (1 # 2)) eqn:Hq;
    [|discriminate].
  cbn [negb] in E. injection E as <- <-.
  split; [exact Hle|]. split; [reflexivity|]. split; [exact Hlen|].
  split; [|split; [|reflexivity]].
  - unfold pts. apply Forall_forall. intros t Ht.
    apply list_elem_of_fmap in Ht as (n & -> & _). unfold text_of_page.
    destruct (pages !! Z.to_nat n) as [[t|]|]; [apply strip_idempotent|reflexivity|reflexivity].
  - rewrite <- He. apply Qle_bool_iff in Hq.
    destruct (Z.of_nat (length pts)) as [|p|p] eqn:Hp; try lia.
    unfold Qle, Qdiv, Qmult, Qinv, inject_Z in Hq. cbn in Hq. lia.
Qed.
End PdfPages.

Section PdfErrors.
Import pdf_extract.

Lemma half_ratio (e n : Z) :
  0 < n -> (Qle_bool (inject_Z e / inject_Z n) (1 # 2) = true <-> 2 * e <= n).
Proof.
  intros Hn. rewrite Qle_bool_iff. destruct n as [|p|p]; try lia.
  unfold Qle, Qdiv, Qmult, Qinv, inject_Z. cbn. lia.
Qed.

(** X16: [extract_text_from_pdf] raises [PDFExtractionError] exactly when
    the file is missing or cannot be read or the range of pages is empty,
    as it is for a document without pages; and it raises
    [ScanBasedPDFError] exactly when, in a range that is not empty, more
    than half of the page texts are shorter than 10 characters. *)
Theorem extract_text_from_pdf_raises (file : pdf) (start_page end_page : Z) :
  let first := Z.max 1 start_page in
  let last (pages : list page) :=
    if (end_page <=? 0) || (end_page >? Z.of_nat (length pages))
    then Z.of_nat (length pages) else end_page in
  let texts (pages : list page) :=
    map (fun n => text_of_page (pages !! Z.to_nat n)) (range (first - 1) (last pages)) in
  (extract_text_from_pdf file start_page end_page = inl PDFExtractionError <->
   file = Missing \/ file = Unreadable \/
   exists pages, file = Document pages /\ last pages < first) /\
  (extract_text_from_pdf file start_page end_page = inl ScanBasedPDFError <->
   exists pages,
     file = Document pages /\ first <= last pages /\
     Z.of_nat (length (texts pages))
     < 2 * Z.of_nat (length (filter (fun t => len t < 10) (texts pages)))) /\
  (file = Document [] ->
   extract_text_from_pdf file start_page end_page = inl PDFExtractionError).
Proof.
  cbv zeta. unfold extract_text_from_pdf.
  destruct file as [| |pages].
  - split; [split; [auto|reflexivity]|]. split; [|discriminate].
    split; [discriminate|]. intros (pages & ? & _). discriminate.
  - split; [split; [auto|reflexivity]|]. split; [|discriminate].
    split; [discriminate|]. intros (pages & ? & _). discriminate.
  - cbv zeta.
    replace (if start_page <? 1 then 1 else start_page) with (Z.max 1 start_page)
      by (destruct (Z.ltb_spec start_page 1); lia).
    set (first := Z.max 1 start_page).
    set (last := if (end_page <=? 0) || (end_page >? Z.of_nat (length pages))
                 then Z.of_nat (length pages) else end_page).
    assert (Hempty : pages = [] -> last < first).
    { intros ->. unfold last, first. cbn [length]. 
      destruct (Z.leb_spec end_page 0); cbn [orb]; [lia|].
      destruct (Z.gtb_spec end_page (Z.of_nat 0)); lia. }
    destruct (Z.gtb_spec first last) as [Hgt | Hle].
    { split; [split; [intros _|reflexivity]|].
      - right. right. exists pages. split; [reflexivity|]. fold last. lia.
      - split; [|reflexivity]. split; [discriminate|].
        intros (pages' & [= <-] & H & _). fold last in H. lia. }
    destruct (extract_pages_spec pages (range (first - 1) last) [] 0 eq_refl)
      as (e & Hfold & He).
    rewrite Hfold. cbn [app] in *.
    set (pts := map (fun n => text_of_page (pages !! Z.to_nat n)) (range (first - 1) last)) in *.
    assert (Hlen : Z.of_nat (length pts) = last - first + 1).
    { unfold pts. rewrite length_map, length_range. lia. }
    destruct (Z.gtb_spec (Z.of_nat (length pts)) 0) as [Hpos|]; [|lia].
    pose proof (half_ratio e (Z.of_nat (length pts)) Hpos) as Hhalf.
    destruct (Qle_bool (inject_Z e / inject_Z (Z.of_nat (length pts))) (1 # 2)); cbn [negb].
    + assert (Hok : 2 * e <= Z.of_nat (length pts)) by now apply Hhalf.
      split; [split; [discriminate|]|split; [split; [discriminate|]|]].
      * intros [? | [? | (pages' & [= <-] & H)]]; try discriminate. fold last in H. lia.
      * intros (pages' & [= <-] & _ & H). fold last pts in H. lia.
      * intros [= ->]. specialize (Hempty eq_refl). lia.
    + assert (Hbad : ~ 2 * e <= Z.of_nat (length pts)).
      { intros Hc. apply Hhalf in Hc. discriminate. }
      split; [split; [discriminate|]|split; [split; [intros _|reflexivity]|]].
      * intros [? | [? | (pages' & [= <-] & H)]]; try discriminate. fold last in H. lia.
      * exists pages. split; [reflexivity|]. fold last pts. split; [exact Hle|lia].
      * intros [= ->]. specialize (Hempty eq_refl). lia.
Qed.
End PdfErrors.

(* ================================================================== *)
(** * checkpoint.py: what is done stays done *)
(* ================================================================== *)

Section TextFiles.

Lemma replace_same (c : char) (s : str) : replace [c] [c] s = s.
Proof.
  unfold replace. induction s as [|x s IH]; [reflexivity|].
  cbn [replace_go starts_with length Nat.pred].
  destruct (N.eqb_spec c x) as [-> | _]; cbn [andb app]; now rewrite IH.
Qed.

(** What is read from a text file holds no carriage return, and a text
    without one is read as it is. *)
Lemma read_text_unix (content : str) : CR ∉ read_text content.
Proof. apply replace_one_gone. discriminate. Qed.

Lemma read_text_plain (s : str) : CR ∉ s -> read_text s = s.
Proof.
  intros Hs. unfold read_text.
  rewrite (replace_absent CR [LF] [LF] s Hs). now apply replace_absent.
Qed.

Lemma unwrite_windows (s : str) :
  CR ∉ s -> replace [CR; LF] [LF] (replace [LF] [CR; LF] s) = s.
Proof.
  unfold replace. induction s as [|x s IH]; [reflexivity|]. intros Hs.
  apply not_elem_of_cons in Hs as [Hx Hs].
  cbn [replace_go starts_with length Nat.pred].
  destruct (N.eqb_spec LF x) as [<- | Hlf]; cbn [andb app].
  - cbn [replace_go starts_with length Nat.pred]. cbn [N.eqb Pos.eqb andb app].
    now rewrite IH.
  - cbn [replace_go starts_with length Nat.pred].
    destruct (N.eqb_spec CR x) as [E | _]; [congruence|]. cbn [andb].
    now rewrite IH.
Qed.

(** A text without carriage returns is read back as it was written, on
    either platform. *)
Lemma read_write_text (os : platform) (s : str) :
  CR ∉ s -> read_text (write_text os s) = s.
Proof.
  intros Hs. destruct os; unfold write_text; cbn [linesep].
  - rewrite replace_same. now apply read_text_plain.
  - unfold read_text. rewrite (unwrite_windows s Hs). now apply replace_absent.
Qed.

End TextFiles.

Section Checkpoints.
Import checkpoint.
Variable os : platform.

Lemma chunk_file_inj (a b : str) : chunk_file a = chunk_file b -> a = b.
Proof. unfold chunk_file. apply app_inv_tail. Qed.

Lemma is_chunk_done_iff (self : CheckpointManager) (d : disk) (id : str) :
  is_chunk_done self d id = true <-> id ∈ done_ids self d.
Proof.
  unfold is_chunk_done, done_ids.
  rewrite andb_true_iff, !bool_decide_eq_true, elem_of_filter. tauto.
Qed.

Lemma is_chunk_done_ext (self self' : CheckpointManager) (d d' : disk) :
  done_ids self d = done_ids self' d' ->
  forall id, is_chunk_done self d id = is_chunk_done self' d' id.
Proof.
  intros E id. apply eq_true_iff_eq. now rewrite !is_chunk_done_iff, E.
Qed.

Lemma mark_chunk_done_files (self : CheckpointManager) (d : disk) (id out now : str) :
  chunk_files (mark_chunk_done os self d id out now).2
  = <[chunk_file id := write_text os out]> (chunk_files d).
Proof. unfold mark_chunk_done, _save. cbv zeta. cbn [snd _data]. now destruct (_data self). Qed.

Lemma mark_chunk_done_set (self : CheckpointManager) (d : disk) (id out now : str) :
  _chunks_done (mark_chunk_done os self d id out now).1 = {[id]} ∪ _chunks_done self.
Proof. reflexivity. Qed.

Lemma mark_chunk_done_ids (self : CheckpointManager) (d : disk) (id out now : str) :
  done_ids (mark_chunk_done os self d id out now).1
           (mark_chunk_done os self d id out now).2
  = {[id]} ∪ done_ids self d.
Proof.
  unfold done_ids. rewrite mark_chunk_done_files, mark_chunk_done_set.
  apply set_eq. intros x.
  rewrite elem_of_filter, !elem_of_union, elem_of_filter, elem_of_singleton.
  destruct (decide (x = id)) as [-> | Hne].
  - rewrite lookup_insert_eq. split; [now left|]. intros _. split; [eauto|now left].
  - rewrite lookup_insert_ne by (intros E; apply chunk_file_inj in E; congruence). tauto.
Qed.

Lemma mark_chunk_done_output (self : CheckpointManager) (d : disk) (id out now id' : str) :
  get_chunk_output (mark_chunk_done os self d id out now).2 id'
  = if decide (id' = id) then Some (read_text (write_text os out))
    else get_chunk_output d id'.
Proof.
  unfold get_chunk_output. rewrite mark_chunk_done_files.
  destruct (decide (id' = id)) as [-> | Hne]; [now rewrite lookup_insert_eq|].
  rewrite lookup_insert_ne; [reflexivity|].
  intros E. apply chunk_file_inj in E. congruence.
Qed.

(** X17: [mark_chunk_done], for an identifier as [create_chunks] makes
    them.  Afterwards the chunk is done, and its output, as
    [get_chunk_output] reads it, holds no carriage return and is the text
    handed in if that held none; for every other chunk nothing has
    changed.  For a manager that has been initialized, the count of
    [get_progress] is one more for a chunk that was not counted yet and
    the same for one that was, and the total is the same; for a manager
    that has not, [get_progress] gives (0, 0) as before. *)
Theorem mark_chunk_done_recorded (self : CheckpointManager) (d : disk)
    (chunk_id output_text now : str) :
  is_chunk_id chunk_id ->
  let self' := (mark_chunk_done os self d chunk_id output_text now).1 in
  let d' := (mark_chunk_done os self d chunk_id output_text now).2 in
  is_chunk_done self' d' chunk_id = true /\
  (exists content,
     get_chunk_output d' chunk_id = Some content /\
     (CR ∉ content) /\
     (CR ∉ output_text -> content = output_text)) /\
  (forall other, is_chunk_id other -> other <> chunk_id ->
     is_chunk_done self' d' other = is_chunk_done self d other /\
     get_chunk_output d' other = get_chunk_output d other) /\
  get_progress self'
  = match _data self with
    | Some _ =>
        ((get_progress self).1
         + (if decide (chunk_id ∈ _chunks_done self) then 0 else 1),
         (get_progress self).2)
    | None => (0, 0)
    end.
Proof.
  intros _. cbv zeta. split; [|split; [|split]].
  - apply is_chunk_done_iff. rewrite mark_chunk_done_ids.
    apply elem_of_union. left. now apply elem_of_singleton.
  - exists (read_text (write_text os output_text)). split; [|split].
    + rewrite mark_chunk_done_output. now destruct (decide (chunk_id = chunk_id)).
    + apply read_text_unix.
    + apply read_write_text.
  - intros other _ Hne. split.
    + apply eq_true_iff_eq. rewrite !is_chunk_done_iff, mark_chunk_done_ids.
      rewrite elem_of_union, elem_of_singleton. tauto.
    + rewrite mark_chunk_done_output. now destruct (decide (other = chunk_id)).
  - unfold get_progress, mark_chunk_done. cbv zeta. cbn [fst _data _chunks_done].
    destruct (_data self) as [data|]; [|reflexivity]. cbn [fst snd total_chunks].
    f_equal.
    destruct (decide (chunk_id ∈ _chunks_done self)) as [Hin | Hout].
    + replace ({[chunk_id]} ∪ _chunks_done self) with (_chunks_done self); [lia|].
      apply set_eq. intros x. rewrite elem_of_union, elem_of_singleton.
      split; [now right|]. intros [-> | Hx]; assumption.
    + rewrite size_union by (apply disjoint_singleton_l; exact Hout).
      rewrite size_singleton. lia.
Qed.

(** What [initialize] and [mark_chunk_done] keep true: the checkpoint
    file holds the manager's data, with the parameters of the run and the
    chunks listed as done. *)
Lemma initialize_synced (self : CheckpointManager) (d : disk)
    (file hash : str) (size : Z) (mode0 model0 : str) (max_chars0 : Z)
    (provider0 : str) (total : Z) (now : str) :
  let st := (initialize self d file hash size mode0 model0 max_chars0 provider0 total now) in
  exists data,
    _data st.1.2 = Some data /\
    checkpoint_json st.2 = Some (Saved data) /\
    list_to_set (chunks_done data) = _chunks_done st.1.2 /\
    input_hash data = hash /\ mode data = mode0 /\ model data = model0 /\
    max_chars data = max_chars0 /\ provider data = provider0.
Proof.
  cbv zeta. unfold initialize. cbv zeta.
  destruct (checkpoint_json d) as [[|existing]|] eqn:Hjson;
    try (eexists; cbn; repeat split; reflexivity).
  destruct (bool_decide_reflect (input_hash existing = hash)) as [Hh|];
    [|eexists; cbn; repeat split; reflexivity].
  destruct (bool_decide_reflect (mode existing = mode0)) as [Hm|];
    [|eexists; cbn; repeat split; reflexivity].
  destruct (bool_decide_reflect (model existing = model0)) as [Hmo|];
    [|eexists; cbn; repeat split; reflexivity].
  destruct (bool_decide_reflect (max_chars existing = max_chars0)) as [Hmc|];
    [|eexists; cbn; repeat split; reflexivity].
  destruct (bool_decide_reflect (provider existing = provider0)) as [Hp|];
    [|eexists; cbn; repeat split; reflexivity].
  exists existing. cbn. repeat split; auto.
Qed.

Lemma mark_all_synced (hash mode0 model0 : str) (max_chars0 : Z) (provider0 : str)
    (marks : list (str * str * str)) :
  forall st,
    (exists data,
       _data st.1 = Some data /\
       checkpoint_json st.2 = Some (Saved data) /\
       list_to_set (chunks_done data) = _chunks_done st.1 /\
       input_hash data = hash /\ mode data = mode0 /\ model data = model0 /\
       max_chars data = max_chars0 /\ provider data = provider0) ->
    exists data,
      _data (mark_all os marks st).1 = Some data /\
      checkpoint_json (mark_all os marks st).2 = Some (Saved data) /\
      list_to_set (chunks_done data) = _chunks_done (mark_all os marks st).1 /\
      input_hash data = hash /\ mode data = mode0 /\ model data = model0 /\
      max_chars data = max_chars0 /\ provider data = provider0.
Proof.
  unfold mark_all.
  induction marks as [|[[id out] t] marks IH]; intros st Hst; cbn [fold_left]; [exact Hst|].
  apply IH. destruct Hst as (data & Hd & Hj & Hs & Hh & Hm & Hmo & Hmc & Hp).
  unfold mark_chunk_done, _save. cbv zeta. cbn [fst snd _data _chunks_done].
  rewrite Hd. eexists.
  split; [reflexivity|]. split; [reflexivity|].
  cbn [fst snd _data _chunks_done checkpoint_json chunks_done input_hash mode model
       max_chars provider].
  split; [apply list_to_set_elements_L|auto].
Qed.

Lemma initialize_saved (self : CheckpointManager) (d : disk) (existing : CheckpointData)
    (file hash : str) (size : Z) (mode0 model0 : str) (max_chars0 : Z)
    (provider0 : str) (total : Z) (now : str) :
  checkpoint_json d = Some (Saved existing) ->
  initialize self d file hash size mode0 model0 max_chars0 provider0 total now
  = if bool_decide (input_hash existing = hash /\ mode existing = mode0 /\
                    model existing = model0 /\ max_chars existing = max_chars0 /\
                    provider existing = provider0)
    then (true,
          Manager (Some existing) (list_to_set (chunks_done existing)) (_dirs_ensured self),
          d)
    else (false,
          Manager (Some (MkCheckpointData file hash size mode0 model0 max_chars0
                           provider0 now now [] total)) ∅ (_dirs_ensured self),
          Disk (Some (Saved (MkCheckpointData file hash size mode0 model0 max_chars0
                               provider0 now now [] total))) (chunk_files d)).
Proof.
  intros Hj. unfold initialize. cbv zeta. rewrite Hj.
  destruct (bool_decide_reflect (input_hash existing = hash)) as [Hh|Hh]; cbn [andb];
    [|rewrite bool_decide_eq_false_2 by tauto; reflexivity].
  destruct (bool_decide_reflect (mode existing = mode0)) as [Hm|Hm]; cbn [andb];
    [|rewrite bool_decide_eq_false_2 by tauto; reflexivity].
  destruct (bool_decide_reflect (model existing = model0)) as [Hmo|Hmo]; cbn [andb];
    [|rewrite bool_decide_eq_false_2 by tauto; reflexivity].
  destruct (bool_decide_reflect (max_chars existing = max_chars0)) as [Hmc|Hmc]; cbn [andb];
    [|rewrite bool_decide_eq_false_2 by tauto; reflexivity].
  destruct (bool_decide_reflect (provider existing = provider0)) as [Hp|Hp]; cbn [andb];
    [|rewrite bool_decide_eq_false_2 by tauto; reflexivity].
  now rewrite bool_decide_eq_true_2 by tauto.
Qed.

(** X18: a run, in which chunks were marked, is taken up again exactly
    when the hash of the input file, the mode, the model, [max_chars] and
    the provider are those of the run that wrote the checkpoint (the size
    of the input and the number of chunks are not looked at).  Then the
    chunks done are those that were done before; otherwise no chunk is
    done, though the output files are still there. *)
Theorem resume_same_run (self0 : CheckpointManager) (d0 : disk)
    (file hash : str) (size : Z) (mode0 model0 : str) (max_chars0 : Z)
    (provider0 : str) (total : Z) (now0 : str)
    (marks : list (str * str * str))
    (file' hash' : str) (size' : Z) (mode' model' : str) (max_chars' : Z)
    (provider' : str) (total' : Z) (now' : str) :
  Forall (fun mark => is_chunk_id mark.1.1) marks ->
  let first := initialize self0 d0 file hash size mode0 model0 max_chars0 provider0
                          total now0 in
  let before := mark_all os marks (first.1.2, first.2) in
  let again := initialize init before.2 file' hash' size' mode' model' max_chars'
                          provider' total' now' in
  let resumed := again.1.1 in
  (resumed = true <->
   hash' = hash /\ mode' = mode0 /\ model' = model0 /\ max_chars' = max_chars0 /\
   provider' = provider0) /\
  (resumed = true ->
   again.2 = before.2 /\
   forall chunk_id,
     is_chunk_done again.1.2 again.2 chunk_id = is_chunk_done before.1 before.2 chunk_id) /\
  (resumed = false ->
   forall chunk_id,
     is_chunk_done again.1.2 again.2 chunk_id = false /\
     get_chunk_output again.2 chunk_id = get_chunk_output before.2 chunk_id).
Proof.
  intros _. cbv zeta.
  destruct (mark_all_synced hash mode0 model0 max_chars0 provider0 marks
              ((initialize self0 d0 file hash size mode0 model0 max_chars0 provider0
                           total now0).1.2,
               (initialize self0 d0 file hash size mode0 model0 max_chars0 provider0
                           total now0).2))
    as (data & Hd & Hj & Hs & <- & <- & <- & <- & <-).
  { apply initialize_synced. }
  set (before := mark_all os marks _) in *.
  rewrite (initialize_saved init before.2 data) by exact Hj.
  destruct (bool_decide_reflect
              (input_hash data = hash' /\ mode data = mode' /\ model data = model' /\
               max_chars data = max_chars' /\ provider data = provider')) as [Hsame | Hdiff].
  - cbn [fst snd]. split; [split; [intros _|reflexivity]|].
    { destruct Hsame as (? & ? & ? & ? & ?). auto. }
    split; [|discriminate]. intros _. split; [reflexivity|]. intros id.
    unfold is_chunk_done. cbn [_chunks_done]. now rewrite Hs.
  - cbn [fst snd]. split; [split; [discriminate|]|].
    { intros (? & ? & ? & ? & ?). destruct Hdiff. auto. }
    split; [discriminate|]. intros _ id. split; [|reflexivity].
    unfold is_chunk_done. cbn [_chunks_done].
    rewrite bool_decide_eq_false_2; [reflexivity|]. apply not_elem_of_empty.
Qed.
End Checkpoints.

(* ================================================================== *)
(** * exporters.py and main.py: the outputs of a run *)
(* ================================================================== *)

Section Outputs.
Import chunking checkpoint exporters.

Lemma collect_lookup (chunks_dir : gmap str str) (id : str) (chunks : list Chunk) :
  forall outputs : gmap str str,
    let collected :=
      fold_left
        (fun (outputs : gmap str str) chunk =>
           match chunks_dir !! (chunk_id chunk ++ u8 ".md") with
           | Some content => <[chunk_id chunk := read_text content]> outputs
           | None => <[chunk_id chunk := chunking.text chunk]> outputs
           end) chunks outputs in
    (id ∉ map chunk_id chunks -> collected !! id = outputs !! id) /\
    (id ∈ map chunk_id chunks ->
     match chunks_dir !! (id ++ u8 ".md") with
     | Some content => collected !! id = Some (read_text content)
     | None => exists c, c ∈ chunks /\ chunk_id c = id /\
                         collected !! id = Some (chunking.text c)
     end).
Proof.
  induction chunks as [|c cs IH]; intros outputs; cbv zeta; cbn [fold_left map].
  - split; [reflexivity|]. intros H. now apply elem_of_nil in H.
  - set (outputs' := match chunks_dir !! (chunk_id c ++ u8 ".md") with
                     | Some content => <[chunk_id c := read_text content]> outputs
                     | None => <[chunk_id c := chunking.text c]> outputs
                     end).
    destruct (IH outputs') as [Hout Hin]. split.
    + intros Hid. apply not_elem_of_cons in Hid as [Hne Hid]. rewrite (Hout Hid).
      unfold outputs'. destruct (chunks_dir !! (chunk_id c ++ u8 ".md"));
        now rewrite lookup_insert_ne.
    + intros Hid. destruct (decide (id ∈ map chunk_id cs)) as [Hcs | Hcs].
      * specialize (Hin Hcs). destruct (chunks_dir !! (id ++ u8 ".md")); [exact Hin|].
        destruct Hin as (c' & Hc' & E & Hl). exists c'.
        split; [apply elem_of_cons; now right|now split].
      * apply elem_of_cons in Hid as [-> | Hid]; [|contradiction].
        rewrite (Hout Hcs). unfold outputs'.
        destruct (chunks_dir !! (chunk_id c ++ u8 ".md")) as [content|].
        -- apply lookup_insert_eq.
        -- exists c. split; [apply elem_of_cons; now left|].
           split; [reflexivity|apply lookup_insert_eq].
Qed.

(** X19: [collect_chunk_outputs] has an entry for each chunk identifier and
    for nothing else: what is read from the chunk's output file if there
    is one, otherwise the original text of a chunk with that identifier. *)
Theorem collect_chunk_outputs_total (chunks : list Chunk) (chunks_dir : gmap str str) :
  let outputs := collect_chunk_outputs chunks chunks_dir in
  (forall id, is_Some (outputs !! id) <-> id ∈ map chunk_id chunks) /\
  (forall c, c ∈ chunks ->
     match chunks_dir !! (chunk_id c ++ u8 ".md") with
     | Some content => outputs !! chunk_id c = Some (read_text content)
     | None => exists c', c' ∈ chunks /\ chunk_id c' = chunk_id c /\
                          outputs !! chunk_id c = Some (chunking.text c')
     end).
Proof.
  cbv zeta. unfold collect_chunk_outputs. split.
  - intros id. destruct (collect_lookup chunks_dir id chunks ∅) as [Hout Hin].
    destruct (decide (id ∈ map chunk_id chunks)) as [Hid | Hid].
    + split; [auto|intros _]. specialize (Hin Hid).
      destruct (chunks_dir !! (id ++ u8 ".md")); [rewrite Hin; eauto|].
      destruct Hin as (c & _ & _ & ->). eauto.
    + rewrite (Hout Hid), lookup_empty. split; [intros [? ?]; discriminate|contradiction].
  - intros c Hc. destruct (collect_lookup chunks_dir (chunk_id c) chunks ∅) as [_ Hin].
    apply Hin, list_elem_of_fmap. eauto.
Qed.

Import prompts main.
Variable os : platform.
Variable generate : list str -> str -> option str.
Variable now : nat -> str.
Variables style_content glossary_content : str.

Local Abbreviation run_chunks := (process_chunks os generate now style_content glossary_content).
Local Abbreviation ids_done := (fun st => done_ids (manager st) (files st)).

Lemma process_chunks_run (chunks : list Chunk) :
  forall (st : run) (i : nat) (st' : run),
    run_chunks st i chunks = Some st' ->
    ids_done st' = list_to_set (map chunk_id chunks) ∪ ids_done st /\
    requests st'
    = requests st
      ++ map (fun c => build_user_prompt c style_content glossary_content)
             (pending (ids_done st) chunks) /\
    processed_count st' = processed_count st + Z.of_nat (length chunks) /\
    (forall id, id ∈ ids_done st ->
       get_chunk_output (files st') id = get_chunk_output (files st) id).
Proof.
  induction chunks as [|c cs IH]; intros st i st' E; cbn [process_chunks] in E.
  - injection E as <-. cbn [map pending length list_to_set]. rewrite app_nil_r.
    repeat split; [|lia]. apply set_eq. intros x. rewrite elem_of_union.
    split; [now right|]. intros [H | H]; [now apply elem_of_empty in H|exact H].
  - unfold process_chunk in E. cbn [pending map length list_to_set].
    destruct (is_chunk_done (manager st) (files st) (chunk_id c)) eqn:Hdone.
    + apply IH in E as (Hids & Hreq & Hcount & Hout). cbn [manager files requests processed_count] in *.
      apply is_chunk_done_iff in Hdone. rewrite bool_decide_eq_true_2 by exact Hdone.
      split; [|split; [exact Hreq|split; [lia|exact Hout]]].
      rewrite Hids. apply set_eq. intros x.
      rewrite !elem_of_union, elem_of_singleton. split; [tauto|].
      intros [[-> | H] | H]; auto.
    + assert (Hnot : chunk_id c ∉ ids_done st).
      { intros H. apply is_chunk_done_iff in H. congruence. }
      rewrite bool_decide_eq_false_2 by exact Hnot. cbv zeta in E.
      destruct (generate (requests st) _) as [output_text|]; [|discriminate].
      destruct (mark_chunk_done os (manager st) (files st) (chunk_id c) output_text (now i))
        as [self d] eqn:Hmark.
      assert (Hids1 : done_ids self d = {[chunk_id c]} ∪ ids_done st).
      { pose proof (mark_chunk_done_ids os (manager st) (files st) (chunk_id c)
                      output_text (now i)) as H. now rewrite Hmark in H. }
      assert (Hout1 : forall id, id <> chunk_id c ->
                get_chunk_output d id = get_chunk_output (files st) id).
      { intros id Hne.
        pose proof (mark_chunk_done_output os (manager st) (files st) (chunk_id c)
                      output_text (now i) id) as H. rewrite Hmark in H. cbn [snd] in H.
        rewrite H. now destruct (decide (id = chunk_id c)). }
      apply IH in E as (Hids & Hreq & Hcount & Hout).
      cbn [manager files requests processed_count] in *.
      split; [|split; [|split]].
      * rewrite Hids, Hids1. apply set_eq. intros x. rewrite !elem_of_union. tauto.
      * rewrite Hreq, Hids1. cbn [map]. now rewrite <- app_assoc.
      * lia.
      * intros id Hid. rewrite Hout.
        -- apply Hout1. intros ->. contradiction.
        -- rewrite Hids1. apply elem_of_union. now right.
Qed.

(** X20: the loop over chunks as [create_chunks] names them.  When it
    comes to its end, the prompts sent to the service are those of the
    chunks that were pending - not done at the start and not a repeat of
    an identifier met before - in order; every chunk is done, and
    [collect_chunk_outputs] finds the stored output of each, without a
    carriage return in it; the outputs of the chunks that were done at
    the start are untouched; and every chunk has been counted. *)
Theorem process_chunks_complete (st : run) (i : nat) (chunks : list Chunk) (st' : run) :
  Forall (fun c => is_chunk_id (chunk_id c)) chunks ->
  run_chunks st i chunks = Some st' ->
  requests st'
  = requests st
    ++ map (fun c => build_user_prompt c style_content glossary_content)
           (pending (ids_done st) chunks) /\
  (forall c, c ∈ chunks ->
     is_chunk_done (manager st') (files st') (chunk_id c) = true /\
     exists output,
       get_chunk_output (files st') (chunk_id c) = Some output /\
       collect_chunk_outputs chunks (chunk_files (files st')) !! chunk_id c = Some output /\
       CR ∉ output) /\
  (forall id, is_chunk_id id -> id ∈ ids_done st ->
     get_chunk_output (files st') id = get_chunk_output (files st) id) /\
  processed_count st' = processed_count st + Z.of_nat (length chunks).
Proof.
  intros _ E. apply process_chunks_run in E as (Hids & Hreq & Hcount & Hout).
  split; [exact Hreq|]. split; [|split; [intros id _; apply Hout|exact Hcount]].
  intros c Hc.
  assert (Hdone : chunk_id c ∈ ids_done st').
  { rewrite Hids. apply elem_of_union. left. apply elem_of_list_to_set, list_elem_of_fmap. eauto. }
  split; [now apply is_chunk_done_iff|].
  unfold done_ids in Hdone. apply elem_of_filter in Hdone as [[content Hcontent] _].
  exists (read_text content). unfold get_chunk_output. rewrite Hcontent.
  split; [reflexivity|]. split; [|apply read_text_unix].
  destruct (collect_lookup (chunk_files (files st')) (chunk_id c) chunks ∅) as [_ Hin].
  unfold collect_chunk_outputs, chunk_file in *.
  assert (Hid : chunk_id c ∈ map chunk_id chunks) by (apply list_elem_of_fmap; eauto).
  specialize (Hin Hid). rewrite Hcontent in Hin. exact Hin.
Qed.
End Outputs.

(* ================================================================== *)
(** * The properties at sample inputs *)
(* ================================================================== *)

Lemma latin_decimal_values (c : char) (v : Z) :
  decimal (UCD := latin_ucd) c = Some v -> 0 <= v <= 9.
Proof.
  cbn. destruct (N.leb_spec 48 c), (N.leb_spec c 57); cbn; intros [= <-]; lia.
Qed.

Lemma segmenter_heading_not_joined_witness :
  preprocess.is_chapter_heading (H := latin_ucd) sample_heading = true /\
  preprocess.should_join_lines (H := latin_ucd) sample_heading sample_line = false /\
  preprocess.should_join_lines (H := latin_ucd) sample_line sample_heading = false.
Proof.
  apply (segmenter_heading_not_joined (H := latin_ucd) latin_digits_not_space
           sample_heading sample_line).
  - apply (bool_decide_unpack _). vm_compute. exact I.
  - vm_compute. eauto.
Defined.

Lemma split_into_chapters_invariants_witness :
  chapter_split.split_into_chapters (H := latin_ucd) sample_long_prologue <> [] /\
  Forall (fun c => 0 <= chapter_split.number c <= 99999 /\
                   strip (chapter_split.title c) = chapter_split.title c /\
                   strip (chapter_split.text c) = chapter_split.text c)
         (chapter_split.split_into_chapters (H := latin_ucd) sample_long_prologue).
Proof.
  apply (split_into_chapters_invariants (H := latin_ucd) latin_decimal_values
           sample_long_prologue).
Defined.

Lemma every_chapter_chunked_witness :
  exists cs,
    chunking.create_chunks [sample_chapter] 12 = chunking.Ok cs /\
    (forall chapter, chapter ∈ [sample_chapter] ->
       exists c, c ∈ cs /\ chunking.chapter_number c = chapter_split.number chapter /\
                 chunking.chapter_title c = chapter_split.title chapter /\
                 chunking.part_number c = 1) /\
    Forall (fun c => 1 <= chunking.part_number c <= chunking.total_parts c) cs.
Proof. apply (every_chapter_chunked [sample_chapter] 12). lia. Defined.

Lemma chunk_ids_unique_witness :
  exists cs,
    chunking.create_chunks [sample_chapter; sample_chapter] 12 = chunking.Ok cs /\
    (NoDup (map chunking.chunk_id cs)
     <-> NoDup (map chapter_split.number [sample_chapter; sample_chapter])).
Proof. apply (chunk_ids_unique [sample_chapter; sample_chapter] 12). lia. Defined.

Lemma safe_filename_safe_witness :
  (forall c, c ∈ utils.UNSAFE_CHARS -> c ∉ utils.safe_filename (u8 " a/b: c? ") 5) /\
  len (utils.safe_filename (u8 " a/b: c? ") 5) <= 5 /\
  strip (utils.safe_filename (u8 " a/b: c? ") 5) = utils.safe_filename (u8 " a/b: c? ") 5 /\
  utils.safe_filename (utils.safe_filename (u8 " a/b: c? ") 5) 5
  = utils.safe_filename (u8 " a/b: c? ") 5.
Proof. apply (safe_filename_safe (u8 " a/b: c? ") 5). lia. Defined.

Lemma extract_text_from_pdf_returns_witness :
  let page_texts := [u8 "Trang một của sách"; []; u8 "Nội dung trang ba"] in
  let full_text := u8 "Trang một của sách" ++ [LF; LF; LF; LF] ++ u8 "Nội dung trang ba" in
  exists pages,
    sample_pdf = pdf_extract.Document pages /\
    let total_pages := Z.of_nat (length pages) in
    let first := Z.max 1 1 in
    let last := if (0 <=? 0) || (0 >? total_pages) then total_pages else 0 in
    first <= last /\
    page_texts = map (fun n => text_of_page (pages !! Z.to_nat n)) (range (first - 1) last) /\
    Z.of_nat (length page_texts) = last - first + 1 /\
    Forall (fun t => strip t = t) page_texts /\
    2 * Z.of_nat (length (filter (fun t => len t < 10) page_texts))
      <= Z.of_nat (length page_texts) /\
    full_text = join [LF; LF] page_texts.
Proof.
  cbv zeta.
  apply (extract_text_from_pdf_returns sample_pdf 1 0
           (u8 "Trang một của sách" ++ [LF; LF; LF; LF] ++ u8 "Nội dung trang ba")
           [u8 "Trang một của sách"; []; u8 "Nội dung trang ba"]).
  vm_compute. reflexivity.
Defined.

(** A chunk marked on a manager that has been initialized, with a text
    that holds no carriage return: the text is read back as it was
    handed in, and one chunk of two is done. *)
Lemma mark_chunk_done_recorded_witness :
  let chunk_id := chunking.make_chunk_id 3 1 in
  let output_text := u8 "Dòng một" ++ [LF] ++ u8 "Dòng hai" in
  let started :=
    checkpoint.initialize checkpoint.init (checkpoint.Disk None ∅) (u8 "book.pdf")
      (u8 "5d41") 1024 (u8 "polish_vi") (u8 "gemini") 7000 (u8 "google") 2 (sample_now 0) in
  let marked :=
    checkpoint.mark_chunk_done Windows started.1.2 started.2 chunk_id output_text
                               (sample_now 1) in
  checkpoint.is_chunk_done marked.1 marked.2 chunk_id = true /\
  checkpoint.get_chunk_output marked.2 chunk_id = Some output_text /\
  checkpoint.get_progress started.1.2 = (0, 2) /\
  checkpoint.get_progress marked.1 = (1, 2).
Proof.
  cbv zeta.
  destruct (mark_chunk_done_recorded Windows
              (checkpoint.initialize checkpoint.init (checkpoint.Disk None ∅) (u8 "book.pdf")
                 (u8 "5d41") 1024 (u8 "polish_vi") (u8 "gemini") 7000 (u8 "google") 2
                 (sample_now 0)).1.2
              (checkpoint.initialize checkpoint.init (checkpoint.Disk None ∅) (u8 "book.pdf")
                 (u8 "5d41") 1024 (u8 "polish_vi") (u8 "gemini") 7000 (u8 "google") 2
                 (sample_now 0)).2
              (chunking.make_chunk_id 3 1) (u8 "Dòng một" ++ [LF] ++ u8 "Dòng hai")
              (sample_now 1))
    as (Hdone & (content & Hread & _ & Hsame) & _ & Hcount).
  { now exists 3, 1. }
  split; [exact Hdone|]. split; [|split; [reflexivity|exact Hcount]].
  rewrite Hread. f_equal. apply Hsame.
  apply (bool_decide_unpack _). vm_compute. exact I.
Defined.

Lemma resume_same_run_witness :
  let marks := [(chunking.make_chunk_id 1 1, u8 "Một", sample_now 0);
                (chunking.make_chunk_id 2 1, u8 "Hai", sample_now 1)] in
  let first :=
    checkpoint.initialize checkpoint.init (checkpoint.Disk None ∅) (u8 "book.pdf")
      (u8 "5d41") 1024 (u8 "polish_vi") (u8 "gemini") 7000 (u8 "google") 2 (sample_now 0) in
  let before := mark_all Posix marks (first.1.2, first.2) in
  let again :=
    checkpoint.initialize checkpoint.init before.2 (u8 "book.pdf")
      (u8 "5d41") 2048 (u8 "polish_vi") (u8 "gemini") 7000 (u8 "google") 3 (sample_now 2) in
  let resumed := again.1.1 in
  (resumed = true <->
   u8 "5d41" = u8 "5d41" /\ u8 "polish_vi" = u8 "polish_vi" /\ u8 "gemini" = u8 "gemini" /\
   7000 = 7000 /\ u8 "google" = u8 "google") /\
  (resumed = true ->
   again.2 = before.2 /\
   forall chunk_id,
     checkpoint.is_chunk_done again.1.2 again.2 chunk_id
     = checkpoint.is_chunk_done before.1 before.2 chunk_id) /\
  (resumed = false ->
   forall chunk_id,
     checkpoint.is_chunk_done again.1.2 again.2 chunk_id = false /\
     checkpoint.get_chunk_output again.2 chunk_id
     = checkpoint.get_chunk_output before.2 chunk_id).
Proof.
  cbv zeta.
  apply (resume_same_run Posix checkpoint.init (checkpoint.Disk None ∅) (u8 "book.pdf")
           (u8 "5d41") 1024 (u8 "polish_vi") (u8 "gemini") 7000 (u8 "google") 2 (sample_now 0)
           [(chunking.make_chunk_id 1 1, u8 "Một", sample_now 0);
            (chunking.make_chunk_id 2 1, u8 "Hai", sample_now 1)]
           (u8 "book.pdf") (u8 "5d41") 2048 (u8 "polish_vi") (u8 "gemini") 7000
           (u8 "google") 3 (sample_now 2)).
  repeat constructor; cbn [fst]; [now exists 1, 1|now exists 2, 1].
Defined.

Lemma process_chunks_complete_witness :
  let chunks := chunking.chunks_of_chapter 12 sample_chapter in
  let st' :=
    default sample_start
      (main.process_chunks Posix sample_generate sample_now [] [] sample_start 0 chunks) in
  main.requests st'
  = main.requests sample_start
    ++ map (fun c => prompts.build_user_prompt c [] [])
           (pending (done_ids (main.manager sample_start) (main.files sample_start)) chunks) /\
  (forall c, c ∈ chunks ->
     checkpoint.is_chunk_done (main.manager st') (main.files st') (chunking.chunk_id c) = true /\
     exists output,
       checkpoint.get_chunk_output (main.files st') (chunking.chunk_id c) = Some output /\
       exporters.collect_chunk_outputs chunks (checkpoint.chunk_files (main.files st'))
         !! chunking.chunk_id c = Some output /\
       CR ∉ output) /\
  (forall id, is_chunk_id id ->
     id ∈ done_ids (main.manager sample_start) (main.files sample_start) ->
     checkpoint.get_chunk_output (main.files st') id
     = checkpoint.get_chunk_output (main.files sample_start) id) /\
  main.processed_count st'
  = main.processed_count sample_start + Z.of_nat (length chunks).
Proof.
  cbv zeta.
  apply (process_chunks_complete Posix sample_generate sample_now [] [] sample_start 0
           (chunking.chunks_of_chapter 12 sample_chapter)).
  - apply (create_chunks_ids [sample_chapter] 12). reflexivity.
  - vm_compute. reflexivity.
Defined.
